(** * Reliability layer of the campus safety dashboard

    A shallow embedding of three JavaScript services and the properties
    claimed about them:

    - [Backend]   : the backend client (src/unnamed/part_011,
                    class EnterpriseBackendService): cache, retry loop,
                    circuit breaker;
    - [Camera]    : the camera lifecycle manager
                    (src/src/services/productionCameraService.js);
    - [Detection] : the alert handling of the live frame sampler
                    (src/src/services/realTimeDetection.js);
    - [BackendApi], [Realtime] : the health check and the realtime channel
                    of the backend client;
    - [CameraOps] : initialisation, probes and disposal of the camera
                    manager, and the camera switch of the manager component
                    (src/src/components/ProductionCameraManager.jsx);
    - [Sampler]   : the detection loop of the live frame sampler;
    - [Cycle], [CameraAsync] : the sampling cycle and the camera manager
                    cut at their awaits, for what happens when calls
                    overlap.

    Every service is a JavaScript object mutated in place.  It is modelled by
    a record for its fields, a record for the part of the browser it talks to
    (clock, network, media layer, remote store), and a state-and-exception
    monad in which the methods are written statement by statement.  What the
    environment answers (a fetch outcome, a getUserMedia outcome, a store
    outcome) is read from an oracle indexed by the number of calls made so
    far, so that "no network attempt" is the statement that a call counter
    did not move. *)

From Stdlib Require Import ZArith List String Ascii Bool Lia DecimalString.
Import ListNotations.

Local Open Scope Z_scope.
Local Open Scope string_scope.

(** ** JavaScript values that cross the model *)

(** What a [throw] carries.  Every error the modelled code raises or receives
    is an Error object, of which only [message] is ever read; [JsUndefined] is
    the value of an uninitialised [let]. *)
Inductive Thrown : Type :=
| JsError (message : string)
| JsUndefined.

Definition message_of (e : Thrown) : string :=
  match e with
  | JsError m => m
  | JsUndefined => ""
  end.

(** JSON payloads, as far as truthiness needs them. *)
#[local] Set Warnings "-register-all".
Inductive Json : Type :=
| JNull
| JBool (b : bool)
| JNum (z : Z)
| JStr (s : string)
| JArr (items : list Json)
| JObj (fields : list (string * Json)).

Definition truthy (j : Json) : bool :=
  match j with
  | JNull => false
  | JBool b => b
  | JNum z => negb (Z.eqb z 0)
  | JStr s => negb (String.eqb s "")
  | JArr _ => true
  | JObj _ => true
  end.

(** [String.prototype.includes]. *)
Fixpoint includes (s sub : string) : bool :=
  String.prefix sub s ||
  match s with
  | EmptyString => false
  | String _ rest => includes rest sub
  end.

(** Template-literal rendering of numbers. *)
Definition show_nat (n : nat) : string := NilZero.string_of_uint (Nat.to_uint n).
Definition show_Z (z : Z) : string := NilZero.string_of_int (Z.to_int z).

(** ASCII [toLowerCase]. *)
Definition lower_ascii (c : ascii) : ascii :=
  let n := nat_of_ascii c in
  if (Nat.leb 65 n && Nat.leb n 90)%bool then ascii_of_nat (n + 32) else c.

Fixpoint toLowerCase (s : string) : string :=
  match s with
  | EmptyString => EmptyString
  | String c rest => String (lower_ascii c) (toLowerCase rest)
  end.

(** ** JavaScript [Map] with string keys

    A [Map] iterates in insertion order, [set] on a present key keeps the
    key's position, and the cache evicts "the first key": the order is part
    of the behaviour, so the map is an association list rather than an
    extensional finite map.  [set] never adds a second binding for a key and
    [delete] leaves none. *)
Module JSMap.
Section WithValue.
Context {V : Type}.

Definition t : Type := list (string * V).

Definition empty : t := [].

Fixpoint get (m : t) (k : string) : option V :=
  match m with
  | [] => None
  | (k', v) :: rest => if (k' =? k)%string then Some v else get rest k
  end.

Definition has (m : t) (k : string) : bool :=
  match get m k with
  | Some _ => true
  | None => false
  end.

Fixpoint set (m : t) (k : string) (v : V) : t :=
  match m with
  | [] => [(k, v)]
  | (k', v') :: rest =>
      if (k' =? k)%string then (k', v) :: rest else (k', v') :: set rest k v
  end.

Fixpoint delete (m : t) (k : string) : t :=
  match m with
  | [] => []
  | (k', v') :: rest =>
      if (k' =? k)%string then delete rest k else (k', v') :: delete rest k
  end.

Definition clear (m : t) : t := [].

Definition keys (m : t) : list string := map fst m.
Definition values (m : t) : list V := map snd m.
Definition size (m : t) : nat := List.length m.

(** [m.keys().next().value] *)
Definition first_key (m : t) : option string :=
  match m with
  | [] => None
  | (k, _) :: _ => Some k
  end.
End WithValue.
Arguments t : clear implicits.
End JSMap.

(** ** State and exceptions

    A method of a service is a function from the state before to a result and
    the state after.  A [throw] keeps the mutations made before it, as in
    JavaScript. *)
Inductive Result (A : Type) : Type :=
| Ok (a : A)
| Throw (e : Thrown).
Arguments Ok {A} a.
Arguments Throw {A} e.

Section StateExn.
Context {S : Type}.

Definition M (A : Type) : Type := S -> Result A * S.

Definition ret {A} (a : A) : M A := fun s => (Ok a, s).

Definition bind {A B} (m : M A) (k : A -> M B) : M B :=
  fun s =>
    match m s with
    | (Ok a, s') => k a s'
    | (Throw e, s') => (Throw e, s')
    end.

Definition throw {A} (e : Thrown) : M A := fun s => (Throw e, s).

(** [try { m } catch (e) { h e }] *)
Definition try_catch {A} (m : M A) (h : Thrown -> M A) : M A :=
  fun s =>
    match m s with
    | (Ok a, s') => (Ok a, s')
    | (Throw e, s') => h e s'
    end.

(** The settled outcome of a promise, handed to the code after an [await]. *)
Definition settle {A} (m : M A) : M (Result A) :=
  fun s => let '(r, s') := m s in (Ok r, s').

Definition gets {A} (f : S -> A) : M A := fun s => (Ok (f s), s).
Definition modify (f : S -> S) : M unit := fun s => (Ok tt, f s).

Definition when (b : bool) (m : M unit) : M unit := if b then m else ret tt.
End StateExn.

Declare Scope js_scope.
Delimit Scope js_scope with js.
Notation "x <- m ;; k" := (bind m (fun x => k))
  (at level 61, m at next level, right associativity) : js_scope.
Notation "m ;; k" := (bind m (fun _ => k))
  (at level 61, right associativity) : js_scope.
Local Open Scope js_scope.

Definition exec {S A} (m : M (S:=S) A) (s : S) : S := snd (m s).
Definition result {S A} (m : M (S:=S) A) (s : S) : Result A := fst (m s).

(** * The backend client (src/unnamed/part_011) *)
Module Backend.

(** this.retryConfig, this.circuitBreaker.{failureThreshold,resetTimeout},
    this.cacheConfig: set in the constructor and never assigned again. *)
Definition maxRetries : nat := 3.
Definition baseDelay : Z := 1000.
Definition maxDelay : Z := 10000.
Definition failureThreshold : nat := 5.
Definition resetTimeout : Z := 60000.
Definition defaultTTL : Z := 300000.
Definition maxSize : nat := 1000.

Inductive CircuitState : Type := Closed | Open | HalfOpen.

Definition CircuitState_eqb (a b : CircuitState) : bool :=
  match a, b with
  | Closed, Closed | Open, Open | HalfOpen, HalfOpen => true
  | _, _ => false
  end.

Record CircuitBreaker : Type := mkBreaker {
  state : CircuitState;
  failures : nat;
  lastFailure : option Z        (* null until the first failure *)
}.

Record CacheEntry : Type := mkEntry {
  data : Json;
  expires : Z
}.

(** this.metrics without averageResponseTime, a floating-point running
    average that no modelled branch reads. *)
Record Metrics : Type := mkMetrics {
  requests : nat;
  metric_failures : nat;
  cacheHits : nat;
  cacheMisses : nat
}.

Record Service : Type := mkService {
  token : option string;
  circuitBreaker : CircuitBreaker;
  cache : JSMap.t CacheEntry;
  metrics : Metrics
}.

(** What [fetch] followed by [response.json()] can do. *)
Inductive Body : Type :=
| BodyJson (j : Json)
| BodyInvalid (message : string).   (* response.json() rejects *)

Inductive FetchOutcome : Type :=
| FetchRejects (message : string)   (* network-level failure: a TypeError *)
| FetchResponse (status : nat) (statusText : string) (body : Body).

(** The browser around the client.  [net n] is the outcome of the [n]-th
    call of [fetch]; [net_calls] counts the calls made. *)
Record World : Type := mkWorld {
  clock : Z;                          (* Date.now() *)
  net : nat -> FetchOutcome;
  net_calls : nat;
  sleeps : list Z;                    (* delays passed to sleep, oldest first *)
  storedToken : option string;        (* localStorage 'auth_token' *)
  authRequired : nat                  (* 'auth:required' events dispatched *)
}.

Record Sys : Type := mkSys {
  svc : Service;
  world : World
}.

(** The fetch options the client looks at: [options.method],
    [options.params] (carried as its JSON.stringify text) and the body. *)
Record Options : Type := mkOptions {
  method : option string;
  params : option string;
  body : option string
}.

Definition no_options : Options := mkOptions None None None.

(** *** Field updates *)
Definition with_svc (f : Service -> Service) (s : Sys) : Sys :=
  mkSys (f (svc s)) (world s).
Definition with_world (f : World -> World) (s : Sys) : Sys :=
  mkSys (svc s) (f (world s)).

Definition set_token (t : option string) (v : Service) : Service :=
  mkService t (circuitBreaker v) (cache v) (metrics v).
Definition set_breaker (b : CircuitBreaker) (v : Service) : Service :=
  mkService (token v) b (cache v) (metrics v).
Definition set_cache (c : JSMap.t CacheEntry) (v : Service) : Service :=
  mkService (token v) (circuitBreaker v) c (metrics v).
Definition set_metrics (m : Metrics) (v : Service) : Service :=
  mkService (token v) (circuitBreaker v) (cache v) m.

(** constructor() *)
Definition new_service (w : World) : Sys :=
  mkSys (mkService (storedToken w) (mkBreaker Closed 0 None) JSMap.empty
                   (mkMetrics 0 0 0 0))
        w.

(** *** Environment calls *)
Definition now : M Z := gets (fun s => clock (world s)).

Definition fetch : M FetchOutcome :=
  fun s =>
    let w := world s in
    (Ok (net w (net_calls w)),
     with_world (fun w => mkWorld (clock w) (net w) (S (net_calls w)) (sleeps w)
                                  (storedToken w) (authRequired w)) s).

(** sleep(ms): the timer fires after [ms] milliseconds. *)
Definition sleep (ms : Z) : M unit :=
  modify (with_world (fun w =>
    mkWorld (clock w + ms) (net w) (net_calls w) (sleeps w ++ [ms])%list
            (storedToken w) (authRequired w))).

(** Time passing between two calls of the client. *)
Definition tick (dt : Z) (s : Sys) : Sys :=
  with_world (fun w => mkWorld (clock w + dt) (net w) (net_calls w) (sleeps w)
                               (storedToken w) (authRequired w)) s.

(** *** shouldRetry, handleUnauthorized, executeRequest *)
Definition shouldRetry (error : Thrown) : bool :=
  let m := message_of error in
  includes m "Failed to fetch" ||
  includes m "500" ||
  includes m "502" ||
  includes m "503" ||
  includes m "504".

Definition handleUnauthorized : M unit :=
  modify (fun s =>
    with_world (fun w => mkWorld (clock w) (net w) (net_calls w) (sleeps w)
                                 None (S (authRequired w)))
               (with_svc (set_token None) s)).

Definition response_ok (status : nat) : bool :=
  (Nat.leb 200 status && Nat.leb status 299)%bool.

(** The body of the [try] block of the retry loop (lines 100-112). *)
Definition attemptFetch : M Json :=
  response <- fetch ;;
  match response with
  | FetchRejects m => throw (JsError m)
  | FetchResponse status statusText body =>
      if Nat.eqb status 401 then
        handleUnauthorized ;;
        throw (JsError "Authentication required")
      else if negb (response_ok status) then
        throw (JsError ("HTTP " ++ show_nat status ++ ": " ++ statusText))
      else
        match body with
        | BodyJson d => ret d
        | BodyInvalid m => throw (JsError m)
        end
  end.

Definition backoff (attempt : nat) : Z :=
  Z.min (baseDelay * 2 ^ Z.of_nat attempt) maxDelay.

(** The [for] loop of executeRequest.  [left] is the number of iterations
    the loop condition still admits, [attempt] the loop variable. *)
Fixpoint retryLoop (left attempt : nat) (lastError : Thrown) : M Json :=
  match left with
  | O => throw lastError
  | S left' =>
      try_catch attemptFetch (fun error =>
        if (Nat.ltb attempt maxRetries && shouldRetry error)%bool then
          sleep (backoff attempt) ;;
          retryLoop left' (S attempt) error
        else
          throw error)
  end.

Definition executeRequest (endpoint : string) (options : Options) : M Json :=
  retryLoop (S maxRetries) 0 JsUndefined.

(** *** Cache *)
Definition getCacheKey (endpoint : string) (options : Options) : string :=
  endpoint ++ "_" ++ match params options with
                     | Some p => p
                     | None => "{}"
                     end.

Definition getFromCache (key : string) : M (option Json) :=
  c <- gets (fun s => cache (svc s)) ;;
  match JSMap.get c key with
  | None => ret None
  | Some cached =>
      t <- now ;;
      if Z.ltb (expires cached) t then
        modify (with_svc (set_cache (JSMap.delete c key))) ;;
        ret None
      else
        ret (Some (data cached))
  end.

Definition setCache (key : string) (d : Json) : M unit :=
  c <- gets (fun s => cache (svc s)) ;;
  let c1 :=
    if Nat.leb maxSize (JSMap.size c) then
      match JSMap.first_key c with
      | Some firstKey => JSMap.delete c firstKey
      | None => c
      end
    else c in
  t <- now ;;
  modify (with_svc (set_cache (JSMap.set c1 key (mkEntry d (t + defaultTTL))))).

Definition clearCache : M unit :=
  modify (with_svc (fun v => set_cache (JSMap.clear (cache v)) v)).

(** *** Metrics and failure bookkeeping *)
Definition updateMetrics (success : bool) : M unit :=
  modify (with_svc (fun v =>
    let m := metrics v in
    set_metrics (mkMetrics (S (requests m))
                           (if success then metric_failures m
                            else S (metric_failures m))
                           (cacheHits m) (cacheMisses m)) v)).

Definition handleRequestFailure (error : Thrown) : M unit :=
  t <- now ;;
  modify (with_svc (fun v =>
    let b := circuitBreaker v in
    let n := S (failures b) in
    set_breaker (mkBreaker (if Nat.leb failureThreshold n then Open else state b)
                           n (Some t)) v)) ;;
  updateMetrics false.

(** *** request *)
Definition isRead (options : Options) : bool :=
  match method options with
  | Some m => negb ((m =? "POST") || (m =? "PUT") || (m =? "DELETE"))%string
  | None => true
  end.

Definition bump_hits : M unit :=
  modify (with_svc (fun v =>
    let m := metrics v in
    set_metrics (mkMetrics (requests m) (metric_failures m)
                           (S (cacheHits m)) (cacheMisses m)) v)).

Definition bump_misses : M unit :=
  modify (with_svc (fun v =>
    let m := metrics v in
    set_metrics (mkMetrics (requests m) (metric_failures m)
                           (cacheHits m) (S (cacheMisses m))) v)).

(** null coerces to 0 in [Date.now() - this.circuitBreaker.lastFailure]. *)
Definition num_of_time (t : option Z) : Z :=
  match t with
  | Some z => z
  | None => 0
  end.

(** How the synchronous prefix of [request] (lines 39-59) ends: with the
    cached payload, or at the await of executeRequest. *)
Inductive Gate : Type :=
| Served (d : Json)
| ToNetwork.

Definition checkCache (cacheKey : string) (options : Options) : M (option Json) :=
  if isRead options then
    cached <- getFromCache cacheKey ;;
    match cached with
    | Some d =>
        if truthy d then bump_hits ;; ret (Some d)
        else bump_misses ;; ret None
    | None => bump_misses ;; ret None
    end
  else ret None.

Definition checkBreaker : M unit :=
  b <- gets (fun s => circuitBreaker (svc s)) ;;
  match state b with
  | Open =>
      t <- now ;;
      if Z.ltb (t - num_of_time (lastFailure b)) resetTimeout then
        throw (JsError "Circuit breaker is open - service temporarily unavailable")
      else
        modify (with_svc (set_breaker (mkBreaker HalfOpen (failures b) (lastFailure b))))
  | _ => ret tt
  end.

Definition request_begin (endpoint : string) (options : Options) : M Gate :=
  let cacheKey := getCacheKey endpoint options in
  hit <- checkCache cacheKey options ;;
  match hit with
  | Some d => ret (Served d)
  | None => checkBreaker ;; ret ToNetwork
  end.

(** The code after the await (lines 62-83), given how executeRequest
    settled. *)
Definition request_end (endpoint : string) (options : Options)
           (settled : Result Json) : M Json :=
  match settled with
  | Ok response =>
      b <- gets (fun s => circuitBreaker (svc s)) ;;
      when (CircuitState_eqb (state b) HalfOpen)
           (modify (with_svc (set_breaker (mkBreaker Closed 0 (lastFailure b))))) ;;
      when (truthy response && isRead options)
           (setCache (getCacheKey endpoint options) response) ;;
      updateMetrics true ;;
      ret response
  | Throw error =>
      handleRequestFailure error ;;
      throw error
  end.

(** A request that runs to completion before anything else touches the
    client. *)
Definition request (endpoint : string) (options : Options) : M Json :=
  gate <- request_begin endpoint options ;;
  match gate with
  | Served d => ret d
  | ToNetwork =>
      settled <- settle (executeRequest endpoint options) ;;
      request_end endpoint options settled
  end.

(** *** API methods used by the claims *)
Definition getAlerts (params : option string) : M Json :=
  request "/alerts" (mkOptions None (Some match params with
                                          | Some p => p
                                          | None => "{}"
                                          end) None).

Definition createAlert (alertData : string) : M Json :=
  request "/alerts" (mkOptions (Some "POST") None (Some alertData)).

Definition getCameras : M Json :=
  request "/cameras" no_options.

Definition addCamera (cameraData : string) : M Json :=
  clearCache ;;
  request "/cameras" (mkOptions (Some "POST") None (Some cameraData)).

(** *** Calls that overlap

    [request] has one await, that of executeRequest.  A call therefore runs
    in two pieces: the synchronous prefix [request_begin] when it is made,
    and [request_end] when its executeRequest has settled; in between, other
    calls can begin or settle.  The network phase of a pending call (its
    fetches and sleeps) is accounted for in one piece when the call settles:
    it touches neither the breaker nor the cache nor the metrics.  The
    answers of the network therefore go to overlapping calls in the order
    in which they settle; the properties below hold for every network. *)
Record Client : Type := mkClient {
  sys : Sys;
  pending : list (string * Options)     (* calls awaiting executeRequest *)
}.

Inductive Event : Type :=
| Begin (endpoint : string) (options : Options)   (* a call is made *)
| Settle (n : nat)                                (* the n-th pending call settles *)
| Pass (dt : Z).                                  (* time passes *)

Definition new_client (w : World) : Client := mkClient (new_service w) [].

Fixpoint remove_nth {A} (n : nat) (l : list A) : list A :=
  match l, n with
  | [], _ => []
  | _ :: rest, O => rest
  | x :: rest, S n' => x :: remove_nth n' rest
  end.

(** What an event does to the client, and the result it hands to a caller,
    if a call completes with it. *)
Definition react (ev : Event) (c : Client) : option (Result Json) * Client :=
  match ev with
  | Begin endpoint options =>
      match request_begin endpoint options (sys c) with
      | (Ok (Served d), s1) => (Some (Ok d), mkClient s1 (pending c))
      | (Ok ToNetwork, s1) =>
          (None, mkClient s1 (pending c ++ [(endpoint, options)])%list)
      | (Throw e, s1) => (Some (Throw e), mkClient s1 (pending c))
      end
  | Settle n =>
      match nth_error (pending c) n with
      | None => (None, c)
      | Some (endpoint, options) =>
          let '(settled, s1) := executeRequest endpoint options (sys c) in
          let '(r, s2) := request_end endpoint options settled s1 in
          (Some r, mkClient s2 (remove_nth n (pending c)))
      end
  | Pass dt => (None, mkClient (tick dt (sys c)) (pending c))
  end.

(** The results of the calls that complete, in order, and the client at the
    end. *)
Fixpoint play (events : list Event) (c : Client) : list (Result Json) * Client :=
  match events with
  | [] => ([], c)
  | ev :: rest =>
      let '(o, c1) := react ev c in
      let '(rs, c2) := play rest c1 in
      (match o with
       | Some r => r :: rs
       | None => rs
       end, c2)
  end.

(** A call that is awaited before anything else happens. *)
Definition call (endpoint : string) (options : Options) : list Event :=
  [Begin endpoint options; Settle 0].

Definition failed {A} (r : Result A) : bool :=
  match r with
  | Throw _ => true
  | Ok _ => false
  end.

(** Whether the cache check of [request] would answer the call. *)
Definition servedFromCache (endpoint : string) (options : Options) (s : Sys) : bool :=
  match result (checkCache (getCacheKey endpoint options) options) s with
  | Ok (Some _) => true
  | _ => false
  end.

Definition circuitOpenError : Thrown :=
  JsError "Circuit breaker is open - service temporarily unavailable".

(** The counter and the state of the breaker agree. *)
Definition breaker_consistent (b : CircuitBreaker) : Prop :=
  (state b = Closed /\ (failures b < failureThreshold)%nat) \/
  (state b <> Closed /\ (failureThreshold <= failures b)%nat).

(** *** Vocabulary of the properties *)

(** What the retry loop never touches: breaker, cache, metrics and the
    network oracle. *)
Definition untouched (s s1 : Sys) : Prop :=
  circuitBreaker (svc s1) = circuitBreaker (svc s) /\
  cache (svc s1) = cache (svc s) /\
  metrics (svc s1) = metrics (svc s) /\
  net (world s1) = net (world s).

(** An HTTP 401 answer. *)
Definition is401 (o : FetchOutcome) : bool :=
  match o with
  | FetchResponse status _ _ => Nat.eqb status 401
  | FetchRejects _ => false
  end.

Definition authError : Thrown := JsError "Authentication required".

Definition breaker (s : Sys) : CircuitBreaker := circuitBreaker (svc s).
Definition since_failure (s : Sys) : Z :=
  clock (world s) - num_of_time (lastFailure (breaker s)).

(** The three ways a request can go. *)
Inductive Course (endpoint : string) (options : Options) (s : Sys)
  : Result Json -> Sys -> Prop :=
| FromCache d s1 :
    request_begin endpoint options s = (Ok (Served d), s1) ->
    Course endpoint options s (Ok d) s1
| FailFast e s1 :
    request_begin endpoint options s = (Throw e, s1) ->
    Course endpoint options s (Throw e) s1
| OverNetwork s1 settled s2 r s3 :
    request_begin endpoint options s = (Ok ToNetwork, s1) ->
    executeRequest endpoint options s1 = (settled, s2) ->
    request_end endpoint options settled s2 = (r, s3) ->
    Course endpoint options s r s3.

(** *** Scenarios *)

(** Every fetch is answered with 401. *)
Definition unauthorized_world : World :=
  mkWorld 0 (fun _ => FetchResponse 401 "Unauthorized" (BodyJson JNull)) 0 []
          (Some "stale-token") 0.

Definition ok_response : FetchOutcome :=
  FetchResponse 200 "OK" (BodyJson (JObj [("ok", JBool true)])).

(** The backend is unreachable for the first twenty fetches (five requests
    of four attempts each) and healthy afterwards. *)
Definition outage_world : World :=
  mkWorld 0 (fun n => if Nat.ltb n 20 then FetchRejects "Failed to fetch"
                      else ok_response)
          0 [] (Some "token") 0.

(** One healthy answer, then the same outage. *)
Definition read_then_outage_world : World :=
  mkWorld 0 (fun n => if Nat.eqb n 0 then ok_response
                      else if Nat.ltb n 21 then FetchRejects "Failed to fetch"
                      else ok_response)
          0 [] (Some "token") 0.

Definition post : Options := mkOptions (Some "POST") None (Some "{}").

(** Five calls, each awaited before the next is made. *)
Definition five_posts : list Event := List.concat (repeat (call "/alerts" post) 5).

(** Every fetch is answered with the given status line. *)
Definition status_world (status : nat) (statusText : string) : World :=
  mkWorld 0 (fun _ => FetchResponse status statusText (BodyJson JNull)) 0 []
          (Some "token") 0.

(** Two 503 answers, then a healthy one. *)
Definition recovering_world : World :=
  mkWorld 0 (fun n => if Nat.ltb n 2
                      then FetchResponse 503 "Service Unavailable" (BodyJson JNull)
                      else ok_response)
          0 [] (Some "token") 0.

(** The store behind /alerts: the list read by the first fetch, the row
    created by the second, the list as it is afterwards. *)
Definition alerts_world : World :=
  mkWorld 0 (fun n => match n with
                      | 0%nat => FetchResponse 200 "OK" (BodyJson (JArr [JStr "alert-1"]))
                      | 1%nat => FetchResponse 201 "Created" (BodyJson (JObj [("alert_id", JStr "alert-2")]))
                      | _ => FetchResponse 200 "OK"
                               (BodyJson (JArr [JStr "alert-1"; JStr "alert-2"]))
                      end)
          0 [] (Some "token") 0.

End Backend.

(** * The camera lifecycle manager (src/src/services/productionCameraService.js) *)
Module Camera.

(** [x || d] on a possibly missing number: undefined and 0 are falsy. *)
Definition num_or (x : option Z) (d : Z) : Z :=
  match x with
  | Some z => if Z.eqb z 0 then d else z
  | None => d
  end.

(** A numeric range of MediaTrackCapabilities, e.g. [width: {min, max}]. *)
Record Range : Type := mkRange {
  rmin : option Z;
  rmax : option Z
}.

(** What track.getSettings() reports. *)
Record Settings : Type := mkSettings {
  s_width : option Z;
  s_height : option Z;
  s_frameRate : option Z
}.

(** The capability object stored per device: the fields of
    track.getCapabilities() that the service reads, the boolean ones by their
    truthiness, plus the [currentSettings] that getDeviceCapabilities adds.
    [{}] is [no_capabilities]. *)
Record Capabilities : Type := mkCapabilities {
  width : option Range;
  height : option Range;
  frameRate : option Range;
  facingMode : option (list string);
  torch : bool;
  zoom : bool;
  focusMode : bool;
  whiteBalanceMode : bool;
  currentSettings : option Settings
}.

Definition no_capabilities : Capabilities :=
  mkCapabilities None None None None false false false false None.

(** *** The ladders derived from a capability object *)
Definition standardResolutions : list (Z * Z * string) :=
  [ (3840, 2160, "4K UHD");
    (2560, 1440, "1440p");
    (1920, 1080, "1080p");
    (1280, 720, "720p");
    (854, 480, "480p");
    (640, 480, "VGA") ].

Definition resolution_label (w h : Z) : string :=
  show_Z w ++ "x" ++ show_Z h.

Definition extractResolutions (capabilities : Capabilities) : list string :=
  let resolutions :=
    match width capabilities, height capabilities with
    | Some cw, Some ch =>
        let maxWidth := num_or (rmax cw) 1920 in
        let maxHeight := num_or (rmax ch) 1080 in
        flat_map (fun res =>
                    match res with
                    | (w, h, _) =>
                        if (Z.leb w maxWidth && Z.leb h maxHeight)%bool
                        then [resolution_label w h] else []
                    end)
                 standardResolutions
    | _, _ => []
    end in
  if Nat.ltb 0 (List.length resolutions) then resolutions else ["1920x1080"].

Definition extractFrameRates (capabilities : Capabilities) : list Z :=
  match frameRate capabilities with
  | Some fr =>
      let maxFps := num_or (rmax fr) 30 in
      ((if Z.leb 60 maxFps then [60] else []) ++
       (if Z.leb 30 maxFps then [30] else []) ++
       (if Z.leb 24 maxFps then [24] else []) ++
       [15])%list
  | None => [30; 24; 15]
  end.

(** [capabilities.width?.max >= n]: false when anything on the path is
    missing. *)
Definition max_at_least (r : option Range) (n : Z) : bool :=
  match r with
  | Some (mkRange _ (Some m)) => Z.leb n m
  | _ => false
  end.

Definition list_includes (l : option (list string)) (x : string) : bool :=
  match l with
  | Some xs => existsb (String.eqb x) xs
  | None => false
  end.

Fixpoint join (sep : string) (l : list string) : string :=
  match l with
  | [] => ""
  | [x] => x
  | x :: rest => x ++ sep ++ join sep rest
  end.

Definition extractFeatures (capabilities : Capabilities) : string :=
  let features :=
    ((if max_at_least (width capabilities) 1920 then ["HD"] else []) ++
     (if max_at_least (width capabilities) 3840 then ["4K"] else []) ++
     (if max_at_least (frameRate capabilities) 60 then ["60fps"] else []) ++
     (if list_includes (facingMode capabilities) "environment" then ["Rear Camera"] else []) ++
     (if list_includes (facingMode capabilities) "user" then ["Front Camera"] else []) ++
     (if torch capabilities then ["Flash"] else []) ++
     (if zoom capabilities then ["Zoom"] else []) ++
     (if focusMode capabilities then ["Auto Focus"] else []) ++
     (if whiteBalanceMode capabilities then ["White Balance"] else []))%list in
  if Nat.ltb 0 (List.length features) then join ", " features else "Basic Video".

(** navigator.mediaDevices.enumerateDevices() entries. *)
Record MediaDeviceInfo : Type := mkDevice {
  deviceId : string;
  kind : string;
  label : string
}.

Definition detectConnectionType (device : MediaDeviceInfo) : string :=
  let l := toLowerCase (label device) in
  if includes l "usb" then "USB"
  else if (includes l "built-in" || includes l "integrated")%bool then "Built-in"
  else if (includes l "wireless" || includes l "wifi")%bool then "WiFi"
  else if includes l "bluetooth" then "Bluetooth"
  else "Unknown".

(** *** The media layer *)

(** A MediaStreamTrack: [live] is [readyState === 'live']; stop() and the
    end of the source both make it false. *)
Record Track : Type := mkTrack {
  track_kind : string;
  live : bool;
  track_capabilities : Capabilities;
  track_settings : Settings
}.

Definition Stream : Type := list Track.

Inductive GumOutcome : Type :=
| GumRejects (message : string)
| GumStream (tracks : Stream).

(** Camera table entry (the [cameraInfo] object of processDevice, with the
    three fields connect and disconnect add to it). *)
Record CameraInfo : Type := mkCameraInfo {
  cam_id : string;
  cam_name : string;
  cam_status : string;
  cam_capabilities : Capabilities;
  resolutions : list string;
  frameRates : list Z;
  features : string;
  connection : string;
  lastSeen : Z;
  lastConnected : option Z;
  lastDisconnected : option Z;
  cam_currentSettings : option Settings
}.

(** What buildConstraints produces for [constraints.video]. *)
Record Constraints : Type := mkConstraints {
  c_deviceId : string;
  c_width : option Z;
  c_height : option Z;
  c_frameRate : option Z;
  c_facingMode : option string
}.

(** The connection object.  [conn_ref] is its identity on the heap; [stream]
    is the handle of its MediaStream and [videoTrack] the position of
    [stream.getVideoTracks()[0]] among the stream's tracks.  The aspectRatio
    text added to the settings is a formatted float and is left out. *)
Record Connection : Type := mkConnection {
  conn_ref : nat;
  conn_cameraId : string;
  stream : nat;
  videoTrack : nat;
  settings : Settings;
  constraints : Constraints;
  connectedAt : Z;
  isActive : bool
}.

Record Service : Type := mkService {
  connectedCameras : JSMap.t CameraInfo;
  activeStreams : JSMap.t Connection;
  deviceCapabilities : JSMap.t Capabilities;
  connectionStatus : JSMap.t string;
  permissionStatus : string;
  isInitialized : bool
}.

(** The browser around the service.  [gum n] is the outcome of the [n]-th
    getUserMedia call; [streams] holds every MediaStream handed out, a
    stream's handle being its position; [statusLog] and [errorLog] record
    the events passed to the registered callbacks. *)
Record World : Type := mkWorld {
  clock : Z;
  gum : nat -> GumOutcome;
  gum_calls : nat;
  streams : list Stream;
  next_ref : nat;
  statusLog : list (string * string);
  errorLog : list (string * string * option string)
}.

Record Sys : Type := mkSys {
  svc : Service;
  world : World
}.

Definition with_svc (f : Service -> Service) (s : Sys) : Sys :=
  mkSys (f (svc s)) (world s).
Definition with_world (f : World -> World) (s : Sys) : Sys :=
  mkSys (svc s) (f (world s)).

Definition set_connectedCameras (m : JSMap.t CameraInfo) (v : Service) : Service :=
  mkService m (activeStreams v) (deviceCapabilities v) (connectionStatus v)
            (permissionStatus v) (isInitialized v).
Definition set_activeStreams (m : JSMap.t Connection) (v : Service) : Service :=
  mkService (connectedCameras v) m (deviceCapabilities v) (connectionStatus v)
            (permissionStatus v) (isInitialized v).
Definition set_deviceCapabilities (m : JSMap.t Capabilities) (v : Service) : Service :=
  mkService (connectedCameras v) (activeStreams v) m (connectionStatus v)
            (permissionStatus v) (isInitialized v).
Definition set_connectionStatus (m : JSMap.t string) (v : Service) : Service :=
  mkService (connectedCameras v) (activeStreams v) (deviceCapabilities v) m
            (permissionStatus v) (isInitialized v).

Definition set_streams (l : list Stream) (w : World) : World :=
  mkWorld (clock w) (gum w) (gum_calls w) l (next_ref w) (statusLog w) (errorLog w).

(** constructor() *)
Definition new_service (w : World) : Sys :=
  mkSys (mkService JSMap.empty JSMap.empty JSMap.empty JSMap.empty "unknown" false) w.

Definition now : M Z := gets (fun s => clock (world s)).

(** navigator.mediaDevices.getUserMedia: rejects, or hands out a new stream
    and returns its handle. *)
Definition getUserMedia : M nat :=
  fun s =>
    let w := world s in
    let w1 := mkWorld (clock w) (gum w) (S (gum_calls w)) (streams w) (next_ref w)
                      (statusLog w) (errorLog w) in
    match gum w (gum_calls w) with
    | GumRejects m => (Throw (JsError m), mkSys (svc s) w1)
    | GumStream tracks =>
        (Ok (List.length (streams w)),
         mkSys (svc s) (set_streams (streams w ++ [tracks])%list w1))
    end.

Definition getTracks (h : nat) : M Stream :=
  gets (fun s => nth h (streams (world s)) []).

Definition stop (t : Track) : Track :=
  mkTrack (track_kind t) false (track_capabilities t) (track_settings t).

Fixpoint update_nth {A} (n : nat) (f : A -> A) (l : list A) : list A :=
  match l, n with
  | [], _ => []
  | x :: rest, O => f x :: rest
  | x :: rest, S n' => x :: update_nth n' f rest
  end.

(** stream.getTracks().forEach(track => track.stop()) *)
Definition stopAllTracks (h : nat) : M unit :=
  modify (with_world (fun w => set_streams (update_nth h (map stop) (streams w)) w)).

(** Position of the first video track: [stream.getVideoTracks()[0]]. *)
Fixpoint firstVideo (tracks : Stream) (i : nat) : option (nat * Track) :=
  match tracks with
  | [] => None
  | t :: rest =>
      if String.eqb (track_kind t) "video" then Some (i, t)
      else firstVideo rest (S i)
  end.

(** *** Notifications *)
Definition notifyStatusChange (cameraId status : string) : M unit :=
  modify (with_world (fun w =>
    mkWorld (clock w) (gum w) (gum_calls w) (streams w) (next_ref w)
            (statusLog w ++ [(cameraId, status)])%list (errorLog w))).

Definition handleError (type : string) (error : Thrown) (cameraId : option string) : M unit :=
  modify (with_world (fun w =>
    mkWorld (clock w) (gum w) (gum_calls w) (streams w) (next_ref w)
            (statusLog w) (errorLog w ++ [(type, message_of error, cameraId)])%list)).

Definition setStatus (cameraId status : string) : M unit :=
  modify (with_svc (fun v =>
    set_connectionStatus (JSMap.set (connectionStatus v) cameraId status) v)).

(** *** Discovery *)
Definition getDeviceCapabilities (deviceId : string) : M Capabilities :=
  try_catch
    (h <- getUserMedia ;;
     tracks <- getTracks h ;;
     match firstVideo tracks 0 with
     | None => throw (JsError "Cannot read properties of undefined (reading 'getCapabilities')")
     | Some (_, track) =>
         let capabilities := track_capabilities track in
         let current := track_settings track in
         stopAllTracks h ;;
         ret (mkCapabilities (width capabilities) (height capabilities)
                             (frameRate capabilities) (facingMode capabilities)
                             (torch capabilities) (zoom capabilities)
                             (focusMode capabilities) (whiteBalanceMode capabilities)
                             (Some current))
     end)
    (fun _ => ret no_capabilities).

Definition processDevice (device : MediaDeviceInfo) : M unit :=
  try_catch
    (let id := deviceId device in
     n <- gets (fun s => JSMap.size (connectedCameras (svc s))) ;;
     let name := if String.eqb (label device) "" then "Camera " ++ show_nat (n + 1)
                 else label device in
     capabilities <- getDeviceCapabilities id ;;
     t <- now ;;
     let cameraInfo :=
       mkCameraInfo id name "available" capabilities
                    (extractResolutions capabilities)
                    (extractFrameRates capabilities)
                    (extractFeatures capabilities)
                    (detectConnectionType device)
                    t None None None in
     modify (with_svc (fun v =>
       set_connectionStatus (JSMap.set (connectionStatus v) id "disconnected")
         (set_deviceCapabilities (JSMap.set (deviceCapabilities v) id capabilities)
            (set_connectedCameras (JSMap.set (connectedCameras v) id cameraInfo) v)))))
    (fun _ => ret tt).

Fixpoint forEach {S A} (f : A -> M (S:=S) unit) (l : list A) : M (S:=S) unit :=
  match l with
  | [] => ret tt
  | x :: rest => f x ;; forEach f rest
  end.

(** discoverDevices(), given how enumerateDevices() settled, run to its end
    with nothing else running meanwhile.  [CameraAsync] has the pass cut at
    its awaits. *)
Definition discoverDevices (enumerated : Result (list MediaDeviceInfo))
  : M (list CameraInfo) :=
  match enumerated with
  | Throw error => throw error
  | Ok devices =>
      let videoDevices := filter (fun d => String.eqb (kind d) "videoinput") devices in
      modify (with_svc (fun v =>
        set_deviceCapabilities (JSMap.clear (deviceCapabilities v))
          (set_connectedCameras (JSMap.clear (connectedCameras v)) v))) ;;
      forEach processDevice videoDevices ;;
      gets (fun s => JSMap.values (connectedCameras (svc s)))
  end.

(** *** Connecting *)

(** The options connectToCamera reads.  [options.resolution] is carried as
    the two numbers that [split('x').map(Number)] makes of the 'WxH' text. *)
Record ConnectOptions : Type := mkConnectOptions {
  opt_resolution : option (Z * Z);
  opt_frameRate : option Z;
  opt_facingMode : option string
}.

Definition default_options : ConnectOptions := mkConnectOptions None None None.

Definition nonzero (z : Z) : bool := negb (Z.eqb z 0).

Definition typeError (prop : string) : Thrown :=
  JsError ("Cannot read properties of undefined (reading '" ++ prop ++ "')").

(** buildConstraints(cameraId, options, capabilities); [capabilities] is
    what deviceCapabilities.get returned, undefined when the id is not in
    the map, in which case reading a property of it throws. *)
Definition buildConstraints (cameraId : string) (options : ConnectOptions)
           (capabilities : option Capabilities) : Result Constraints :=
  let resolution : Result (option Z * option Z) :=
    match opt_resolution options with
    | Some (w, h) =>
        if (nonzero w && nonzero h)%bool then Ok (Some w, Some h) else Ok (None, None)
    | None =>
        match capabilities with
        | None => Throw (typeError "width")
        | Some c =>
            match width c, height c with
            | Some cw, Some ch =>
                Ok (Some (num_or (rmax cw) 1920), Some (num_or (rmax ch) 1080))
            | _, _ => Ok (None, None)
            end
        end
    end in
  match resolution with
  | Throw e => Throw e
  | Ok (w, h) =>
      let rate : Result (option Z) :=
        match opt_frameRate options with
        | Some f =>
            if nonzero f then Ok (Some f)
            else match capabilities with
                 | None => Throw (typeError "frameRate")
                 | Some c =>
                     match frameRate c with
                     | Some fr => Ok (Some (num_or (rmax fr) 30))
                     | None => Ok None
                     end
                 end
        | None =>
            match capabilities with
            | None => Throw (typeError "frameRate")
            | Some c =>
                match frameRate c with
                | Some fr => Ok (Some (num_or (rmax fr) 30))
                | None => Ok None
                end
            end
        end in
      match rate with
      | Throw e => Throw e
      | Ok f =>
          let facing : Result (option string) :=
            match opt_facingMode options with
            | Some m =>
                if String.eqb m "" then Ok None
                else match capabilities with
                     | None => Throw (typeError "facingMode")
                     | Some c =>
                         match facingMode c with
                         | Some _ => Ok (Some m)
                         | None => Ok None
                         end
                     end
            | None => Ok None
            end in
          match facing with
          | Throw e => Throw e
          | Ok m => Ok (mkConstraints cameraId w h f m)
          end
      end
  end.

Definition lift {S A} (r : Result A) : M (S:=S) A := fun s => (r, s).

Definition newRef : M nat :=
  fun s =>
    let w := world s in
    (Ok (next_ref w),
     mkSys (svc s) (mkWorld (clock w) (gum w) (gum_calls w) (streams w)
                            (S (next_ref w)) (statusLog w) (errorLog w))).

(** [camera.status = ...] and the like: [camera] is the object held in the
    device table, so the table entry changes. *)
Definition updateCamera (cameraId : string) (f : CameraInfo -> CameraInfo) : M unit :=
  modify (with_svc (fun v =>
    match JSMap.get (connectedCameras v) cameraId with
    | Some camera =>
        set_connectedCameras (JSMap.set (connectedCameras v) cameraId (f camera)) v
    | None => v
    end)).

Definition markOnline (t : Z) (actual : Settings) (c : CameraInfo) : CameraInfo :=
  mkCameraInfo (cam_id c) (cam_name c) "online" (cam_capabilities c) (resolutions c)
               (frameRates c) (features c) (connection c) (lastSeen c)
               (Some t) (lastDisconnected c) (Some actual).

Definition markAvailable (t : Z) (c : CameraInfo) : CameraInfo :=
  mkCameraInfo (cam_id c) (cam_name c) "available" (cam_capabilities c) (resolutions c)
               (frameRates c) (features c) (connection c) (lastSeen c)
               (lastConnected c) (Some t) (cam_currentSettings c).

(** connectToCamera(cameraId, options), run to completion: the await of
    getUserMedia is answered at once by the media layer, and nothing else
    runs meanwhile.  [CameraAsync] has the call cut at the await. *)
Definition connectToCamera (cameraId : string) (options : ConnectOptions)
  : M Connection :=
  try_catch
    (known <- gets (fun s => JSMap.has (connectedCameras (svc s)) cameraId) ;;
     if negb known then
       throw (JsError ("Camera " ++ cameraId ++ " not found"))
     else
       existing <- gets (fun s => JSMap.get (activeStreams (svc s)) cameraId) ;;
       match existing with
       | Some c => ret c
       | None =>
           setStatus cameraId "connecting" ;;
           notifyStatusChange cameraId "connecting" ;;
           capabilities <- gets (fun s => JSMap.get (deviceCapabilities (svc s)) cameraId) ;;
           constraints <- lift (buildConstraints cameraId options capabilities) ;;
           h <- getUserMedia ;;
           tracks <- getTracks h ;;
           if Nat.eqb (List.length tracks) 0 then
             throw (JsError "Failed to get valid media stream")
           else
             match firstVideo tracks 0 with
             | None => throw (JsError "No video track in stream")
             | Some (i, track) =>
                 let actualSettings := track_settings track in
                 t <- now ;;
                 r <- newRef ;;
                 let connection :=
                   mkConnection r cameraId h i actualSettings constraints t true in
                 modify (with_svc (fun v =>
                   set_activeStreams (JSMap.set (activeStreams v) cameraId connection) v)) ;;
                 setStatus cameraId "connected" ;;
                 updateCamera cameraId (markOnline t actualSettings) ;;
                 notifyStatusChange cameraId "connected" ;;
                 ret connection
             end
       end)
    (fun error =>
       setStatus cameraId "failed" ;;
       notifyStatusChange cameraId "failed" ;;
       handleError "connection" error (Some cameraId) ;;
       throw error).

(** *** Tearing down *)
Definition disconnectCamera (cameraId : string) : M unit :=
  try_catch
    (existing <- gets (fun s => JSMap.get (activeStreams (svc s)) cameraId) ;;
     match existing with
     | None => ret tt
     | Some connection =>
         stopAllTracks (stream connection) ;;
         modify (with_svc (fun v =>
           set_activeStreams (JSMap.delete (activeStreams v) cameraId) v)) ;;
         setStatus cameraId "disconnected" ;;
         t <- now ;;
         updateCamera cameraId (markAvailable t) ;;
         notifyStatusChange cameraId "disconnected"
     end)
    (fun error => handleError "disconnection" error (Some cameraId)).

Definition handleStreamEnd (cameraId : string) : M unit :=
  modify (with_svc (fun v =>
    set_activeStreams (JSMap.delete (activeStreams v) cameraId) v)) ;;
  setStatus cameraId "disconnected" ;;
  t <- now ;;
  updateCamera cameraId (markAvailable t) ;;
  notifyStatusChange cameraId "stream_ended".

(** The media layer ends the video track of a connection (device unplugged,
    permission revoked) and fires 'ended' on it; the listener registered by
    connectToCamera runs handleStreamEnd with the camera id it captured. *)
Definition endTrack (i : nat) (tracks : Stream) : Stream :=
  update_nth i stop tracks.

Definition trackEnded (connection : Connection) : M unit :=
  modify (with_world (fun w =>
    set_streams (update_nth (stream connection) (endTrack (videoTrack connection))
                            (streams w)) w)) ;;
  handleStreamEnd (conn_cameraId connection).

(** *** Queries *)
Definition getCameraStatus (s : Sys) (cameraId : string) : string :=
  match JSMap.get (connectionStatus (svc s)) cameraId with
  | Some st => if String.eqb st "" then "unknown" else st
  | None => "unknown"
  end.

Definition isConnected (s : Sys) (cameraId : string) : bool :=
  JSMap.has (activeStreams (svc s)) cameraId.

Definition getActiveStream (s : Sys) (cameraId : string) : option nat :=
  match JSMap.get (activeStreams (svc s)) cameraId with
  | Some connection => Some (stream connection)
  | None => None
  end.

(** *** Sequences of operations

    What can happen to the service, one thing at a time: a discovery pass
    (given what enumerateDevices answered), a connect, a disconnect, the
    'ended' event of the video track of a camera's current connection, and
    time passing. *)
Inductive Op : Type :=
| Discover (enumerated : Result (list MediaDeviceInfo))
| Connect (cameraId : string) (options : ConnectOptions)
| Disconnect (cameraId : string)
| TrackEnded (cameraId : string)
| Tick (dt : Z).

Definition step (op : Op) (s : Sys) : Sys :=
  match op with
  | Discover enumerated => exec (discoverDevices enumerated) s
  | Connect cameraId options => exec (connectToCamera cameraId options) s
  | Disconnect cameraId => exec (disconnectCamera cameraId) s
  | TrackEnded cameraId =>
      match JSMap.get (activeStreams (svc s)) cameraId with
      | Some connection => exec (trackEnded connection) s
      | None => s
      end
  | Tick dt =>
      with_world (fun w => mkWorld (clock w + dt) (gum w) (gum_calls w) (streams w)
                                   (next_ref w) (statusLog w) (errorLog w)) s
  end.

Definition steps (ops : list Op) (s : Sys) : Sys :=
  fold_left (fun s op => step op s) ops s.

(** Whether every track of the stream with handle [h] has stopped. *)
Definition allStopped (s : Sys) (h : nat) : bool :=
  forallb (fun t => negb (live t)) (nth h (streams (world s)) []).

(** *** Scenarios *)

(** A capability object reporting at most 1920x1080 at 30 fps. *)
Definition caps_1080p : Capabilities :=
  mkCapabilities (Some (mkRange (Some 1) (Some 1920)))
                 (Some (mkRange (Some 1) (Some 1080)))
                 (Some (mkRange (Some 1) (Some 30)))
                 None false false false false None.

Definition webcam_track : Track :=
  mkTrack "video" true caps_1080p (mkSettings (Some 1280) (Some 720) (Some 30)).

(** Every getUserMedia call is answered with a stream of one live video
    track. *)
Definition webcam_world : World :=
  mkWorld 0 (fun _ => GumStream [webcam_track]) 0 [] 0 [] [].

Definition cam1 : MediaDeviceInfo := mkDevice "cam1" "videoinput" "USB Camera".

(** cam1 discovered and connected. *)
Definition cam1_connected : Sys :=
  steps [Discover (Ok [cam1]); Connect "cam1" default_options]
        (new_service webcam_world).

(** The device ids a discovery pass processes. *)
Definition videoInputs (devices : list MediaDeviceInfo) : list string :=
  map deviceId (filter (fun d => String.eqb (kind d) "videoinput") devices).

(** cam1 connected, then a discovery pass in which enumerateDevices does not
    list it. *)
Definition cam1_unlisted : Sys := step (Discover (Ok [])) cam1_connected.

End Camera.

(** * Alert handling of the live frame sampler
      (src/src/services/realTimeDetection.js) *)
Module Detection.

Definition cooldownPeriod : Z := 5000.

(** [x || d] on a possibly missing string: undefined and '' are falsy. *)
Definition str_or (x : option string) (d : string) : string :=
  match x with
  | Some s => if String.eqb s "" then d else s
  | None => d
  end.

Definition num_or (x : option Z) (d : Z) : Z :=
  match x with
  | Some z => if Z.eqb z 0 then d else z
  | None => d
  end.

(** One entry of [results.alerts].  [location] is the text the template
    literal makes of [alert.location]; [confidence] is passed through
    unread and carried in thousandths. *)
Record Candidate : Type := mkCandidate {
  type : string;
  location : option string;
  confidence : Z;
  personCount : option Z;
  description : string;
  severity : option string
}.

Record Results : Type := mkResults {
  alerts : list Candidate;
  statistics_personCount : option Z
}.

(** The [alertData] object handed to SupabaseService.createAlert. *)
Record AlertData : Type := mkAlertData {
  alert_id : string;
  event_type : string;
  ad_confidence : Z;
  timestamp : Z;
  frame_number : nat;
  person_count : Z;
  ad_description : string;
  ad_location : string;
  ad_severity : string
}.

Record LogEntry : Type := mkLogEntry {
  level : string;
  message : string;
  module : string;
  log_confidence : Z;
  log_frameNumber : nat;
  log_personCount : option Z
}.

(** How one insert into the remote store settles (supabase.js createAlert and
    createSystemLog: [if (error) throw error]), and how long it took. *)
Record StoreOutcome : Type := mkStoreOutcome {
  rejected : option string;     (* the error's message, if the insert failed *)
  latency : Z
}.

Record Service : Type := mkService {
  isActive : bool;
  isProcessing : bool;
  frameCount : nat;
  lastDetectionTime : Z;
  alertCooldowns : JSMap.t Z
}.

(** [store n] is the outcome of the [n]-th insert; [db_alerts] and [db_logs]
    are the rows the store accepted. *)
Record World : Type := mkWorld {
  clock : Z;
  store : nat -> StoreOutcome;
  store_calls : nat;
  db_alerts : list AlertData;
  db_logs : list LogEntry
}.

Record Sys : Type := mkSys {
  svc : Service;
  world : World
}.

Definition with_svc (f : Service -> Service) (s : Sys) : Sys :=
  mkSys (f (svc s)) (world s).

Definition set_alertCooldowns (m : JSMap.t Z) (v : Service) : Service :=
  mkService (isActive v) (isProcessing v) (frameCount v) (lastDetectionTime v) m.

(** constructor() *)
Definition new_service (w : World) : Sys :=
  mkSys (mkService false false 0 0 JSMap.empty) w.

Definition now : M Z := gets (fun s => clock (world s)).

(** The clock reading when the next cycle runs. *)
Definition at_time (t : Z) (s : Sys) : Sys :=
  mkSys (svc s) (let w := world s in
                 mkWorld t (store w) (store_calls w) (db_alerts w) (db_logs w)).

(** An insert: one store call, which takes its latency and then either adds
    the row or throws the store's error. *)
Definition insert (add : World -> World) : M unit :=
  fun s =>
    let w := world s in
    let o := store w (store_calls w) in
    let w1 := mkWorld (clock w + latency o) (store w) (S (store_calls w))
                      (db_alerts w) (db_logs w) in
    match rejected o with
    | Some m => (Throw (JsError m), mkSys (svc s) w1)
    | None => (Ok tt, mkSys (svc s) (add w1))
    end.

(** SupabaseService.createAlert: the [||] defaults it applies to the row
    leave an [alertData] built by handleDetectionResults as it is. *)
Definition createAlert (alertData : AlertData) : M unit :=
  insert (fun w => mkWorld (clock w) (store w) (store_calls w)
                           (db_alerts w ++ [alertData])%list (db_logs w)).

Definition createSystemLog (entry : LogEntry) : M unit :=
  insert (fun w => mkWorld (clock w) (store w) (store_calls w)
                           (db_alerts w) (db_logs w ++ [entry])%list).

Definition alertKey (alert : Candidate) : string :=
  type alert ++ "_" ++ str_or (location alert) "unknown".

Definition lastAlertTime (s : Sys) (key : string) : Z :=
  num_or (JSMap.get (alertCooldowns (svc s)) key) 0.

Definition makeAlertData (alert : Candidate) (results : Results)
           (t : Z) (frame : nat) : AlertData :=
  mkAlertData ("live_" ++ show_Z t ++ "_" ++ show_nat frame)
              (type alert)
              (confidence alert)
              t
              frame
              (num_or (personCount alert) (num_or (statistics_personCount results) 1))
              (description alert)
              (str_or (location alert) "Live Camera")
              (str_or (severity alert) "medium").

Definition makeLogEntry (alert : Candidate) (results : Results) (frame : nat)
  : LogEntry :=
  mkLogEntry "INFO"
             ("Live detection: " ++ type alert ++ " - " ++ description alert)
             "live_detection"
             (confidence alert) frame (statistics_personCount results).

(** The [for (const alert of results.alerts)] loop (lines 155-197), run to
    its end: every insert settles as soon as it is called and nothing else
    runs meanwhile.  [Cycle] has the loop cut at the awaits of the
    inserts. *)
Fixpoint alertLoop (results : Results) (pending : list Candidate) : M unit :=
  match pending with
  | [] => ret tt
  | alert :: rest =>
      let key := alertKey alert in
      last <- gets (fun s => lastAlertTime s key) ;;
      t <- now ;;
      if Z.ltb (t - last) cooldownPeriod then
        alertLoop results rest
      else
        frame <- gets (fun s => frameCount (svc s)) ;;
        createAlert (makeAlertData alert results t frame) ;;
        modify (with_svc (fun v =>
          set_alertCooldowns (JSMap.set (alertCooldowns v) key t) v)) ;;
        frame' <- gets (fun s => frameCount (svc s)) ;;
        createSystemLog (makeLogEntry alert results frame') ;;
        alertLoop results rest
  end.

(** handleDetectionResults(results): the loop inside one try/catch whose
    handler only logs to the console. *)
Definition handleDetectionResults (results : Results) : M unit :=
  try_catch (alertLoop results (alerts results)) (fun _ => ret tt).

(** processFrame(videoElement), run to completion.  [captured] tells whether
    captureFrame produced a frame, [analysis] is what analyzeFrame returned
    (null when the detector failed). *)
Definition processFrame (captured : bool) (analysis : option Results) : M unit :=
  v <- gets svc ;;
  if (negb (isActive v) || isProcessing v)%bool then ret tt
  else
    modify (with_svc (fun v =>
      mkService (isActive v) true (S (frameCount v)) (lastDetectionTime v)
                (alertCooldowns v))) ;;
    (if captured then
       match analysis with
       | Some results =>
           when (Nat.ltb 0 (List.length (alerts results)))
                (handleDetectionResults results)
       | None => ret tt
       end ;;
       t <- now ;;
       modify (with_svc (fun v =>
         mkService (isActive v) (isProcessing v) (frameCount v) t (alertCooldowns v)))
     else ret tt) ;;
    modify (with_svc (fun v =>
      mkService (isActive v) false (frameCount v) (lastDetectionTime v)
                (alertCooldowns v))).

(** *** Vocabulary of the properties *)

(** The candidate is not in cooldown when the loop reaches it in [s]. *)
Definition passesCooldown (s : Sys) (alert : Candidate) : Prop :=
  cooldownPeriod <= clock (world s) - lastAlertTime s (alertKey alert).

(** The outcome of the next insert. *)
Definition nextInsert (s : Sys) : StoreOutcome :=
  store (world s) (store_calls (world s)).

(** The state after an insert that the store rejected. *)
Definition afterRejectedInsert (s : Sys) : Sys :=
  mkSys (svc s)
        (let w := world s in
         mkWorld (clock w + latency (nextInsert s)) (store w) (S (store_calls w))
                 (db_alerts w) (db_logs w)).

(** *** Scenarios *)
Definition fight : Candidate :=
  mkCandidate "fight" (Some "Gate A") 910 (Some 2) "Fight detected" (Some "high").


Definition fall : Candidate :=
  mkCandidate "fall" (Some "Hall B") 800 (Some 1) "Fall detected" None.

Definition batch (candidates : list Candidate) : Results :=
  mkResults candidates (Some 2).

(** Stores: healthy, down, and rejecting only the first insert.  The clock
    starts at 10 s. *)
Definition healthy_store : World :=
  mkWorld 10000 (fun _ => mkStoreOutcome None 40) 0 [] [].


Definition first_insert_rejected : World :=
  mkWorld 10000 (fun n => if Nat.eqb n 0
                          then mkStoreOutcome (Some "connection refused") 40
                          else mkStoreOutcome None 40)
          0 [] [].

End Detection.

(** * More of the backend client: health check and cache scenarios *)
Module BackendApi.
Import Backend.

Definition getSystemHealth : M Json := request "/system/health" no_options.

(** What healthCheck() resolves to.  The [metrics] field of both shapes is a
    pure read of the counters and is left out. *)
Inductive HealthReport : Type :=
| Healthy (backend : Json)
| Unhealthy (error : string).

Definition healthCheck : M HealthReport :=
  try_catch (health <- getSystemHealth ;; ret (Healthy health))
            (fun error => ret (Unhealthy (message_of error))).

(** The sleeps between the four attempts of executeRequest. *)
Definition backoffLadder : list Z := [1000; 2000; 4000].

(** The cache from which setCache starts: with the first-inserted key
    removed when the cache is full. *)
Definition evicted (c : JSMap.t CacheEntry) : JSMap.t CacheEntry :=
  if Nat.leb maxSize (JSMap.size c) then
    match JSMap.first_key c with
    | Some firstKey => JSMap.delete c firstKey
    | None => c
    end
  else c.

(** *** Scenarios *)

(** A cache of [n] entries, inserted in the order /k0, /k1, ... *)
Definition numbered_cache (n : nat) : JSMap.t CacheEntry :=
  map (fun i => ("/k" ++ show_nat i ++ "_{}", mkEntry (JStr "v") 1000000))
      (seq 0 n).

Definition full_cache_client : Sys :=
  with_svc (set_cache (numbered_cache maxSize)) (new_service outage_world).

(** A client whose cache holds a fresh answer for /system/health. *)
Definition cached_health_client : Sys :=
  exec getSystemHealth (new_service read_then_outage_world).

End BackendApi.

(** * The realtime channel of the backend client
      (src/unnamed/part_011, lines 192-296) *)
Module Realtime.
Import Backend.

Definition maxReconnectAttempts : nat := 10.

(** WebSocket.readyState *)
Inductive ReadyState : Type := CONNECTING | OPEN | CLOSING | CLOSED.

Definition ReadyState_eqb (a b : ReadyState) : bool :=
  match a, b with
  | CONNECTING, CONNECTING | OPEN, OPEN | CLOSING, CLOSING | CLOSED, CLOSED => true
  | _, _ => false
  end.

(** The client together with its realtime fields and what they reach:
    [sockets] holds every WebSocket constructed, a socket's handle being its
    position; [timers] the delay of every reconnect timer set, oldest first;
    [pendingTimers] the number of them that have not fired yet;
    [dispatched] the CustomEvents dispatched on window, name and detail. *)
Record Link : Type := mkLink {
  client : Sys;
  websocket : option nat;
  reconnectAttempts : nat;
  sockets : list ReadyState;
  timers : list Z;
  pendingTimers : nat;
  dispatched : list (string * option Json)
}.

Definition new_link (w : World) : Link :=
  mkLink (new_service w) None 0 [] [] 0 [].

Definition readyState (l : Link) (h : nat) : ReadyState := nth h (sockets l) CLOSED.

Fixpoint replace_nth {A} (n : nat) (x : A) (l : list A) : list A :=
  match l, n with
  | [], _ => []
  | _ :: rest, O => x :: rest
  | y :: rest, S n' => y :: replace_nth n' x rest
  end.

Definition set_readyState (h : nat) (r : ReadyState) (l : Link) : Link :=
  mkLink (client l) (websocket l) (reconnectAttempts l)
         (replace_nth h r (sockets l)) (timers l) (pendingTimers l) (dispatched l).

(** connectWebSocket().  [constructs] tells whether [new WebSocket(url)]
    returned (it throws on a malformed URL, and the promise is rejected).
    The promise itself settles with the socket's open or error event. *)
Definition connectWebSocket (constructs : bool) (l : Link) : Link :=
  let isOpen := match websocket l with
                | Some h => ReadyState_eqb (readyState l h) OPEN
                | None => false
                end in
  if isOpen then l
  else if constructs then
    mkLink (client l) (Some (List.length (sockets l))) (reconnectAttempts l)
           (sockets l ++ [CONNECTING])%list (timers l) (pendingTimers l) (dispatched l)
  else l.

Definition reconnectDelay (attempts : nat) : Z :=
  Z.min (1000 * 2 ^ Z.of_nat attempts) 30000.

Definition scheduleReconnect (l : Link) : Link :=
  if Nat.leb maxReconnectAttempts (reconnectAttempts l) then l
  else
    mkLink (client l) (websocket l) (S (reconnectAttempts l)) (sockets l)
           (timers l ++ [reconnectDelay (reconnectAttempts l)])%list
           (S (pendingTimers l)) (dispatched l).

(** [data.name] on a parsed JSON value: a TypeError on null, undefined on a
    primitive or an array, the field of an object (whose keys are distinct,
    as JSON.parse leaves them). *)
Definition property (data : Json) (name : string) : Result (option Json) :=
  match data with
  | JNull => Throw (JsError ("Cannot read properties of null (reading '" ++ name ++ "')"))
  | JObj fields =>
      Ok (match find (fun f => String.eqb (fst f) name) fields with
          | Some f => Some (snd f)
          | None => None
          end)
  | _ => Ok None
  end.

Definition dispatch (name : string) (detail : option Json) (l : Link) : Link :=
  mkLink (client l) (websocket l) (reconnectAttempts l) (sockets l) (timers l)
         (pendingTimers l) (dispatched l ++ [(name, detail)])%list.

Definition is_type (t : option Json) (name : string) : bool :=
  match t with
  | Some (JStr s) => String.eqb s name
  | _ => false
  end.

Definition handleWebSocketMessage (data : Json) (l : Link) : Result unit * Link :=
  match property data "type" with
  | Throw e => (Throw e, l)
  | Ok t =>
      let payload := match property data "payload" with
                     | Ok p => p
                     | Throw _ => None
                     end in
      if is_type t "alert" then (Ok tt, dispatch "realtime:alert" payload l)
      else if is_type t "camera_status" then (Ok tt, dispatch "realtime:camera" payload l)
      else if is_type t "system_update" then (Ok tt, dispatch "realtime:system" payload l)
      else (Ok tt, dispatch "realtime:message" (Some data) l)
  end.

(** The data of a message event: text that JSON.parse rejects, or the
    value it parses to. *)
Inductive Frame : Type :=
| Garbled
| Parses (data : Json).

(** websocket.onmessage *)
Definition onmessage (frame : Frame) (l : Link) : Link :=
  match frame with
  | Garbled => l
  | Parses data => snd (handleWebSocketMessage data l)
  end.

(** websocket.onopen *)
Definition onopen (l : Link) : Link :=
  mkLink (client l) (websocket l) 0 (sockets l) (timers l) (pendingTimers l)
         (dispatched l).

(** websocket.close(): a socket that is connecting or open starts closing;
    its close event comes later. *)
Definition close (h : nat) (l : Link) : Link :=
  match readyState l h with
  | CONNECTING | OPEN =>
      if Nat.ltb h (List.length (sockets l)) then set_readyState h CLOSING l else l
  | _ => l
  end.

(** logout(): the request in a try whose handler only logs, then the
    finally block. *)
Definition logout (l : Link) : Link :=
  let s1 := exec (request "/auth/logout" (mkOptions (Some "POST") None None)) (client l) in
  let s2 := with_world (fun w => mkWorld (clock w) (net w) (net_calls w) (sleeps w)
                                         None (authRequired w))
                       (with_svc (set_token None) s1) in
  match websocket l with
  | Some h =>
      let l1 := close h l in
      mkLink s2 None (reconnectAttempts l1) (sockets l1) (timers l1)
             (pendingTimers l1) (dispatched l1)
  | None =>
      mkLink s2 None (reconnectAttempts l) (sockets l) (timers l)
             (pendingTimers l) (dispatched l)
  end.

(** What happens to the channel: a socket opens, closes, reports an error
    or delivers a message, a reconnect timer fires, the application asks for
    a connection (as login does), or it logs out. *)
Inductive Signal : Type :=
| Opened (h : nat)
| Closed (h : nat)
| Errored (h : nat)
| Received (h : nat) (frame : Frame)
| TimerFired (constructs : bool)
| Connect (constructs : bool)
| Logout.

Definition react (sig : Signal) (l : Link) : Link :=
  match sig with
  | Opened h =>
      if ReadyState_eqb (readyState l h) CONNECTING
      then onopen (set_readyState h OPEN l) else l
  | Closed h =>
      if (Nat.ltb h (List.length (sockets l)) && negb (ReadyState_eqb (readyState l h) CLOSED))%bool
      then scheduleReconnect (set_readyState h CLOSED l) else l
  | Errored h => l
  | Received h frame =>
      if ReadyState_eqb (readyState l h) OPEN then onmessage frame l else l
  | TimerFired constructs =>
      match pendingTimers l with
      | O => l
      | S n =>
          connectWebSocket constructs
            (mkLink (client l) (websocket l) (reconnectAttempts l) (sockets l)
                    (timers l) n (dispatched l))
      end
  | Connect constructs => connectWebSocket constructs l
  | Logout => logout l
  end.

Definition run (signals : list Signal) (l : Link) : Link :=
  fold_left (fun l sig => react sig l) signals l.

(** The delays of the ten reconnect attempts. *)
Definition reconnectLadder : list Z :=
  [1000; 2000; 4000; 8000; 16000; 30000; 30000; 30000; 30000; 30000].

Definition isOpened (sig : Signal) : bool :=
  match sig with
  | Opened _ => true
  | _ => false
  end.

(** A link whose socket is open. *)
Definition open_link : Link :=
  run [Connect true; Opened 0] (new_link outage_world).

End Realtime.

(** * More of the camera lifecycle manager: initialisation, probes,
      disposal, and the component that selects a camera
      (src/src/services/productionCameraService.js,
       src/src/components/ProductionCameraManager.jsx) *)
Module CameraOps.
Import Camera.

Definition set_permissionStatus (p : string) (v : Service) : Service :=
  mkService (connectedCameras v) (activeStreams v) (deviceCapabilities v)
            (connectionStatus v) p (isInitialized v).

Definition set_isInitialized (b : bool) (v : Service) : Service :=
  mkService (connectedCameras v) (activeStreams v) (deviceCapabilities v)
            (connectionStatus v) (permissionStatus v) b.

(** How the getUserMedia({video: true, audio: false}) of the permission
    request settled: with a stream, or with an error of the given name. *)
Inductive PermissionAnswer : Type :=
| Granted (tracks : Stream)
| Refused (name message : string).

(** The media layer answering a getUserMedia call with the given stream. *)
Definition handOut (tracks : Stream) : M nat :=
  fun s =>
    let w := world s in
    (Ok (List.length (streams w)),
     mkSys (svc s)
           (mkWorld (clock w) (gum w) (S (gum_calls w)) (streams w ++ [tracks])%list
                    (next_ref w) (statusLog w) (errorLog w))).

Definition countCall : M unit :=
  modify (with_world (fun w =>
    mkWorld (clock w) (gum w) (S (gum_calls w)) (streams w) (next_ref w)
            (statusLog w) (errorLog w))).

Definition permissionError (name message : string) : Thrown :=
  if String.eqb name "NotAllowedError" then
    JsError "Camera access denied by user. Please allow camera access and refresh the page."
  else if String.eqb name "NotFoundError" then
    JsError "No camera devices found on this system."
  else if String.eqb name "NotSupportedError" then
    JsError "Camera access is not supported in this browser."
  else JsError ("Camera access failed: " ++ message).

Definition requestCameraPermissions (answer : PermissionAnswer) : M bool :=
  match answer with
  | Granted tracks =>
      h <- handOut tracks ;;
      stopAllTracks h ;;
      modify (with_svc (set_permissionStatus "granted")) ;;
      ret true
  | Refused name message =>
      countCall ;;
      modify (with_svc (set_permissionStatus "denied")) ;;
      throw (permissionError name message)
  end.

(** initialize().  [supported] is what checkBrowserSupport() finds,
    [answer] and [enumerated] what the permission request and
    enumerateDevices() settle with, if they are reached. *)
Definition initialize (supported : bool) (answer : PermissionAnswer)
           (enumerated : Result (list MediaDeviceInfo)) : M bool :=
  ready <- gets (fun s => isInitialized (svc s)) ;;
  if ready then ret true
  else
    try_catch
      (if negb supported then
         throw (JsError "Browser does not support required camera APIs")
       else
         requestCameraPermissions answer ;;
         discoverDevices enumerated ;;
         modify (with_svc (set_isInitialized true)) ;;
         ret true)
      (fun error =>
         handleError "initialization" error None ;;
         ret false).

Definition testCameraAccess (cameraId : string) : M bool :=
  try_catch (h <- getUserMedia ;; stopAllTracks h ;; ret true)
            (fun _ => ret false).

Definition refreshDevices (enumerated : Result (list MediaDeviceInfo))
  : M (list CameraInfo) :=
  try_catch
    (discoverDevices enumerated ;;
     gets (fun s => JSMap.values (connectedCameras (svc s))))
    (fun error => handleError "refresh" error None ;; throw error).

(** disconnectAllCameras(): every disconnectCamera call runs to its end when
    it is made (it awaits nothing), in the order of the map's keys. *)
Definition disconnectAllCameras : M unit :=
  ids <- gets (fun s => JSMap.keys (activeStreams (svc s))) ;;
  forEach disconnectCamera ids.

(** stopDeviceMonitoring().  It reads
    [navigator.mediaDevices.removeEventListener] unguarded: a TypeError where
    [navigator.mediaDevices] is undefined ([mediaDevices] tells whether it is
    defined).  Where it is defined no field changes: the listener named,
    [this.handleDeviceChange], is undefined, so nothing is removed. *)
Definition stopDeviceMonitoring (mediaDevices : bool) : M (S:=Sys) unit :=
  if mediaDevices then ret tt
  else throw (typeError "removeEventListener").

(** dispose().  disconnectAllCameras is called without being awaited: its
    disconnectCamera calls have all run when it returns its promise.  The
    two sets of registered handlers are not part of the model. *)
Definition dispose (mediaDevices : bool) : M unit :=
  disconnectAllCameras ;;
  stopDeviceMonitoring mediaDevices ;;
  modify (with_svc (fun v =>
    mkService (JSMap.clear (connectedCameras v)) (JSMap.clear (activeStreams v))
              (JSMap.clear (deviceCapabilities v)) (JSMap.clear (connectionStatus v))
              (permissionStatus v) false)).

Definition getConnectedCameras (s : Sys) : list CameraInfo :=
  flat_map (fun id => match JSMap.get (connectedCameras (svc s)) id with
                      | Some camera => [camera]
                      | None => []
                      end)
           (JSMap.keys (activeStreams (svc s))).

(** The options with which the component connects: resolution '1920x1080',
    frameRate 30. *)
Definition componentOptions : ConnectOptions :=
  mkConnectOptions (Some (1920, 1080)) (Some 30) None.

(** connectToCamera of ProductionCameraManager.jsx, up to the connection it
    obtains: the selected camera, if it is connected, is disconnected first. *)
Definition selectCamera (selected : option string) (cameraId : string) : M Connection :=
  match selected with
  | Some current =>
      connected <- gets (fun s => isConnected s current) ;;
      when connected (disconnectCamera current)
  | None => ret tt
  end ;;
  connectToCamera cameraId componentOptions.

(** *** Vocabulary of the properties *)

(** Whether the pair fits a capability object with both ranges. *)
Definition fits (capabilities : Capabilities) (w h : Z) : Prop :=
  exists cw ch,
    width capabilities = Some cw /\ height capabilities = Some ch /\
    w <= num_or (rmax cw) 1920 /\ h <= num_or (rmax ch) 1080.

(** Strictly decreasing lists of numbers. *)
Fixpoint decreasing (l : list Z) : Prop :=
  match l with
  | [] => True
  | x :: rest => match rest with
                 | [] => True
                 | y :: _ => y < x
                 end /\ decreasing rest
  end.

(** Every listed device has a capability object. *)
Definition listedHaveCapabilities (s : Sys) : Prop :=
  forall id, JSMap.has (connectedCameras (svc s)) id = true ->
             exists capabilities, JSMap.get (deviceCapabilities (svc s)) id = Some capabilities.

(** *** Scenarios *)

(** Two devices; getUserMedia always answers with one live video track. *)
Definition cam2 : MediaDeviceInfo := mkDevice "cam2" "videoinput" "Integrated Webcam".

Definition two_cameras : Sys :=
  steps [Discover (Ok [cam1; cam2]); Connect "cam1" default_options]
        (new_service webcam_world).

(** getUserMedia rejects the third call and answers the others. *)
Definition busy_once_world : World :=
  mkWorld 0 (fun n => if Nat.eqb n 2 then GumRejects "Could not start video source"
                      else GumStream [webcam_track])
          0 [] 0 [] [].

Definition two_cameras_listed : Sys :=
  steps [Discover (Ok [cam1; cam2])] (new_service busy_once_world).

End CameraOps.

(** * Lifecycle of the live frame sampler
      (src/src/services/realTimeDetection.js) *)
Module Sampler.
Import Detection.

(** processFrame(videoElement) up to its first await, that of analyzeFrame:
    the guard, the busy flag, the frame counter and the capture.  The answer
    tells whether a cycle is now in flight, waiting for the analysis. *)
Definition processFrame_begin (captured : bool) : M bool :=
  v <- gets svc ;;
  if (negb (isActive v) || isProcessing v)%bool then ret false
  else
    modify (with_svc (fun v =>
      mkService (isActive v) true (S (frameCount v)) (lastDetectionTime v)
                (alertCooldowns v))) ;;
    if captured then ret true
    else
      modify (with_svc (fun v =>
        mkService (isActive v) false (frameCount v) (lastDetectionTime v)
                  (alertCooldowns v))) ;;
      ret false.

(** The rest of processFrame, which runs when the analysis has settled. *)
Definition processFrame_end (analysis : option Results) : M unit :=
  match analysis with
  | Some results =>
      when (Nat.ltb 0 (List.length (alerts results)))
           (handleDetectionResults results)
  | None => ret tt
  end ;;
  t <- now ;;
  modify (with_svc (fun v =>
    mkService (isActive v) (isProcessing v) (frameCount v) t (alertCooldowns v))) ;;
  modify (with_svc (fun v =>
    mkService (isActive v) false (frameCount v) (lastDetectionTime v)
              (alertCooldowns v))).

(** The sampler with its detection loop.  [currentStream] tells whether the
    field is set; [detectionInterval] is the timer id the service holds;
    [timers] are the timeouts that are pending in the browser, whose ids are
    positive; [inFlight] counts the cycles waiting for their analysis. *)
Record Loop : Type := mkLoop {
  sys : Sys;
  currentStream : bool;
  detectionInterval : option nat;
  timers : list nat;
  next_timer : nat;
  inFlight : nat
}.

(** constructor() *)
Definition new_loop (w : World) : Loop :=
  mkLoop (new_service w) false None [] 1 0.

Definition with_sys (f : Sys -> Sys) (l : Loop) : Loop :=
  mkLoop (f (sys l)) (currentStream l) (detectionInterval l) (timers l)
         (next_timer l) (inFlight l).

(** [this.detectionInterval = setTimeout(...)] *)
Definition scheduleNextFrame (l : Loop) : Loop :=
  mkLoop (sys l) (currentStream l) (Some (next_timer l))
         (timers l ++ [next_timer l])%list (S (next_timer l)) (inFlight l).

Definition clearTimeout (id : nat) (pending : list nat) : list nat :=
  filter (fun t => negb (Nat.eqb t id)) pending.

(** startDetection(videoElement); [srcObject] tells whether the element is
    there and has a stream. *)
Definition startDetection (srcObject : bool) (l : Loop) : Result unit * Loop :=
  if isActive (svc (sys l)) then (Ok tt, l)
  else if negb srcObject then
    (Throw (JsError "No video stream available for detection"), l)
  else
    (Ok tt,
     scheduleNextFrame
       (mkLoop (with_svc (fun v =>
                  mkService true (isProcessing v) (frameCount v) (lastDetectionTime v)
                            (alertCooldowns v)) (sys l))
               true (detectionInterval l) (timers l) (next_timer l) (inFlight l))).

(** stopDetection().  [if (this.detectionInterval)] is the truthiness of the
    id held. *)
Definition stopDetection (l : Loop) : Loop :=
  if negb (isActive (svc (sys l))) then l
  else
    let cleared :=
      match detectionInterval l with
      | Some id =>
          if Nat.eqb id 0 then (Some id, timers l)
          else (None, clearTimeout id (timers l))
      | None => (None, timers l)
      end in
    mkLoop (with_svc (fun v =>
              mkService false false 0 (lastDetectionTime v) (alertCooldowns v)) (sys l))
           false (fst cleared) (snd cleared) (next_timer l) (inFlight l).

(** dispose() *)
Definition dispose (l : Loop) : Loop :=
  with_sys (with_svc (fun v => set_alertCooldowns (JSMap.clear (alertCooldowns v)) v))
           (stopDetection l).

(** The timeout [id] runs, if it is pending: the callback of
    scheduleNextFrame.  processFrame is called without being awaited, so
    that only its part before the first await has run when the next timeout
    is set. *)
Definition fire (id : nat) (captured : bool) (l : Loop) : Loop :=
  if existsb (Nat.eqb id) (timers l) then
    let pending := clearTimeout id (timers l) in
    if isActive (svc (sys l)) then
      let begun := processFrame_begin captured (sys l) in
      scheduleNextFrame
        (mkLoop (snd begun) (currentStream l) (detectionInterval l) pending
                (next_timer l)
                (match fst begun with
                 | Ok true => S (inFlight l)
                 | _ => inFlight l
                 end))
    else
      mkLoop (sys l) (currentStream l) (detectionInterval l) pending
             (next_timer l) (inFlight l)
  else l.

(** The analysis of a cycle in flight settles, and the rest of its
    processFrame runs, the store answering each insert when it is made. *)
Definition settle (analysis : option Results) (l : Loop) : Loop :=
  match inFlight l with
  | O => l
  | S n =>
      mkLoop (exec (processFrame_end analysis) (sys l)) (currentStream l)
             (detectionInterval l) (timers l) (next_timer l) n
  end.

Inductive Event : Type :=
| Start (srcObject : bool)
| Stop
| Dispose
| Fire (id : nat) (captured : bool)
| Settled (analysis : option Results)
| Pass (dt : Z).

Definition react (e : Event) (l : Loop) : Loop :=
  match e with
  | Start srcObject => snd (startDetection srcObject l)
  | Stop => stopDetection l
  | Dispose => dispose l
  | Fire id captured => fire id captured l
  | Settled analysis => settle analysis l
  | Pass dt => with_sys (fun s => at_time (clock (world s) + dt) s) l
  end.

Definition play (events : list Event) (l : Loop) : Loop :=
  fold_left (fun l e => react e l) events l.

(** *** Vocabulary of the properties *)

(** While the sampler is active exactly one timeout is pending, the one
    whose id it holds; while it is inactive none is. *)
Definition oneLoop (l : Loop) : Prop :=
  (1 <= next_timer l)%nat /\
  if isActive (svc (sys l)) then
    exists id, detectionInterval l = Some id /\ timers l = [id] /\
               (1 <= id < next_timer l)%nat /\ currentStream l = true
  else
    detectionInterval l = None /\ timers l = [] /\ currentStream l = false.

(** *** Scenarios *)

(** A started sampler over a healthy store. *)
Definition started : Loop := play [Start true] (new_loop healthy_store).

End Sampler.


(** * The sampling cycle of the live frame sampler, await by await
      (src/src/services/realTimeDetection.js, lines 87-112 and 153-201)

    processFrame awaits the analysis, and handleDetectionResults awaits
    each insert: between the call of an insert and the code after it, other
    code of the page runs.  Here a cycle is cut at these awaits. *)
Module Cycle.
Import Detection Sampler.

(** An insert is called: the store receives call number [store_calls], and
    the promise is awaited. *)
Definition issue : M nat :=
  fun s =>
    let w := world s in
    (Ok (store_calls w),
     mkSys (svc s) (mkWorld (clock w) (store w) (S (store_calls w))
                            (db_alerts w) (db_logs w))).

(** The insert made as call number [call] settles: it took its latency and
    either added the row or throws the store's error. *)
Definition settled (call : nat) (add : World -> World) : M unit :=
  fun s =>
    let w := world s in
    let o := store w call in
    let w1 := mkWorld (clock w + latency o) (store w) (store_calls w)
                      (db_alerts w) (db_logs w) in
    match rejected o with
    | Some m => (Throw (JsError m), mkSys (svc s) w1)
    | None => (Ok tt, mkSys (svc s) (add w1))
    end.

Definition addAlert (row : AlertData) (w : World) : World :=
  mkWorld (clock w) (store w) (store_calls w) (db_alerts w ++ [row])%list (db_logs w).

Definition addLog (entry : LogEntry) (w : World) : World :=
  mkWorld (clock w) (store w) (store_calls w) (db_alerts w) (db_logs w ++ [entry])%list.

(** Where a cycle that has its analysis is suspended: in
    handleDetectionResults at [await createAlert] (line 179) with the row it
    built and the time [t] of its cooldown check, at [await createSystemLog]
    (line 185), or in processFrame at [await handleDetectionResults]
    (line 103), the handler having returned. *)
Inductive Handler : Type :=
| AwaitAlert (results : Results) (alert : Candidate) (t : Z) (row : AlertData)
             (call : nat) (rest : list Candidate)
| AwaitLog (results : Results) (entry : LogEntry) (call : nat) (rest : list Candidate)
| Leaving.

(** The loop of handleDetectionResults from the head of an iteration to the
    next insert it calls: candidates in cooldown are skipped, and for the
    first that is not the row is built and createAlert is called.  [None]:
    the loop has ended. *)
Fixpoint advance (results : Results) (pending : list Candidate) : M (option Handler) :=
  match pending with
  | [] => ret None
  | alert :: rest =>
      let key := alertKey alert in
      last <- gets (fun s => lastAlertTime s key) ;;
      t <- now ;;
      if Z.ltb (t - last) cooldownPeriod then
        advance results rest
      else
        frame <- gets (fun s => frameCount (svc s)) ;;
        call <- issue ;;
        ret (Some (AwaitAlert results alert t (makeAlertData alert results t frame)
                              call rest))
  end.

(** The handler returned, or its catch block ran: processFrame goes on when
    the promise of handleDetectionResults has settled. *)
Definition leave (next : option Handler) : Handler :=
  match next with
  | Some h => h
  | None => Leaving
  end.

(** The end of processFrame: lines 106-111. *)
Definition finish : M (option Handler) :=
  t <- now ;;
  modify (with_svc (fun v =>
    mkService (isActive v) (isProcessing v) (frameCount v) t (alertCooldowns v))) ;;
  modify (with_svc (fun v =>
    mkService (isActive v) false (frameCount v) (lastDetectionTime v)
              (alertCooldowns v))) ;;
  ret None.

(** processFrame when the analysis has settled, up to its next await. *)
Definition analysed (analysis : option Results) : M (option Handler) :=
  match analysis with
  | Some results =>
      if Nat.ltb 0 (List.length (alerts results)) then
        next <- advance results (alerts results) ;;
        ret (Some (leave next))
      else finish
  | None => finish
  end.

(** A suspended cycle goes on, up to its next await.  [None]: processFrame
    has returned. *)
Definition resume (h : Handler) : M (option Handler) :=
  match h with
  | AwaitAlert results alert t row call rest =>
      try_catch
        (settled call (addAlert row) ;;
         modify (with_svc (fun v =>
           set_alertCooldowns (JSMap.set (alertCooldowns v) (alertKey alert) t) v)) ;;
         frame <- gets (fun s => frameCount (svc s)) ;;
         call' <- issue ;;
         ret (Some (AwaitLog results (makeLogEntry alert results frame) call' rest)))
        (fun _ => ret (Some Leaving))
  | AwaitLog results entry call rest =>
      try_catch
        (settled call (addLog entry) ;;
         next <- advance results rest ;;
         ret (Some (leave next)))
        (fun _ => ret (Some Leaving))
  | Leaving => finish
  end.

(** Whether the store accepts the row of this suspended insert. *)
Definition persists (s : Sys) (h : Handler) : list (Candidate * Z) :=
  match h with
  | AwaitAlert _ alert t _ call _ =>
      match rejected (store (world s) call) with
      | None => [(alert, t)]
      | Some _ => []
      end
  | _ => []
  end.

(** The sampler with the cycles that have their analysis.  [accepted]
    records, in order, the candidates whose row the store accepted, each
    with the time of its cooldown check. *)
Record Fine : Type := mkFine {
  loop : Loop;
  handlers : list Handler;
  accepted : list (Candidate * Z)
}.


Definition with_loop (g : Loop -> Loop) (f : Fine) : Fine :=
  mkFine (g (loop f)) (handlers f) (accepted f).

Definition set_sys (s : Sys) (l : Loop) : Loop :=
  mkLoop s (currentStream l) (detectionInterval l) (timers l) (next_timer l) (inFlight l).

Definition continued (r : Result (option Handler)) : list Handler :=
  match r with
  | Ok (Some h) => [h]
  | _ => []
  end.

Inductive Event : Type :=
| Start (srcObject : bool)
| Stop
| Dispose
| Fire (id : nat) (captured : bool)
| Analysed (analysis : option Results)
| StoreSettled (n : nat)
| Pass (dt : Z).

Definition react (e : Event) (f : Fine) : Fine :=
  match e with
  | Start srcObject => with_loop (fun l => snd (startDetection srcObject l)) f
  | Stop => with_loop stopDetection f
  | Dispose => with_loop dispose f
  | Fire id captured => with_loop (fire id captured) f
  | Analysed analysis =>
      let l := loop f in
      match inFlight l with
      | O => f
      | S n =>
          let after := analysed analysis (sys l) in
          mkFine (mkLoop (snd after) (currentStream l) (detectionInterval l) (timers l)
                         (next_timer l) n)
                 (handlers f ++ continued (fst after))%list
                 (accepted f)
      end
  | StoreSettled n =>
      match nth_error (handlers f) n with
      | None => f
      | Some h =>
          let after := resume h (sys (loop f)) in
          mkFine (set_sys (snd after) (loop f))
                 (firstn n (handlers f) ++ continued (fst after)
                  ++ skipn (S n) (handlers f))%list
                 (accepted f ++ persists (sys (loop f)) h)%list
      end
  | Pass dt => with_loop (with_sys (fun s => at_time (clock (world s) + dt) s)) f
  end.

Definition play (events : list Event) (f : Fine) : Fine :=
  fold_left (fun f e => react e f) events f.

(** A suspended cycle run to its end with nothing in between: every
    insert settles as soon as it is called. *)
Fixpoint settleAll (fuel : nat) (h : option Handler) : M unit :=
  match h, fuel with
  | None, _ => ret tt
  | Some _, O => ret tt
  | Some task, S n => next <- resume task ;; settleAll n next
  end.

(** *** Vocabulary of the properties *)







(** *** Scenarios *)



End Cycle.


(** * The camera lifecycle manager, await by await
      (src/src/services/productionCameraService.js)

    connectToCamera awaits getUserMedia; discoverDevices awaits
    enumerateDevices and then, for each device, processDevice, which awaits
    getDeviceCapabilities, which awaits getUserMedia.  Between the call of
    one of these and the code after its await, other calls of the service
    run: a second connect, a discovery pass started by a 'devicechange'
    event, which is not awaited (lines 488-491).  Here the calls are cut at
    their awaits, and the pieces of several calls can be run in any
    order. *)
Module CameraAsync.
Import Camera.

(** The catch block of connectToCamera (lines 324-330). *)
Definition connectFailed (cameraId : string) (error : Thrown) : M Connection :=
  setStatus cameraId "failed" ;;
  notifyStatusChange cameraId "failed" ;;
  handleError "connection" error (Some cameraId) ;;
  throw error.

(** A call suspended at an await, with what it holds in its local
    variables.
    - [Connecting]: connectToCamera at [await getUserMedia] (line 273);
      [camera] is the identity of the table entry read at line 264,
      [answer] what getUserMedia settles with;
    - [Enumerating]: discoverDevices at [await enumerateDevices] (line 98);
    - [Probing]: discoverDevices within processDevice within
      getDeviceCapabilities, at [await getUserMedia] (line 156);
    - [Probed]: getDeviceCapabilities has returned and processDevice goes
      on from line 126;
    - [Looping]: processDevice has returned and the loop of discoverDevices
      goes on (line 108). *)
Inductive Task : Type :=
| Connecting (cameraId : string) (constraints : Constraints) (camera : option nat)
             (answer : Result nat)
| Enumerating (enumerated : Result (list MediaDeviceInfo))
| Probing (device : MediaDeviceInfo) (name : string) (answer : Result nat)
          (rest : list MediaDeviceInfo)
| Probed (device : MediaDeviceInfo) (name : string) (capabilities : Capabilities)
         (rest : list MediaDeviceInfo)
| Looping (rest : list MediaDeviceInfo).

(** *** connectToCamera *)

(** connectToCamera up to its await: it returns at once (a connection that
    exists, or an error thrown before getUserMedia was called), or it has
    called getUserMedia and is suspended. *)
Definition connect_begin (camera : option nat) (cameraId : string)
           (options : ConnectOptions) : M (Connection + Task) :=
  try_catch
    (known <- gets (fun s => JSMap.has (connectedCameras (svc s)) cameraId) ;;
     if negb known then
       throw (JsError ("Camera " ++ cameraId ++ " not found"))
     else
       existing <- gets (fun s => JSMap.get (activeStreams (svc s)) cameraId) ;;
       match existing with
       | Some c => ret (inl c)
       | None =>
           setStatus cameraId "connecting" ;;
           notifyStatusChange cameraId "connecting" ;;
           capabilities <- gets (fun s => JSMap.get (deviceCapabilities (svc s)) cameraId) ;;
           constraints <- lift (buildConstraints cameraId options capabilities) ;;
           answer <- settle getUserMedia ;;
           ret (inr (Connecting cameraId constraints camera answer))
       end)
    (fun error => c <- connectFailed cameraId error ;; ret (inl c)).

(** connectToCamera after its await.  [camera.status = 'online'] and the two
    assignments after it go to the object read before the await: the table
    shows them if it still holds that object ([sameCamera]). *)
Definition connect_end (sameCamera : bool) (cameraId : string)
           (constraints : Constraints) (answer : Result nat) : M Connection :=
  try_catch
    (h <- lift answer ;;
     tracks <- getTracks h ;;
     if Nat.eqb (List.length tracks) 0 then
       throw (JsError "Failed to get valid media stream")
     else
       match firstVideo tracks 0 with
       | None => throw (JsError "No video track in stream")
       | Some (i, track) =>
           let actualSettings := track_settings track in
           t <- now ;;
           r <- newRef ;;
           let connection :=
             mkConnection r cameraId h i actualSettings constraints t true in
           modify (with_svc (fun v =>
             set_activeStreams (JSMap.set (activeStreams v) cameraId connection) v)) ;;
           setStatus cameraId "connected" ;;
           when sameCamera (updateCamera cameraId (markOnline t actualSettings)) ;;
           notifyStatusChange cameraId "connected" ;;
           ret connection
       end)
    (connectFailed cameraId).

(** *** discoverDevices *)

(** processDevice(device) up to the await in getDeviceCapabilities: the name
    is chosen and getUserMedia is called. *)
Definition probe_begin (device : MediaDeviceInfo) (rest : list MediaDeviceInfo) : M Task :=
  n <- gets (fun s => JSMap.size (connectedCameras (svc s))) ;;
  let name := if String.eqb (label device) "" then "Camera " ++ show_nat (n + 1)
              else label device in
  answer <- settle getUserMedia ;;
  ret (Probing device name answer rest).

(** The loop of discoverDevices at the head of an iteration.  [None]: the
    loop has ended and discoverDevices returns. *)
Definition loop_next (devices : list MediaDeviceInfo) : M (option Task) :=
  match devices with
  | [] => ret None
  | device :: rest => t <- probe_begin device rest ;; ret (Some t)
  end.

(** getDeviceCapabilities after its await. *)
Definition probe_end (answer : Result nat) : M Capabilities :=
  try_catch
    (h <- lift answer ;;
     tracks <- getTracks h ;;
     match firstVideo tracks 0 with
     | None => throw (typeError "getCapabilities")
     | Some (_, track) =>
         let capabilities := track_capabilities track in
         let current := track_settings track in
         stopAllTracks h ;;
         ret (mkCapabilities (width capabilities) (height capabilities)
                             (frameRate capabilities) (facingMode capabilities)
                             (torch capabilities) (zoom capabilities)
                             (focusMode capabilities) (whiteBalanceMode capabilities)
                             (Some current))
     end)
    (fun _ => ret no_capabilities).

(** processDevice once getDeviceCapabilities has returned (lines 128-146). *)
Definition register (device : MediaDeviceInfo) (name : string)
           (capabilities : Capabilities) : M unit :=
  let id := deviceId device in
  t <- now ;;
  let cameraInfo :=
    mkCameraInfo id name "available" capabilities
                 (extractResolutions capabilities)
                 (extractFrameRates capabilities)
                 (extractFeatures capabilities)
                 (detectConnectionType device)
                 t None None None in
  modify (with_svc (fun v =>
    set_connectionStatus (JSMap.set (connectionStatus v) id "disconnected")
      (set_deviceCapabilities (JSMap.set (deviceCapabilities v) id capabilities)
         (set_connectedCameras (JSMap.set (connectedCameras v) id cameraInfo) v)))).

(** discoverDevices when enumerateDevices has answered: lines 99-108. *)
Definition enumerated_end (devices : list MediaDeviceInfo) : M (option Task) :=
  let videoDevices := filter (fun d => String.eqb (kind d) "videoinput") devices in
  modify (with_svc (fun v =>
    set_deviceCapabilities (JSMap.clear (deviceCapabilities v))
      (set_connectedCameras (JSMap.clear (connectedCameras v)) v))) ;;
  loop_next videoDevices.

(** *** The service with its suspended calls

    [connections] holds every Connection object made so far, in order;
    [objects] gives the identity of the object each table entry holds: a
    new one at every [connectedCameras.set] of processDevice. *)
Record Async : Type := mkAsync {
  sys : Sys;
  tasks : list Task;
  connections : list Connection;
  objects : JSMap.t nat;
  next_object : nat
}.

Definition new_async (w : World) : Async :=
  mkAsync (new_service w) [] [] JSMap.empty 0.

Definition set_sys (s : Sys) (a : Async) : Async :=
  mkAsync s (tasks a) (connections a) (objects a) (next_object a).

Definition made (r : Result Connection) : list Connection :=
  match r with
  | Ok c => [c]
  | Throw _ => []
  end.

Definition suspended (r : Result (option Task)) : option Task :=
  match r with
  | Ok next => next
  | Throw _ => None
  end.

Definition sameObject (camera current : option nat) : bool :=
  match camera, current with
  | Some o, Some o' => Nat.eqb o o'
  | _, _ => false
  end.

(** A suspended call goes on, up to its next await.  The answer is the
    call as it is suspended then, [None] when it has returned or thrown. *)
Definition resume (t : Task) (a : Async) : option Task * Async :=
  match t with
  | Connecting cameraId constraints camera answer =>
      let same := sameObject camera (JSMap.get (objects a) cameraId) in
      let after := connect_end same cameraId constraints answer (sys a) in
      (None,
       mkAsync (snd after) (tasks a) (connections a ++ made (fst after))%list
               (objects a) (next_object a))
  | Enumerating (Throw _) => (None, a)
  | Enumerating (Ok devices) =>
      let after := enumerated_end devices (sys a) in
      (suspended (fst after),
       mkAsync (snd after) (tasks a) (connections a) (JSMap.clear (objects a))
               (next_object a))
  | Probing device name answer rest =>
      let after := probe_end answer (sys a) in
      (Some (Probed device name
                    (match fst after with
                     | Ok capabilities => capabilities
                     | Throw _ => no_capabilities
                     end) rest),
       set_sys (snd after) a)
  | Probed device name capabilities rest =>
      (Some (Looping rest),
       mkAsync (exec (register device name capabilities) (sys a)) (tasks a)
               (connections a)
               (JSMap.set (objects a) (deviceId device) (next_object a))
               (S (next_object a)))
  | Looping rest =>
      let after := loop_next rest (sys a) in
      (suspended (fst after), set_sys (snd after) a)
  end.

Definition step_of (next : option Task) : list Task :=
  match next with
  | Some t => [t]
  | None => []
  end.

(** Whether the video track of the connection is live. *)
Definition videoLive (s : Sys) (c : Connection) : bool :=
  match nth_error (nth (stream c) (streams (world s)) []) (videoTrack c) with
  | Some t => live t
  | None => false
  end.

(** What happens, one thing at a time:
    - a call of connectToCamera, discoverDevices or disconnectCamera (which
      awaits nothing and runs to its end);
    - the [n]-th suspended call goes on;
    - the media layer ends the video track of the connection with the given
      identity, if it is live, and fires 'ended' on it;
    - time passes. *)
Inductive Event : Type :=
| CallConnect (cameraId : string) (options : ConnectOptions)
| CallDiscover (enumerated : Result (list MediaDeviceInfo))
| CallDisconnect (cameraId : string)
| Resume (n : nat)
| Ended (ref : nat)
| Tick (dt : Z).

Definition react (e : Event) (a : Async) : Async :=
  match e with
  | CallConnect cameraId options =>
      let after := connect_begin (JSMap.get (objects a) cameraId) cameraId options (sys a) in
      mkAsync (snd after)
              (tasks a ++ match fst after with
                          | Ok (inr t) => [t]
                          | _ => []
                          end)%list
              (connections a) (objects a) (next_object a)
  | CallDiscover enumerated =>
      mkAsync (sys a) (tasks a ++ [Enumerating enumerated])%list (connections a)
              (objects a) (next_object a)
  | CallDisconnect cameraId => set_sys (exec (disconnectCamera cameraId) (sys a)) a
  | Resume n =>
      match nth_error (tasks a) n with
      | None => a
      | Some t =>
          let after := resume t a in
          mkAsync (sys (snd after))
                  (firstn n (tasks a) ++ step_of (fst after) ++ skipn (S n) (tasks a))%list
                  (connections (snd after)) (objects (snd after))
                  (next_object (snd after))
      end
  | Ended ref =>
      match find (fun c => Nat.eqb (conn_ref c) ref) (connections a) with
      | Some c => if videoLive (sys a) c then set_sys (exec (trackEnded c) (sys a)) a else a
      | None => a
      end
  | Tick dt => set_sys (step (Camera.Tick dt) (sys a)) a
  end.

Definition play (events : list Event) (a : Async) : Async :=
  fold_left (fun a e => react e a) events a.

(** *** Vocabulary of the properties *)

(** The camera ids of the suspended connects. *)
Definition connecting (ts : list Task) : list string :=
  flat_map (fun t => match t with
                     | Connecting cameraId _ _ _ => [cameraId]
                     | _ => []
                     end) ts.

(** No connectToCamera is called for a camera while a connect for that
    camera is suspended. *)
Fixpoint serialConnects (events : list Event) (a : Async) : Prop :=
  match events with
  | [] => True
  | e :: rest =>
      match e with
      | CallConnect cameraId _ => ~ In cameraId (connecting (tasks a))
      | _ => True
      end /\ serialConnects rest (react e a)
  end.

(** Whether the suspended call is a discovery pass. *)
Definition isPass (t : Task) : bool :=
  match t with
  | Connecting _ _ _ _ => false
  | _ => true
  end.

(** Nothing that had stopped is live again: the streams there were are
    still there, and a video track that is live was live. *)
Definition noRevival (s s' : Sys) : Prop :=
  (List.length (streams (world s)) <= List.length (streams (world s')))%nat /\
  forall c, (stream c < List.length (streams (world s)))%nat ->
            videoLive s' c = true -> videoLive s c = true.

(** What the connections and the suspended connects keep to when connects
    do not overlap. *)
Definition orderly (a : Async) : Prop :=
  (forall c, In c (connections a) -> videoLive (sys a) c = true ->
             JSMap.get (activeStreams (svc (sys a))) (conn_cameraId c) = Some c) /\
  (forall id c, JSMap.get (activeStreams (svc (sys a))) id = Some c ->
                In c (connections a) /\ conn_cameraId c = id) /\
  (forall c, In c (connections a) ->
             (stream c < List.length (streams (world (sys a))))%nat) /\
  (forall id k camera h, In (Connecting id k camera (Ok h)) (tasks a) ->
                         (h < List.length (streams (world (sys a))))%nat) /\
  (forall id, In id (connecting (tasks a)) ->
              JSMap.get (activeStreams (svc (sys a))) id = None) /\
  NoDup (connecting (tasks a)).

(** Every entry of the device table has an identity. *)
Definition identified (a : Async) : Prop :=
  forall id, JSMap.has (connectedCameras (svc (sys a))) id = true ->
             JSMap.has (objects a) id = true.







Definition videoDevices (devices : list MediaDeviceInfo) : list MediaDeviceInfo :=
  filter (fun d => String.eqb (kind d) "videoinput") devices.



(** The events of a discovery pass during which nothing else runs, when
    [n] calls are suspended at its start and enumerateDevices lists
    [devices]. *)
Definition passAlone (n : nat) (devices : list MediaDeviceInfo) : list Event :=
  CallDiscover (Ok devices)
  :: repeat (Resume n) (1 + 3 * List.length (videoInputs devices)).

(** *** Scenarios *)

(** cam1 is discovered and connected. *)
Definition connected_once : list Event :=
  passAlone 0 [cam1] ++ [CallConnect "cam1" default_options; Resume 0].

(** ... and connectToCamera is called for it again. *)
Definition connect_in_turn : list Event :=
  connected_once ++ [CallConnect "cam1" default_options; Resume 0].

(** cam1 is discovered; then connectToCamera is called twice for it before
    getUserMedia has answered the first call, and both calls go on. *)
Definition connect_twice_at_once : list Event :=
  passAlone 0 [cam1]
  ++ [CallConnect "cam1" default_options; CallConnect "cam1" default_options;
      Resume 0; Resume 0].

(** cam1 is discovered and connected; a later pass does not list it; then
    connectToCamera is called for it. *)
Definition connect_unlisted : list Event :=
  connected_once ++ passAlone 0 [] ++ [CallConnect "cam1" default_options].




End CameraAsync.

(** * Properties of the map operations *)
Module JSMapFacts.
Section WithValue.
Context {V : Type}.
Implicit Types (m : JSMap.t V) (k : string) (v : V).

Lemma get_set m k v k' :
  JSMap.get (JSMap.set m k v) k' = if String.eqb k k' then Some v else JSMap.get m k'.
Proof.
  induction m as [| [k0 v0] rest IH]; cbn.
  - reflexivity.
  - destruct (String.eqb_spec k0 k) as [-> | Hne]; cbn.
    + destruct (String.eqb k k'); reflexivity.
    + rewrite IH. destruct (String.eqb_spec k0 k') as [-> | Hne'].
      * destruct (String.eqb_spec k k'); [congruence | reflexivity].
      * reflexivity.
Qed.

Lemma get_set_same m k v : JSMap.get (JSMap.set m k v) k = Some v.
Proof. rewrite get_set, String.eqb_refl. reflexivity. Qed.

Lemma get_set_other m k v k' :
  k <> k' -> JSMap.get (JSMap.set m k v) k' = JSMap.get m k'.
Proof.
  intros Hne. rewrite get_set. destruct (String.eqb_spec k k'); [contradiction | reflexivity].
Qed.

Lemma get_delete m k k' :
  JSMap.get (JSMap.delete m k) k' = if String.eqb k k' then None else JSMap.get m k'.
Proof.
  induction m as [| [k0 v0] rest IH]; cbn.
  - destruct (String.eqb k k'); reflexivity.
  - destruct (String.eqb_spec k0 k) as [-> | Hne]; cbn.
    + rewrite IH. destruct (String.eqb k k'); reflexivity.
    + rewrite IH. destruct (String.eqb_spec k0 k') as [-> | Hne'].
      * destruct (String.eqb_spec k k'); [congruence | reflexivity].
      * reflexivity.
Qed.

Lemma get_delete_same m k : JSMap.get (JSMap.delete m k) k = None.
Proof. rewrite get_delete, String.eqb_refl. reflexivity. Qed.

Lemma has_set m k v k' :
  JSMap.has (JSMap.set m k v) k' = (String.eqb k k' || JSMap.has m k')%bool.
Proof.
  unfold JSMap.has. rewrite get_set. destruct (String.eqb k k'); reflexivity.
Qed.

Lemma has_In m k : JSMap.has m k = true <-> In k (JSMap.keys m).
Proof.
  unfold JSMap.has, JSMap.keys.
  induction m as [| [k0 v0] rest IH]; cbn.
  - split; [discriminate | contradiction].
  - destruct (String.eqb_spec k0 k) as [-> | Hne].
    + split; auto.
    + rewrite IH. split; [auto | intros [H | H]; [contradiction | exact H]].
Qed.

Lemma keys_set_In m k v k' :
  In k' (JSMap.keys (JSMap.set m k v)) <-> k' = k \/ In k' (JSMap.keys m).
Proof.
  rewrite <- !has_In, has_set.
  destruct (String.eqb_spec k k') as [-> | Hne]; cbn.
  - split; auto.
  - split; [auto | intros [H | H]; [congruence | exact H]].
Qed.

Lemma keys_delete_In m k k' :
  In k' (JSMap.keys (JSMap.delete m k)) <-> k' <> k /\ In k' (JSMap.keys m).
Proof.
  rewrite <- !has_In. unfold JSMap.has. rewrite get_delete.
  destruct (String.eqb_spec k k') as [-> | Hne].
  - split; [discriminate | intros [H _]; congruence].
  - split; [intros H; split; [congruence | exact H] | intros [_ H]; exact H].
Qed.

(** No key is bound twice: [set] and [delete] keep it so. *)
Lemma NoDup_keys_set m k v :
  NoDup (JSMap.keys m) -> NoDup (JSMap.keys (JSMap.set m k v)).
Proof.
  induction m as [| [k0 v0] rest IH]; cbn; intros Hnd.
  - constructor; [intros [] | constructor].
  - inversion Hnd as [| ? ? Hnotin Hrest]; subst.
    destruct (String.eqb_spec k0 k) as [-> | Hne]; cbn.
    + constructor; assumption.
    + constructor; [| apply IH; exact Hrest].
      fold (JSMap.keys (JSMap.set rest k v)). rewrite keys_set_In.
      intros [H | H]; [congruence | contradiction].
Qed.

Lemma NoDup_keys_delete m k :
  NoDup (JSMap.keys m) -> NoDup (JSMap.keys (JSMap.delete m k)).
Proof.
  induction m as [| [k0 v0] rest IH]; cbn; intros Hnd.
  - constructor.
  - inversion Hnd as [| ? ? Hnotin Hrest]; subst.
    destruct (String.eqb_spec k0 k) as [-> | Hne]; cbn.
    + apply IH; exact Hrest.
    + constructor; [| apply IH; exact Hrest].
      fold (JSMap.keys (JSMap.delete rest k)). rewrite keys_delete_In.
      intros [_ H]; contradiction.
Qed.

End WithValue.
End JSMapFacts.

(** * Properties of the backend client *)
Module BackendFacts.
Import Backend.

Lemma untouched_refl s : untouched s s.
Proof. repeat split. Qed.

Lemma untouched_trans s1 s2 s3 :
  untouched s1 s2 -> untouched s2 s3 -> untouched s1 s3.
Proof.
  unfold untouched. intros (a & b & c & d) (a' & b' & c' & d').
  repeat split; congruence.
Qed.

Lemma attemptFetch_spec s r s1 :
  attemptFetch s = (r, s1) ->
  untouched s s1 /\
  net_calls (world s1) = S (net_calls (world s)) /\
  sleeps (world s1) = sleeps (world s) /\
  clock (world s1) = clock (world s) /\
  (is401 (net (world s) (net_calls (world s))) = true ->
     r = Throw authError /\ token (svc s1) = None /\ storedToken (world s1) = None).
Proof.
  unfold attemptFetch, bind, fetch, handleUnauthorized, modify, throw, ret, is401.
  destruct s as [v w]; cbn [world svc with_world with_svc].
  destruct (net w (net_calls w)) as [m | status txt body].
  - intros H; inversion H; subst; clear H. cbn. repeat split; discriminate.
  - destruct (Nat.eqb status 401) eqn:E401.
    + intros H; inversion H; subst; clear H. cbn. repeat split.
    + destruct (negb (response_ok status)).
      * intros H; inversion H; subst; clear H. cbn. repeat split; discriminate.
      * destruct body; intros H; inversion H; subst; clear H; cbn;
          repeat split; discriminate.
Qed.

Lemma shouldRetry_authError : shouldRetry authError = false.
Proof. reflexivity. Qed.

Lemma retryLoop_step left attempt lastError s :
  retryLoop (S left) attempt lastError s =
  match attemptFetch s with
  | (Ok d, s1) => (Ok d, s1)
  | (Throw error, s1) =>
      if (Nat.ltb attempt maxRetries && shouldRetry error)%bool
      then retryLoop left (S attempt) error (exec (sleep (backoff attempt)) s1)
      else (Throw error, s1)
  end.
Proof.
  cbn [retryLoop]. unfold try_catch.
  destruct (attemptFetch s) as [[d | error] s1]; [reflexivity |].
  destruct (Nat.ltb attempt maxRetries && shouldRetry error)%bool; reflexivity.
Qed.

Lemma sleep_spec ms s :
  untouched s (exec (sleep ms) s) /\
  net_calls (world (exec (sleep ms) s)) = net_calls (world s) /\
  token (svc (exec (sleep ms) s)) = token (svc s) /\
  sleeps (world (exec (sleep ms) s)) = (sleeps (world s) ++ [ms])%list.
Proof. destruct s as [v w]; cbn. repeat split. Qed.

Lemma retryLoop_spec left :
  forall attempt lastError s r s',
    retryLoop left attempt lastError s = (r, s') ->
    untouched s s' /\
    (net_calls (world s) <= net_calls (world s'))%nat /\
    forall i,
      (net_calls (world s) <= i < net_calls (world s'))%nat ->
      is401 (net (world s) i) = true ->
      r = Throw authError /\ token (svc s') = None /\
      storedToken (world s') = None /\ S i = net_calls (world s').
Proof.
  induction left as [| left IH]; intros attempt lastError s r s' H.
  - cbn in H. inversion H; subst. split; [apply untouched_refl |].
    split; [lia |]. intros i Hi. lia.
  - rewrite retryLoop_step in H.
    destruct (attemptFetch s) as [[d | error] s1] eqn:Hfetch;
      apply attemptFetch_spec in Hfetch;
      destruct Hfetch as (Hkeep & Hcalls & _ & _ & H401).
    + inversion H; subst; clear H.
      split; [exact Hkeep |]. split; [lia |].
      intros i Hi Hi401. assert (i = net_calls (world s)) by lia; subst i.
      destruct (H401 Hi401) as [Habs _]. discriminate.
    + destruct (Nat.ltb attempt maxRetries && shouldRetry error)%bool eqn:Hretry.
      * pose proof (sleep_spec (backoff attempt) s1) as (Hk2 & Hc2 & _ & _).
        apply IH in H. destruct H as (Hk3 & Hc3 & Hrest).
        split; [eauto using untouched_trans |]. split; [lia |].
        intros i Hi Hi401.
        destruct (Nat.eq_dec i (net_calls (world s))) as [-> | Hne].
        -- destruct (H401 Hi401) as [Herr _]. inversion Herr; subst error.
           rewrite shouldRetry_authError, andb_false_r in Hretry. discriminate.
        -- apply Hrest; [lia |].
           destruct Hk2 as (_ & _ & _ & Hn2). destruct Hkeep as (_ & _ & _ & Hn1).
           rewrite Hn2, Hn1. exact Hi401.
      * inversion H; subst; clear H.
        split; [exact Hkeep |]. split; [lia |].
        intros i Hi Hi401. assert (i = net_calls (world s)) by lia; subst i.
        destruct (H401 Hi401) as (Herr & Htok & Hstored).
        repeat split; auto.
Qed.

Lemma retryLoop_fetches left attempt lastError s :
  (net_calls (world s) < net_calls (world (exec (retryLoop (S left) attempt lastError) s)))%nat.
Proof.
  unfold exec. rewrite retryLoop_step.
  destruct (attemptFetch s) as [[d | error] s1] eqn:Hfetch;
    apply attemptFetch_spec in Hfetch;
    destruct Hfetch as (_ & Hcalls & _).
  - cbn. lia.
  - destruct (Nat.ltb attempt maxRetries && shouldRetry error)%bool.
    + destruct (retryLoop left (S attempt) error (exec (sleep (backoff attempt)) s1))
        as [r s2] eqn:Hloop.
      apply retryLoop_spec in Hloop. destruct Hloop as (_ & Hle & _).
      pose proof (sleep_spec (backoff attempt) s1) as (_ & Hc & _).
      cbn. lia.
    + cbn. lia.
Qed.

(** The cache check never throws and touches only the cache and the two
    cache counters. *)
Lemma checkCache_spec key options s :
  exists hit s1,
    checkCache key options s = (Ok hit, s1) /\
    world s1 = world s /\
    token (svc s1) = token (svc s) /\
    circuitBreaker (svc s1) = circuitBreaker (svc s).
Proof.
  unfold checkCache. destruct (isRead options).
  - unfold getFromCache, bind, gets, now, modify, ret, bump_hits, bump_misses.
    destruct s as [v w]; cbn [svc world].
    destruct (JSMap.get (cache v) key) as [cached |]; cbn.
    + destruct (Z.ltb (expires cached) (clock w)); cbn.
      * eexists _, _; repeat split.
      * destruct (truthy (data cached)); cbn; eexists _, _; repeat split.
    + eexists _, _; repeat split.
  - eexists _, _; repeat split.
Qed.

Lemma request_begin_spec endpoint options s g s1 :
  request_begin endpoint options s = (g, s1) ->
  world s1 = world s /\
  token (svc s1) = token (svc s) /\
  match g with
  | Ok (Served d) =>
      servedFromCache endpoint options s = true /\ breaker s1 = breaker s
  | Ok ToNetwork =>
      servedFromCache endpoint options s = false /\
      ((state (breaker s) <> Open /\ breaker s1 = breaker s) \/
       (state (breaker s) = Open /\ resetTimeout <= since_failure s /\
        breaker s1 = mkBreaker HalfOpen (failures (breaker s)) (lastFailure (breaker s))))
  | Throw e =>
      servedFromCache endpoint options s = false /\
      e = circuitOpenError /\
      state (breaker s) = Open /\ since_failure s < resetTimeout /\
      breaker s1 = breaker s
  end.
Proof.
  unfold request_begin, servedFromCache, result, bind, since_failure, breaker.
  destruct (checkCache_spec (getCacheKey endpoint options) options s)
    as (hit & s0 & -> & Hw & Ht & Hb).
  cbn [fst]. destruct hit as [d |].
  - cbn. intros H; inversion H; subst. auto.
  - unfold checkBreaker, bind, gets, now, modify, throw, ret.
    rewrite <- Hw, <- Hb, <- Ht.
    destruct s0 as [v w]; cbn [svc world].
    destruct (state (circuitBreaker v)) eqn:Hst.
    + intros H; inversion H; subst; cbn. repeat split; auto.
      left; split; [congruence | reflexivity].
    + cbn.
      destruct (Z.ltb_spec (clock w - num_of_time (lastFailure (circuitBreaker v)))
                           resetTimeout) as [Hlt | Hge].
      * intros H; inversion H; subst; cbn. repeat split; auto.
      * intros H; inversion H; subst; cbn. repeat split; auto.
    + intros H; inversion H; subst; cbn. repeat split; auto.
      left; split; [congruence | reflexivity].
Qed.

Lemma request_end_throw endpoint options error s :
  exists s',
    request_end endpoint options (Throw error) s = (Throw error, s') /\
    world s' = world s /\
    token (svc s') = token (svc s) /\
    cache (svc s') = cache (svc s) /\
    breaker s' =
      mkBreaker (if Nat.leb failureThreshold (S (failures (breaker s)))
                 then Open else state (breaker s))
                (S (failures (breaker s)))
                (Some (clock (world s))).
Proof.
  destruct s as [v w]. eexists. cbn. repeat split.
Qed.

Lemma request_end_ok endpoint options d s :
  exists s',
    request_end endpoint options (Ok d) s = (Ok d, s') /\
    world s' = world s /\
    token (svc s') = token (svc s) /\
    breaker s' =
      (if CircuitState_eqb (state (breaker s)) HalfOpen
       then mkBreaker Closed 0 (lastFailure (breaker s))
       else breaker s).
Proof.
  destruct s as [v w].
  unfold request_end, bind, gets, when, modify, ret, updateMetrics, setCache, now, breaker.
  cbn [svc world].
  destruct (CircuitState_eqb (state (circuitBreaker v)) HalfOpen);
    destruct (truthy d && isRead options)%bool; cbn; eexists; repeat split.
Qed.

Lemma executeRequest_spec endpoint options s r s' :
  executeRequest endpoint options s = (r, s') ->
  untouched s s' /\
  (net_calls (world s) < net_calls (world s'))%nat /\
  forall i,
    (net_calls (world s) <= i < net_calls (world s'))%nat ->
    is401 (net (world s) i) = true ->
    r = Throw authError /\ token (svc s') = None /\
    storedToken (world s') = None /\ S i = net_calls (world s').
Proof.
  unfold executeRequest. intros H.
  pose proof (retryLoop_fetches maxRetries 0 JsUndefined s) as Hlt.
  unfold exec in Hlt. rewrite H in Hlt. cbn [snd] in Hlt.
  apply retryLoop_spec in H. destruct H as (Hk & _ & H401). auto.
Qed.

Lemma request_course endpoint options s r s' :
  request endpoint options s = (r, s') -> Course endpoint options s r s'.
Proof.
  unfold request, bind, settle, ret.
  destruct (request_begin endpoint options s) as [[[d |] | e] s1] eqn:Hbegin.
  - intros H; inversion H; subst. eapply FromCache; eauto.
  - destruct (executeRequest endpoint options s1) as [settled s2] eqn:Hexec.
    intros H. eapply OverNetwork; eauto.
  - intros H; inversion H; subst. eapply FailFast; eauto.
Qed.

(** C3.  Whenever a fetch made on behalf of a request is answered with HTTP
    401, the request ends there: that fetch is the last one the request
    makes (no retry follows), the token is cleared in the client and in
    localStorage, and the caller gets the error 'Authentication required'. *)
Theorem C3_unauthorized_is_never_retried :
  forall endpoint options s i,
    (net_calls (world s) <= i)%nat ->
    (i < net_calls (world (exec (request endpoint options) s)))%nat ->
    is401 (net (world s) i) = true ->
    result (request endpoint options) s = Throw authError /\
    token (svc (exec (request endpoint options) s)) = None /\
    storedToken (world (exec (request endpoint options) s)) = None /\
    net_calls (world (exec (request endpoint options) s)) = S i.
Proof.
  intros endpoint options s i Hlo Hhi H401.
  unfold exec, result in *.
  destruct (request endpoint options s) as [r s'] eqn:Hreq. cbn [fst snd] in *.
  apply request_course in Hreq.
  destruct Hreq as [d s1 Hbegin | e s1 Hbegin | s1 settled s2 r s3 Hbegin Hexec Hend];
    apply request_begin_spec in Hbegin; destruct Hbegin as (Hw & Htok & _).
  - rewrite Hw in Hhi. lia.
  - rewrite Hw in Hhi. lia.
  - apply executeRequest_spec in Hexec. destruct Hexec as (_ & _ & Hauth).
    rewrite Hw in Hauth.
    destruct settled as [d | error].
    + destruct (request_end_ok endpoint options d s2) as (s4 & Heq & Hw4 & _).
      rewrite Heq in Hend. inversion Hend; subst s4 r. rewrite Hw4 in *.
      destruct (Hauth i) as (Habs & _); [lia | exact H401 | discriminate].
    + destruct (request_end_throw endpoint options error s2)
        as (s4 & Heq & Hw4 & Htok4 & _).
      rewrite Heq in Hend. inversion Hend; subst s4 r. rewrite Hw4 in *.
      destruct (Hauth i) as (Herr & Ht & Hst & Hlast); [lia | exact H401 |].
      rewrite Htok4. repeat split; congruence.
Qed.

Lemma C3_unauthorized_witness :
  result (request "/alerts" no_options) (new_service unauthorized_world)
    = Throw authError /\
  token (svc (exec (request "/alerts" no_options) (new_service unauthorized_world)))
    = None /\
  storedToken (world (exec (request "/alerts" no_options)
                           (new_service unauthorized_world))) = None /\
  net_calls (world (exec (request "/alerts" no_options)
                         (new_service unauthorized_world))) = 1%nat.
Proof.
  apply (C3_unauthorized_is_never_retried "/alerts" no_options
           (new_service unauthorized_world) 0).
  - vm_compute. lia.
  - vm_compute. lia.
  - reflexivity.
Defined.

(** *** The breaker under overlapping calls *)

Lemma new_client_consistent w : breaker_consistent (breaker (sys (new_client w))).
Proof. left. cbn. unfold failureThreshold. split; [reflexivity | lia]. Qed.

(** What one event does to the breaker.  An event that completes no call
    leaves the counter alone and does not close the circuit; a call that
    completes with a failure leaves the circuit open, unless the circuit
    was and stays closed and the counter has grown by one. *)
Lemma react_breaker ev c o c' :
  react ev c = (o, c') ->
  breaker_consistent (breaker (sys c)) ->
  breaker_consistent (breaker (sys c')) /\
  match o with
  | None =>
      failures (breaker (sys c')) = failures (breaker (sys c)) /\
      (state (breaker (sys c)) <> Closed -> state (breaker (sys c')) <> Closed)
  | Some r =>
      failed r = true ->
      state (breaker (sys c')) = Open \/
      (state (breaker (sys c)) = Closed /\ state (breaker (sys c')) = Closed /\
       failures (breaker (sys c')) = S (failures (breaker (sys c))))
  end.
Proof.
  intros Hreact Hcons. destruct c as [s queue]. cbn [sys] in *.
  destruct ev as [endpoint options | n | dt]; cbn [react sys pending] in Hreact.
  - destruct (request_begin endpoint options s) as [g s1] eqn:Hbegin.
    apply request_begin_spec in Hbegin. destruct Hbegin as (_ & _ & Hgate).
    destruct g as [[d |] | e]; inversion Hreact; subst; clear Hreact; cbn [sys].
    + destruct Hgate as (_ & ->). split; [exact Hcons | discriminate].
    + destruct Hgate as (_ & [(_ & ->) | (Hopen & _ & ->)]).
      * split; [exact Hcons | auto].
      * cbn [state failures]. unfold breaker_consistent in *. cbn [state failures].
        split; [| split; [reflexivity | discriminate]].
        right. split; [discriminate |].
        destruct Hcons as [(Hc & _) | (_ & Hf)]; [congruence | exact Hf].
    + destruct Hgate as (_ & _ & Hopen & _ & ->). split; [exact Hcons | auto].
  - destruct (nth_error queue n) as [[endpoint options] |];
      [| inversion Hreact; subst; split; [exact Hcons | auto]].
    destruct (executeRequest endpoint options s) as [settled s1] eqn:Hexec.
    apply executeRequest_spec in Hexec. destruct Hexec as ((Hb1 & _) & _).
    fold (breaker s1) in Hb1. fold (breaker s) in Hb1.
    unfold breaker_consistent, failureThreshold in *.
    destruct settled as [d | error].
    + destruct (request_end_ok endpoint options d s1) as (s2 & Heq & _ & _ & Hb2).
      rewrite Heq in Hreact. inversion Hreact; subst; clear Hreact. cbn [sys].
      split; [| discriminate]. rewrite Hb2, Hb1.
      destruct (CircuitState_eqb (state (breaker s)) HalfOpen); [| exact Hcons].
      left. cbn. split; [reflexivity | lia].
    + destruct (request_end_throw endpoint options error s1)
        as (s2 & Heq & _ & _ & _ & Hb2).
      rewrite Heq in Hreact. inversion Hreact; subst; clear Hreact. cbn [sys].
      rewrite Hb2, Hb1. unfold failureThreshold. cbn [state failures].
      destruct (Nat.leb_spec 5 (S (failures (breaker s)))) as [Hge | Hlt].
      * split; [right; split; [discriminate | exact Hge] | left; reflexivity].
      * destruct Hcons as [(Hc & Hf) | (_ & Hf)]; [| lia].
        rewrite Hc. split; [left; split; [reflexivity | exact Hlt] | right; auto].
  - inversion Hreact; subst; cbn [sys]. split; [exact Hcons | auto].
Qed.

Lemma play_consistent events :
  forall c, breaker_consistent (breaker (sys c)) ->
            breaker_consistent (breaker (sys (snd (play events c)))).
Proof.
  induction events as [| ev rest IH]; intros c Hcons; [exact Hcons |].
  cbn [play]. destruct (react ev c) as [o c1] eqn:Hreact.
  apply react_breaker in Hreact; [| exact Hcons]. destruct Hreact as (Hcons1 & _).
  specialize (IH c1 Hcons1). destruct (play rest c1) as [rs c2]. exact IH.
Qed.

(** While every call that completes fails, the circuit has left the closed
    state or the counter has grown by the number of completed calls. *)
Lemma play_failures events :
  forall c,
    breaker_consistent (breaker (sys c)) ->
    forallb failed (fst (play events c)) = true ->
    (state (breaker (sys c)) <> Closed ->
     state (breaker (sys (snd (play events c)))) <> Closed) /\
    (state (breaker (sys (snd (play events c)))) <> Closed \/
     (failures (breaker (sys c)) + List.length (fst (play events c))
      <= failures (breaker (sys (snd (play events c)))))%nat).
Proof.
  induction events as [| ev rest IH]; intros c Hcons Hall.
  - cbn. split; [auto | right; lia].
  - cbn [play] in *. destruct (react ev c) as [o c1] eqn:Hreact.
    apply react_breaker in Hreact; [| exact Hcons]. destruct Hreact as (Hcons1 & Hev).
    specialize (IH c1 Hcons1).
    destruct (play rest c1) as [rs c2]. cbn [fst snd] in *.
    destruct o as [r |].
    + cbn [forallb] in Hall. apply andb_true_iff in Hall. destruct Hall as (Hr & Hrs).
      destruct (IH Hrs) as (Hstay & Hgrow). specialize (Hev Hr).
      assert (Hopen1 : state (breaker (sys c1)) = Open ->
                       state (breaker (sys c2)) <> Closed)
        by (intros Ho; apply Hstay; congruence).
      split.
      * intros Hne. destruct Hev as [Ho | (Hc & _)]; [auto | contradiction].
      * destruct Hev as [Ho | (_ & _ & Hf)]; [left; auto |].
        destruct Hgrow as [Hne | Hle]; [left; exact Hne | right].
        cbn [List.length]. lia.
    + destruct (IH Hall) as (Hstay & Hgrow). destruct Hev as (Hf & Hkeep).
      split; [auto |].
      destruct Hgrow as [Hne | Hle]; [left; exact Hne | right; lia].
Qed.

(** What a request does when it finds the circuit open. *)
Lemma open_request endpoint options s r s' :
  request endpoint options s = (r, s') ->
  state (breaker s) = Open ->
  servedFromCache endpoint options s = false ->
  (since_failure s < resetTimeout /\
   r = Throw circuitOpenError /\ world s' = world s /\ breaker s' = breaker s) \/
  (resetTimeout <= since_failure s /\
   exists s1 settled s2,
     request_begin endpoint options s = (Ok ToNetwork, s1) /\
     state (breaker s1) = HalfOpen /\
     world s1 = world s /\
     executeRequest endpoint options s1 = (settled, s2) /\
     breaker s2 = breaker s1 /\
     request_end endpoint options settled s2 = (r, s')).
Proof.
  intros Hreq Hopen Hmiss. apply request_course in Hreq.
  destruct Hreq as [d s1 Hbegin | e s1 Hbegin | s1 settled s2 r s3 Hbegin Hexec Hend];
    pose proof (request_begin_spec _ _ _ _ _ Hbegin) as (Hw & _ & Hgate).
  - destruct Hgate as (Hhit & _). congruence.
  - destruct Hgate as (_ & -> & _ & Hlt & Hb). left. auto.
  - destruct Hgate as (_ & [(Hne & _) | (_ & Hge & Hb1)]); [contradiction |].
    right. split; [exact Hge |].
    exists s1, settled, s2. rewrite Hb1.
    pose proof (executeRequest_spec _ _ _ _ _ Hexec) as ((Hb2 & _) & _).
    repeat split; auto. rewrite <- Hb1. exact Hb2.
Qed.

(** A call awaited before anything else happens is [request]. *)
Lemma call_is_request endpoint options s :
  play (call endpoint options) (mkClient s []) =
  ([result (request endpoint options) s],
   mkClient (exec (request endpoint options) s) []).
Proof.
  unfold call, result, exec, request, bind, settle, ret. cbn [play react sys pending].
  destruct (request_begin endpoint options s) as [[[d |] | e] s1];
    cbn [play react sys pending app nth_error remove_nth fst snd]; try reflexivity.
  destruct (executeRequest endpoint options s1) as [settled s2].
  destruct (request_end endpoint options settled s2) as [r s3]. reflexivity.
Qed.

(** C1 (amended).  On a client created fresh, for every sequence of calls,
    overlapping or not:
    - a fifth failure in a row (four or more calls have completed, all with a
      failure, and the next completion is a failure too) leaves the breaker
      open;
    - while the breaker is open and less than resetTimeout (60 s) has passed
      since the last recorded failure, a call that the cache does not answer
      fails at once with the service-unavailable error, without any fetch
      and without touching the breaker;
    - once resetTimeout has passed, such a call turns the breaker half-open
      and goes to the network;
    - a call that succeeds while the breaker is half-open closes the circuit
      and sets the failure counter to 0. *)
Theorem C1_breaker_state_machine :
  (forall w history burst ev r c',
      let c := snd (play history (new_client w)) in
      forallb failed (fst (play burst c)) = true ->
      (4 <= List.length (fst (play burst c)))%nat ->
      react ev (snd (play burst c)) = (Some r, c') ->
      failed r = true ->
      state (breaker (sys c')) = Open) /\
  (forall s endpoint options,
      state (breaker s) = Open ->
      since_failure s < resetTimeout ->
      servedFromCache endpoint options s = false ->
      result (request endpoint options) s = Throw circuitOpenError /\
      net_calls (world (exec (request endpoint options) s)) = net_calls (world s) /\
      breaker (exec (request endpoint options) s) = breaker s) /\
  (forall s endpoint options,
      state (breaker s) = Open ->
      resetTimeout <= since_failure s ->
      servedFromCache endpoint options s = false ->
      result (request_begin endpoint options) s = Ok ToNetwork /\
      state (breaker (exec (request_begin endpoint options) s)) = HalfOpen /\
      (net_calls (world s) <
       net_calls (world (exec (request endpoint options) s)))%nat) /\
  (forall s endpoint options d,
      state (breaker s) = HalfOpen ->
      result (request_end endpoint options (Ok d)) s = Ok d /\
      state (breaker (exec (request_end endpoint options (Ok d)) s)) = Closed /\
      failures (breaker (exec (request_end endpoint options (Ok d)) s)) = 0%nat).
Proof.
  split; [| split; [| split]].
  - intros w history burst ev r c' c Hall Hlen Hreact Hfail.
    assert (Hcons : breaker_consistent (breaker (sys c)))
      by (apply play_consistent, new_client_consistent).
    pose proof (play_consistent burst c Hcons) as Hcons1.
    destruct (play_failures burst c Hcons Hall) as (_ & Hgrow).
    apply react_breaker in Hreact; [| exact Hcons1].
    destruct Hreact as (Hcons2 & Hev).
    destruct (Hev Hfail) as [Hopen | (Hc1 & Hc2 & Hf)]; [exact Hopen |].
    destruct Hgrow as [Hne | Hle]; [contradiction |].
    destruct Hcons2 as [(_ & Hlt) | (Hne & _)]; [| contradiction].
    unfold failureThreshold in Hlt. lia.
  - intros s endpoint options Hopen Hsoon Hmiss.
    unfold result, exec.
    destruct (request endpoint options s) as [r s'] eqn:Hreq. cbn [fst snd].
    destruct (open_request _ _ _ _ _ Hreq Hopen Hmiss)
      as [(_ & -> & -> & ->) | (Hge & _)]; [auto | lia].
  - intros s endpoint options Hopen Hlate Hmiss.
    unfold result, exec.
    destruct (request endpoint options s) as [r s'] eqn:Hreq. cbn [fst snd].
    destruct (open_request _ _ _ _ _ Hreq Hopen Hmiss)
      as [(Hlt & _) | (_ & s1 & settled & s2 & -> & Hhalf & Hw1 & Hexec & _ & Hend)];
      [lia |].
    cbn [fst snd]. split; [reflexivity |]. split; [exact Hhalf |].
    apply executeRequest_spec in Hexec. destruct Hexec as (_ & Hmore & _).
    assert (world s' = world s2) as ->.
    { destruct settled as [d | error].
      - destruct (request_end_ok endpoint options d s2) as (s4 & Heq & Hw4 & _).
        congruence.
      - destruct (request_end_throw endpoint options error s2) as (s4 & Heq & Hw4 & _).
        congruence. }
    rewrite <- Hw1. exact Hmore.
  - intros s endpoint options d Hhalf. unfold result, exec.
    destruct (request_end_ok endpoint options d s) as (s' & Heq & _ & _ & Hb).
    rewrite Heq. cbn [fst snd]. rewrite Hb, Hhalf. cbn. auto.
Qed.

Lemma C1_breaker_witness :
  state (breaker (sys (snd (play five_posts (new_client outage_world))))) = Open /\
  (let s := sys (snd (play five_posts (new_client outage_world))) in
   result (request "/alerts" post) s = Throw circuitOpenError /\
   net_calls (world (exec (request "/alerts" post) s)) = net_calls (world s) /\
   breaker (exec (request "/alerts" post) s) = breaker s) /\
  (let s := tick 60000 (sys (snd (play five_posts (new_client outage_world)))) in
   result (request_begin "/alerts" post) s = Ok ToNetwork /\
   state (breaker (exec (request_begin "/alerts" post) s)) = HalfOpen /\
   (net_calls (world s) < net_calls (world (exec (request "/alerts" post) s)))%nat) /\
  (let s := exec (request_begin "/alerts" post)
                 (tick 60000 (sys (snd (play five_posts (new_client outage_world))))) in
   state (breaker (exec (request_end "/alerts" post (Ok JNull)) s)) = Closed /\
   failures (breaker (exec (request_end "/alerts" post (Ok JNull)) s)) = 0%nat).
Proof.
  split; [| split; [| split]].
  - apply (proj1 C1_breaker_state_machine outage_world []
             (List.concat (repeat (call "/alerts" post) 4) ++ [Begin "/alerts" post])%list
             (Settle 0) (Throw (JsError "Failed to fetch"))).
    + reflexivity.
    + vm_compute. lia.
    + vm_compute. reflexivity.
    + reflexivity.
  - apply (proj1 (proj2 C1_breaker_state_machine)).
    + reflexivity.
    + vm_compute. reflexivity.
    + reflexivity.
  - apply (proj1 (proj2 (proj2 C1_breaker_state_machine))).
    + reflexivity.
    + vm_compute. discriminate.
    + reflexivity.
  - apply (proj2 (proj2 (proj2 C1_breaker_state_machine))). reflexivity.
Defined.

(** C1 as stated fails on the code in two ways.  With the breaker open and
    resetTimeout elapsed, two calls that are both pending (the second begun
    before the first has settled) are both let through to the network: the
    first turns the breaker half-open, and the breaker check only stops calls that
    find it open.  And with the breaker open and resetTimeout not elapsed, a
    read whose cache entry is fresh does not fail: it is answered from the
    cache. *)
Lemma C1_two_pending_probes_and_cached_read :
  (let c := snd (play (five_posts ++ [Pass 60000])%list (new_client outage_world)) in
   let c2 := snd (play [Begin "/alerts" post; Begin "/cameras" post] c) in
   let c4 := snd (play [Settle 0; Settle 0] c2) in
   state (breaker (sys c)) = Open /\
   resetTimeout <= since_failure (sys c) /\
   pending c = [] /\
   pending c2 = [("/alerts", post); ("/cameras", post)] /\
   fst (play [Settle 0; Settle 0] c2)
   = [Ok (JObj [("ok", JBool true)]); Ok (JObj [("ok", JBool true)])] /\
   net_calls (world (sys c4)) = (net_calls (world (sys c)) + 2)%nat) /\
  (let c := snd (play (call "/cameras" no_options ++ five_posts)%list
                      (new_client read_then_outage_world)) in
   state (breaker (sys c)) = Open /\
   since_failure (sys c) < resetTimeout /\
   fst (play (call "/cameras" no_options) c) = [Ok (JObj [("ok", JBool true)])] /\
   net_calls (world (sys (snd (play (call "/cameras" no_options) c))))
   = net_calls (world (sys c))).
Proof.
  split; vm_compute; repeat split; discriminate.
Qed.

(** *** Retries *)

Lemma backoff_schedule :
  map backoff [0; 1; 2; 3; 4]%nat = [1000; 2000; 4000; 8000; 10000].
Proof. reflexivity. Qed.

(** The scenario of the specification: two 503 answers and then a healthy
    one.  The caller gets the payload after sleeps of 1 s and 2 s, and the
    breaker is as it was. *)
Lemma retry_then_succeed :
  let s := new_service recovering_world in
  result (request "/alerts" post) s = Ok (JObj [("ok", JBool true)]) /\
  sleeps (world (exec (request "/alerts" post) s)) = [1000; 2000] /\
  net_calls (world (exec (request "/alerts" post) s)) = 3%nat /\
  breaker (exec (request "/alerts" post) s) = breaker s.
Proof. vm_compute. repeat split. Qed.

(** C2, at the failing input.  A 5xx answer other than 500, 502, 503 and 504
    (here 501) is not retried: the request makes one fetch, sleeps not at
    all, and raises the error; so does a network failure whose message is
    not 'Failed to fetch'.  A 503 answer, by contrast, is fetched four times
    with sleeps of 1 s, 2 s and 4 s. *)
Theorem C2_not_every_5xx_is_retried :
  (let s := new_service (status_world 501 "Not Implemented") in
   result (request "/alerts" post) s = Throw (JsError "HTTP 501: Not Implemented") /\
   net_calls (world (exec (request "/alerts" post) s)) = 1%nat /\
   sleeps (world (exec (request "/alerts" post) s)) = []) /\
  (let s := new_service (status_world 503 "Service Unavailable") in
   result (request "/alerts" post) s = Throw (JsError "HTTP 503: Service Unavailable") /\
   net_calls (world (exec (request "/alerts" post) s)) = 4%nat /\
   sleeps (world (exec (request "/alerts" post) s)) = [1000; 2000; 4000]) /\
  shouldRetry (JsError "HTTP 507: Insufficient Storage") = false /\
  shouldRetry (JsError "NetworkError when attempting to fetch resource.") = false.
Proof. vm_compute. repeat split. Qed.

(** *** Cache invalidation *)

(** A request with a mutating verb leaves the cache as it is. *)
Lemma mutating_request_keeps_cache endpoint options s :
  isRead options = false ->
  cache (svc (exec (request endpoint options) s)) = cache (svc s).
Proof.
  intros Hmut. unfold exec.
  destruct (request endpoint options s) as [r s'] eqn:Hreq. cbn [snd].
  assert (Hbegin : forall g s1, request_begin endpoint options s = (g, s1) ->
                                cache (svc s1) = cache (svc s)).
  { unfold request_begin, checkCache, checkBreaker, bind, ret, gets, now, modify, throw.
    rewrite Hmut. destruct s as [v w]; cbn [svc world].
    destruct (state (circuitBreaker v)); cbn.
    - intros g s1 H; inversion H; reflexivity.
    - destruct (Z.ltb _ _); intros g s1 H; inversion H; reflexivity.
    - intros g s1 H; inversion H; reflexivity. }
  apply request_course in Hreq.
  destruct Hreq as [d s1 Hb | e s1 Hb | s1 settled s2 r s3 Hb Hexec Hend];
    try (apply Hbegin in Hb; exact Hb).
  apply Hbegin in Hb. rewrite <- Hb.
  apply executeRequest_spec in Hexec. destruct Hexec as ((_ & Hc & _) & _).
  rewrite <- Hc.
  destruct settled as [d | error].
  - revert Hend. unfold request_end, bind, gets, when, modify, ret, updateMetrics.
    rewrite Hmut, andb_false_r. destruct s2 as [v2 w2]; cbn [svc world].
    destruct (CircuitState_eqb _ _); cbn; intros H; inversion H; reflexivity.
  - destruct (request_end_throw endpoint options error s2) as (s4 & Heq & _ & _ & Hc4 & _).
    rewrite Heq in Hend. inversion Hend; subst. exact Hc4.
Qed.

(** C4, at the failing input.  The list of alerts has been read and cached;
    createAlert then succeeds and leaves the cache as it is, so the next
    getAlerts is answered from the cache with the list as it was before the
    alert was created, without a fetch.  addCamera, by contrast, clears the
    cache, and the getCameras after it goes to the network. *)
Theorem C4_createAlert_does_not_invalidate :
  (let s1 := exec (getAlerts None) (new_service alerts_world) in
   let s2 := exec (createAlert "{}") s1 in
   result (createAlert "{}") s1 = Ok (JObj [("alert_id", JStr "alert-2")]) /\
   cache (svc s2) = cache (svc s1) /\
   result (getAlerts None) s2 = Ok (JArr [JStr "alert-1"]) /\
   net_calls (world (exec (getAlerts None) s2)) = net_calls (world s2)) /\
  (let s1 := exec getCameras (new_service alerts_world) in
   let s2 := exec (addCamera "{}") s1 in
   cache (svc s2) = JSMap.empty /\
   net_calls (world (exec getCameras s2)) = S (net_calls (world s2))).
Proof. vm_compute. repeat split. Qed.

End BackendFacts.

(** * Properties of the camera lifecycle manager *)
Module CameraFacts.
Import Camera.

(** *** Resolution ladder *)

(** C7 (amended).  For a capability object reporting max width 1920 and max
    height 1080 the offered resolutions are exactly 1920x1080, 1280x720,
    854x480 and 640x480: neither 3840x2160 nor 2560x1440 is offered, and the
    480p entry of the table is. *)
Theorem C7_resolution_ladder_1080p :
  forall capabilities wmin hmin,
    width capabilities = Some (mkRange wmin (Some 1920)) ->
    height capabilities = Some (mkRange hmin (Some 1080)) ->
    extractResolutions capabilities
      = ["1920x1080"; "1280x720"; "854x480"; "640x480"] /\
    ~ In "3840x2160" (extractResolutions capabilities) /\
    ~ In "2560x1440" (extractResolutions capabilities).
Proof.
  intros capabilities wmin hmin Hw Hh.
  assert (Heq : extractResolutions capabilities
                = ["1920x1080"; "1280x720"; "854x480"; "640x480"]).
  { unfold extractResolutions. rewrite Hw, Hh. reflexivity. }
  rewrite Heq. split; [reflexivity |].
  split; intros Hin; cbn in Hin;
    repeat (destruct Hin as [Hin | Hin]; [discriminate |]); exact Hin.
Qed.

Lemma C7_resolution_ladder_witness :
  extractResolutions caps_1080p
    = ["1920x1080"; "1280x720"; "854x480"; "640x480"] /\
  ~ In "3840x2160" (extractResolutions caps_1080p) /\
  ~ In "2560x1440" (extractResolutions caps_1080p).
Proof.
  apply (C7_resolution_ladder_1080p caps_1080p (Some 1) (Some 1)); reflexivity.
Defined.

(** C7 as stated fails: the list offered for 1920x1080 is not the
    three-element list of the claim. *)
Lemma C7_three_element_list_refuted :
  extractResolutions caps_1080p <> ["1920x1080"; "1280x720"; "640x480"].
Proof. vm_compute. discriminate. Qed.

(** *** Discovery *)

Lemma update_nth_app_last {A} (f : A -> A) (l : list A) (x : A) :
  update_nth (List.length l) f (l ++ [x])%list = (l ++ [f x])%list.
Proof. induction l as [| y l IH]; cbn; [reflexivity | rewrite IH; reflexivity]. Qed.

Lemma nth_app_last {A} (l : list A) (x d : A) :
  nth (List.length l) (l ++ [x])%list d = x.
Proof. induction l as [| y l IH]; cbn; [reflexivity | exact IH]. Qed.

(** Probing a device never throws and changes nothing in the service; in
    the media layer it only adds the probe stream. *)
Lemma getDeviceCapabilities_spec id s :
  exists capabilities s' extra,
    getDeviceCapabilities id s = (Ok capabilities, s') /\
    svc s' = svc s /\
    clock (world s') = clock (world s) /\
    streams (world s') = (streams (world s) ++ extra)%list.
Proof.
  unfold getDeviceCapabilities, try_catch, bind, getUserMedia, getTracks, gets,
    stopAllTracks, modify, throw, ret.
  destruct s as [v w]; cbn [svc world].
  destruct (gum w (gum_calls w)) as [m | tracks]; cbn [svc world].
  - exists no_capabilities. eexists. exists []. cbn. rewrite app_nil_r. auto.
  - cbn [set_streams streams]. rewrite nth_app_last.
    destruct (firstVideo tracks 0) as [[i track] |]; cbn.
    + eexists. eexists. exists [map stop tracks].
      split; [reflexivity |]. cbn. rewrite update_nth_app_last. auto.
    + exists no_capabilities. eexists. exists [tracks]. auto.
Qed.

Lemma processDevice_spec device s :
  exists info capabilities s' extra,
    processDevice device s = (Ok tt, s') /\
    activeStreams (svc s') = activeStreams (svc s) /\
    connectedCameras (svc s')
      = JSMap.set (connectedCameras (svc s)) (deviceId device) info /\
    deviceCapabilities (svc s')
      = JSMap.set (deviceCapabilities (svc s)) (deviceId device) capabilities /\
    connectionStatus (svc s')
      = JSMap.set (connectionStatus (svc s)) (deviceId device) "disconnected" /\
    cam_status info = "available" /\
    streams (world s') = (streams (world s) ++ extra)%list.
Proof.
  unfold processDevice, try_catch, bind, gets, now, modify, ret.
  destruct (getDeviceCapabilities_spec (deviceId device) s)
    as (capabilities & s1 & extra & -> & Hsvc & _ & Hstreams).
  destruct s1 as [v1 w1]; cbn in Hsvc, Hstreams |- *. subst v1.
  eexists. exists capabilities. eexists. exists extra.
  split; [reflexivity |]. cbn. repeat split; auto.
Qed.

(** The table after processing a list of devices, starting from [s]. *)
Lemma forEach_processDevice devices :
  forall s,
  exists s' extra,
    forEach processDevice devices s = (Ok tt, s') /\
    activeStreams (svc s') = activeStreams (svc s) /\
    streams (world s') = (streams (world s) ++ extra)%list /\
    (forall id,
        JSMap.has (connectedCameras (svc s')) id = true <->
        In id (map deviceId devices) \/ JSMap.has (connectedCameras (svc s)) id = true) /\
    (forall id,
        JSMap.has (deviceCapabilities (svc s')) id = true <->
        In id (map deviceId devices) \/ JSMap.has (deviceCapabilities (svc s)) id = true) /\
    (forall id,
        JSMap.get (connectionStatus (svc s')) id =
        if in_dec string_dec id (map deviceId devices) then Some "disconnected"
        else JSMap.get (connectionStatus (svc s)) id).
Proof.
  induction devices as [| d rest IH]; intros s.
  - exists s, []. cbn. rewrite app_nil_r. repeat split; auto; tauto.
  - destruct (processDevice_spec d s)
      as (info & capabilities & s1 & extra1 & Hrun & Has & Hcams & Hcaps & Hstat & _ & Hstr1).
    destruct (IH s1) as (s2 & extra2 & Hrest & Has2 & Hstr2 & Hcams2 & Hcaps2 & Hstat2).
    exists s2, (extra1 ++ extra2)%list.
    cbn [forEach]. unfold bind. rewrite Hrun, Hrest.
    split; [reflexivity |]. split; [congruence |].
    split; [rewrite Hstr2, Hstr1, app_assoc; reflexivity |].
    split; [| split].
    + intros id. rewrite Hcams2, Hcams, JSMapFacts.has_set. cbn [map In].
      destruct (String.eqb_spec (deviceId d) id); cbn; intuition congruence.
    + intros id. rewrite Hcaps2, Hcaps, JSMapFacts.has_set. cbn [map In].
      destruct (String.eqb_spec (deviceId d) id); cbn; intuition congruence.
    + intros id. rewrite Hstat2, Hstat, JSMapFacts.get_set. cbn [map].
      destruct (in_dec string_dec id (map deviceId rest)) as [Hin | Hnin];
        destruct (in_dec string_dec id (deviceId d :: map deviceId rest)) as [Hin' | Hnin'];
        try reflexivity.
      * exfalso. apply Hnin'. right. exact Hin.
      * destruct Hin' as [-> | Hin']; [| contradiction].
        rewrite String.eqb_refl. reflexivity.
      * destruct (String.eqb_spec (deviceId d) id) as [Heq | _]; [| reflexivity].
        exfalso. apply Hnin'. left. exact Heq.
Qed.

(** *** Connecting *)

(** Connecting a listed device that already has a connection. *)
Lemma connect_existing s cameraId options c :
  JSMap.has (connectedCameras (svc s)) cameraId = true ->
  JSMap.get (activeStreams (svc s)) cameraId = Some c ->
  connectToCamera cameraId options s = (Ok c, s).
Proof.
  intros Hknown Hget.
  unfold connectToCamera, try_catch, bind, gets, ret.
  rewrite Hknown. cbn. rewrite Hget. reflexivity.
Qed.

(** What a connect can do to the active-stream map: nothing, or bind the
    camera id to a connection made for it. *)
Lemma connect_activeStreams s cameraId options :
  let s' := exec (connectToCamera cameraId options) s in
  activeStreams (svc s') = activeStreams (svc s) \/
  exists c, conn_cameraId c = cameraId /\
            activeStreams (svc s') = JSMap.set (activeStreams (svc s)) cameraId c.
Proof.
  unfold exec, connectToCamera, try_catch, bind, gets, ret, throw, setStatus,
    notifyStatusChange, handleError, modify, lift, getUserMedia, getTracks, now,
    newRef, updateCamera.
  destruct s as [v w]; cbn [svc world].
  destruct (JSMap.has (connectedCameras v) cameraId); cbn; [| left; reflexivity].
  destruct (JSMap.get (activeStreams v) cameraId) as [c |]; cbn; [left; reflexivity |].
  destruct (buildConstraints cameraId options _) as [cs | e]; cbn; [| left; reflexivity].
  destruct (gum w (gum_calls w)) as [m | tracks]; cbn; [left; reflexivity |].
  rewrite nth_app_last.
  destruct (Nat.eqb (List.length tracks) 0); cbn; [left; reflexivity |].
  destruct (firstVideo tracks 0) as [[i track] |]; cbn; [| left; reflexivity].
  right. eexists. split; [| destruct (JSMap.get _ cameraId); cbn; reflexivity].
  reflexivity.
Qed.
Lemma disconnect_activeStreams s cameraId :
  let s' := exec (disconnectCamera cameraId) s in
  activeStreams (svc s') = activeStreams (svc s) \/
  activeStreams (svc s') = JSMap.delete (activeStreams (svc s)) cameraId.
Proof.
  unfold exec, disconnectCamera, try_catch, bind, gets, ret, stopAllTracks, setStatus,
    notifyStatusChange, modify, now, updateCamera.
  destruct s as [v w]; cbn [svc world].
  destruct (JSMap.get (activeStreams v) cameraId) as [c |]; cbn; [| left; reflexivity].
  right. destruct (JSMap.get _ cameraId); reflexivity.
Qed.

Lemma handleStreamEnd_activeStreams s cameraId :
  activeStreams (svc (exec (handleStreamEnd cameraId) s))
  = JSMap.delete (activeStreams (svc s)) cameraId.
Proof.
  unfold exec, handleStreamEnd, bind, setStatus, notifyStatusChange, modify, now,
    updateCamera, gets.
  destruct s as [v w]; cbn. destruct (JSMap.get _ cameraId); reflexivity.
Qed.

Lemma discover_activeStreams s enumerated :
  activeStreams (svc (exec (discoverDevices enumerated) s)) = activeStreams (svc s).
Proof.
  destruct enumerated as [devices | e]; [| reflexivity].
  unfold exec, discoverDevices, bind, modify, gets.
  set (s0 := with_svc _ s).
  destruct (forEach_processDevice
              (filter (fun d => String.eqb (kind d) "videoinput") devices) s0)
    as (s1 & extra & -> & Has & _).
  cbn [snd]. rewrite Has. reflexivity.
Qed.

(** *** Tearing down *)

Lemma nth_update_nth {A} (f : A -> A) (d : A) (l : list A) :
  forall n, f d = d -> nth n (update_nth n f l) d = f (nth n l d).
Proof.
  induction l as [| x l IH]; intros [| n] Hd; cbn; auto.
Qed.

Lemma all_stopped_after_stop (tracks : Stream) :
  forallb (fun t => negb (live t)) (map stop tracks) = true.
Proof. induction tracks as [| t rest IH]; cbn; auto. Qed.

(** Both teardown paths leave the same service fields behind when the
    camera has a connection. *)
Lemma teardown_same_service s cameraId c :
  JSMap.get (activeStreams (svc s)) cameraId = Some c ->
  svc (exec (disconnectCamera cameraId) s) = svc (exec (handleStreamEnd cameraId) s).
Proof.
  intros Hget.
  unfold exec, disconnectCamera, handleStreamEnd, try_catch, bind, gets, ret,
    stopAllTracks, setStatus, notifyStatusChange, modify, now, updateCamera.
  destruct s as [v w]; cbn [svc world] in *. rewrite Hget. cbn.
  destruct (JSMap.get (connectedCameras v) cameraId); reflexivity.
Qed.

(** disconnectCamera stops every track of the connection's stream. *)
Lemma disconnect_stops_all_tracks s cameraId c :
  JSMap.get (activeStreams (svc s)) cameraId = Some c ->
  allStopped (exec (disconnectCamera cameraId) s) (stream c) = true.
Proof.
  intros Hget.
  unfold allStopped, exec, disconnectCamera, try_catch, bind, gets, ret,
    stopAllTracks, setStatus, notifyStatusChange, modify, now, updateCamera.
  destruct s as [v w]; cbn [svc world] in *. rewrite Hget. cbn.
  unfold Stream in *.
  assert (Hnth : nth (stream c) (update_nth (stream c) (map stop) (streams w)) []
                 = map stop (nth (stream c) (streams w) []))
    by (apply nth_update_nth; reflexivity).
  destruct (JSMap.get (connectedCameras v) cameraId); cbn;
    rewrite Hnth; apply all_stopped_after_stop.
Qed.

(** handleStreamEnd stops nothing. *)
Lemma handleStreamEnd_keeps_streams s cameraId :
  streams (world (exec (handleStreamEnd cameraId) s)) = streams (world s).
Proof.
  unfold exec, handleStreamEnd, bind, gets, setStatus, notifyStatusChange, modify,
    now, updateCamera.
  destruct s as [v w]; cbn. reflexivity.
Qed.

(** Called while the track is still live, as by an event dispatched on the
    track by hand, handleStreamEnd calls no stop(): the service fields are
    those disconnectCamera leaves, but the track stays live. *)
Lemma handleStreamEnd_alone_stops_no_track :
  let explicit := exec (disconnectCamera "cam1") cam1_connected in
  let ended := exec (handleStreamEnd "cam1") cam1_connected in
  getActiveStream cam1_connected "cam1" = Some 1%nat /\
  svc explicit = svc ended /\
  allStopped explicit 1 = true /\
  allStopped ended 1 = false.
Proof. vm_compute. repeat split. Qed.

Lemma update_nth_ext {A} (f g : A -> A) (l : list A) :
  forall n, (forall x, nth_error l n = Some x -> f x = g x) ->
            update_nth n f l = update_nth n g l.
Proof.
  induction l as [| x l IH]; intros [| n] H; cbn; try reflexivity.
  - rewrite (H x eq_refl). reflexivity.
  - rewrite (IH n H). reflexivity.
Qed.

Lemma stop_stopped t : live t = false -> stop t = t.
Proof. destruct t as [k l c st]; cbn. intros ->. reflexivity. Qed.

(** Ending the video track of a stream whose other tracks have stopped
    leaves the stream as stopping all its tracks does. *)
Lemma endTrack_is_stop_all (tracks : Stream) :
  forall i,
    (forall j t, nth_error tracks j = Some t -> j <> i -> live t = false) ->
    endTrack i tracks = map stop tracks.
Proof.
  unfold endTrack. induction tracks as [| t rest IH]; intros i Hothers; [destruct i; reflexivity |].
  destruct i as [| i]; cbn.
  - f_equal.
    assert (Hrest : forall x, In x rest -> live x = false).
    { intros x Hx. apply In_nth_error in Hx. destruct Hx as (j & Hj).
      apply (Hothers (S j) x Hj). discriminate. }
    clear -Hrest. induction rest as [| x rest IH]; [reflexivity |].
    cbn. rewrite stop_stopped by (apply Hrest; left; reflexivity).
    f_equal. apply IH. intros y Hy. apply Hrest. right. exact Hy.
  - rewrite stop_stopped by (apply (Hothers 0%nat t eq_refl); discriminate).
    f_equal. apply IH. intros j x Hj Hne. apply (Hothers (S j) x Hj). congruence.
Qed.

(** C6.  For every connected device whose stream has no live track besides
    the connection's video track (streams are requested with audio: false,
    so the video track is the stream's only track): when the media layer
    ends that track and fires 'ended', the listener registered by
    connectToCamera leaves the service and every stream exactly as an
    explicit disconnectCamera leaves them.  On both paths the map entry is
    removed, the status is 'disconnected', the table entry is 'available'
    and every track of the stream is stopped.  The paths differ in nothing
    but the text of the status notification. *)
Theorem C6_teardown_paths_converge :
  forall s cameraId c,
    JSMap.get (activeStreams (svc s)) cameraId = Some c ->
    conn_cameraId c = cameraId ->
    (forall j t, nth_error (nth (stream c) (streams (world s)) []) j = Some t ->
                 j <> videoTrack c -> live t = false) ->
    let explicit := step (Disconnect cameraId) s in
    let ended := step (TrackEnded cameraId) s in
    svc ended = svc explicit /\
    streams (world ended) = streams (world explicit) /\
    isConnected ended cameraId = false /\
    getCameraStatus ended cameraId = "disconnected" /\
    (forall camera, JSMap.get (connectedCameras (svc ended)) cameraId = Some camera ->
                    cam_status camera = "available") /\
    allStopped ended (stream c) = true /\
    allStopped explicit (stream c) = true /\
    clock (world ended) = clock (world explicit) /\
    gum_calls (world ended) = gum_calls (world explicit) /\
    errorLog (world ended) = errorLog (world explicit) /\
    statusLog (world explicit)
      = (statusLog (world s) ++ [(cameraId, "disconnected")])%list /\
    statusLog (world ended)
      = (statusLog (world s) ++ [(cameraId, "stream_ended")])%list.
Proof.
  intros s cameraId c Hget Hid Hothers.
  assert (Hstreams : update_nth (stream c) (endTrack (videoTrack c)) (streams (world s))
                     = update_nth (stream c) (map stop) (streams (world s))).
  { apply update_nth_ext. intros tracks Htracks.
    apply endTrack_is_stop_all. intros j t Hj Hne.
    apply (Hothers j t); [| exact Hne].
    rewrite (nth_error_nth _ _ _ Htracks). exact Hj. }
  assert (Hnth : nth (stream c) (update_nth (stream c) (map stop) (streams (world s))) []
                 = map stop (nth (stream c) (streams (world s)) []))
    by (apply nth_update_nth; reflexivity).
  cbn [step]. rewrite Hget.
  unfold allStopped, getCameraStatus, isConnected, JSMap.has, exec, trackEnded,
    disconnectCamera, handleStreamEnd, try_catch, bind, gets, ret, stopAllTracks,
    setStatus, notifyStatusChange, modify, now, updateCamera.
  rewrite Hget, Hid.
  destruct s as [v w]; cbn [svc world] in *.
  cbn -[JSMap.get JSMap.set JSMap.delete update_nth nth].
  rewrite Hstreams.
  destruct (JSMap.get (connectedCameras v) cameraId) as [camera |] eqn:Hcam;
    cbn -[JSMap.get JSMap.set JSMap.delete update_nth nth];
    rewrite ?Hcam; cbn -[JSMap.get JSMap.set JSMap.delete update_nth nth];
    unfold Stream in *; rewrite ?Hnth, ?JSMapFacts.get_delete_same, ?JSMapFacts.get_set_same;
    (split; [reflexivity |]); (split; [reflexivity |]); (split; [reflexivity |]);
    (split; [reflexivity |]); (split; [| repeat split; apply all_stopped_after_stop]).
  - intros camera' Hc. inversion Hc. reflexivity.
  - intros camera' Hc. discriminate.
Qed.

Lemma C6_teardown_witness :
  svc (step (TrackEnded "cam1") cam1_connected)
  = svc (step (Disconnect "cam1") cam1_connected) /\
  streams (world (step (TrackEnded "cam1") cam1_connected))
  = streams (world (step (Disconnect "cam1") cam1_connected)) /\
  allStopped (step (TrackEnded "cam1") cam1_connected) 1 = true.
Proof.
  destruct (C6_teardown_paths_converge cam1_connected "cam1"
              (mkConnection 0 "cam1" 1 0 (mkSettings (Some 1280) (Some 720) (Some 30))
                            (mkConstraints "cam1" (Some 1920) (Some 1080) (Some 30) None)
                            0 true)
              eq_refl eq_refl)
    as (Hsvc & Hstreams & _ & _ & _ & Hstopped & _).
  { intros [| j] t Hj Hne; [contradiction |].
    cbn in Hj. destruct j; discriminate. }
  split; [exact Hsvc |]. split; [exact Hstreams | exact Hstopped].
Defined.

End CameraFacts.

(** * Properties of the alert handling *)
Module DetectionFacts.
Import Detection.


(** The loop at a candidate that is in cooldown: skipped, nothing changes. *)
Lemma alertLoop_skip results alert rest s :
  clock (world s) - lastAlertTime s (alertKey alert) < cooldownPeriod ->
  alertLoop results (alert :: rest) s = alertLoop results rest s.
Proof.
  intros Hcool. cbn [alertLoop]. unfold bind, now, gets. cbv beta iota.
  destruct (Z.ltb_spec (clock (world s) - lastAlertTime s (alertKey alert)) cooldownPeriod);
    [reflexivity | lia].
Qed.

(** The loop at a candidate that passes the cooldown check and whose insert
    is rejected: the loop ends there with the store's error. *)
Lemma alertLoop_rejected results alert rest s e :
  passesCooldown s alert ->
  rejected (nextInsert s) = Some e ->
  alertLoop results (alert :: rest) s = (Throw (JsError e), afterRejectedInsert s).
Proof.
  unfold passesCooldown, nextInsert. intros Hpass Hrej.
  cbn [alertLoop]. unfold bind, now, gets, createAlert, insert. cbv beta iota.
  destruct (Z.ltb_spec (clock (world s) - lastAlertTime s (alertKey alert)) cooldownPeriod);
    [lia |].
  rewrite Hrej. reflexivity.
Qed.

(** The loop over a batch is the loop over its first part followed by the
    loop over the rest. *)
Lemma alertLoop_app results before :
  forall rest s,
    alertLoop results (before ++ rest)%list s =
    match alertLoop results before s with
    | (Ok _, s0) => alertLoop results rest s0
    | (Throw e, s0) => (Throw e, s0)
    end.
Proof.
  induction before as [| alert before IH]; intros rest s; [reflexivity |].
  cbn [app alertLoop].
  unfold bind, now, gets, createAlert, createSystemLog, insert, modify.
  cbv beta iota.
  destruct (Z.ltb (clock (world s) - lastAlertTime s (alertKey alert)) cooldownPeriod);
    [apply IH |].
  destruct (rejected (store (world s) (store_calls (world s)))); [reflexivity |].
  cbn -[alertLoop JSMap.set].
  destruct (rejected (store (world s) (S (store_calls (world s))))); [reflexivity |].
  apply IH.
Qed.

(** C9 (amended).  When the loop reaches a candidate that passes the
    cooldown check and the store rejects its row, the cycle's batch ends
    there: the error is caught by the one handler around the loop and
    handleDetectionResults returns normally, in the state the loop had
    reached plus the one rejected insert.  Nothing is done for the
    candidates after it: no cooldown check that could set a cooldown, no
    insert, no row. *)
Theorem C9_rejected_insert_ends_the_batch :
  forall s results before alert rest e,
    alerts results = (before ++ alert :: rest)%list ->
    result (alertLoop results before) s = Ok tt ->
    let s0 := exec (alertLoop results before) s in
    passesCooldown s0 alert ->
    rejected (nextInsert s0) = Some e ->
    let s' := exec (handleDetectionResults results) s in
    handleDetectionResults results s = (Ok tt, afterRejectedInsert s0) /\
    db_alerts (world s') = db_alerts (world s0) /\
    db_logs (world s') = db_logs (world s0) /\
    alertCooldowns (svc s') = alertCooldowns (svc s0) /\
    store_calls (world s') = S (store_calls (world s0)).
Proof.
  intros s results before alert rest e Halerts Hbefore s0 Hpass Hrej s'.
  assert (Heq : handleDetectionResults results s = (Ok tt, afterRejectedInsert s0)).
  { unfold handleDetectionResults, try_catch. rewrite Halerts, alertLoop_app.
    unfold s0, exec, result in *.
    destruct (alertLoop results before s) as [[[] | e0] s1]; cbn [fst snd] in *;
      [| discriminate].
    rewrite (alertLoop_rejected results alert rest s1 e Hpass Hrej). reflexivity. }
  unfold s', exec. rewrite Heq. cbn. auto.
Qed.

Lemma C9_rejected_insert_witness :
  let s := new_service first_insert_rejected in
  let s' := exec (handleDetectionResults (batch [fight; fall])) s in
  handleDetectionResults (batch [fight; fall]) s = (Ok tt, afterRejectedInsert s) /\
  db_alerts (world s') = db_alerts (world s) /\
  db_logs (world s') = db_logs (world s) /\
  alertCooldowns (svc s') = alertCooldowns (svc s) /\
  store_calls (world s') = S (store_calls (world s)).
Proof.
  apply (C9_rejected_insert_ends_the_batch
           (new_service first_insert_rejected) (batch [fight; fall])
           [] fight [fall] "connection refused").
  - reflexivity.
  - reflexivity.
  - vm_compute. discriminate.
  - reflexivity.
Defined.

(** C9 as stated fails: in a batch of two candidates with different keys,
    the store rejects the first row and would accept any later one.  The
    second candidate is not in cooldown, yet no insert is made for it and no
    row is stored; handed to a cycle of its own right afterwards, it is
    stored. *)
Lemma C9_later_candidate_is_lost :
  let s := new_service first_insert_rejected in
  let s' := exec (handleDetectionResults (batch [fight; fall])) s in
  db_alerts (world s') = [] /\
  store_calls (world s') = 1%nat /\
  JSMap.get (alertCooldowns (svc s')) (alertKey fall) = None /\
  cooldownPeriod <= clock (world s') - lastAlertTime s' (alertKey fall) /\
  rejected (nextInsert s') = None /\
  map event_type (db_alerts (world (exec (handleDetectionResults (batch [fall])) s')))
    = ["fall"].
Proof. vm_compute. repeat split; auto; discriminate. Qed.
End DetectionFacts.

(** * More properties of the backend client *)
Module BackendMoreFacts.
Import Backend BackendFacts BackendApi.

(** *** Cache *)

(** X1.  A read whose cache entry has not expired and holds a truthy payload
    is answered with that payload: no fetch, no change to the breaker, the
    cache or the request counter; only the hit counter moves.  This is so
    whatever the state of the breaker. *)
Theorem cached_read_is_served :
  forall s endpoint options entry,
    isRead options = true ->
    JSMap.get (cache (svc s)) (getCacheKey endpoint options) = Some entry ->
    clock (world s) <= expires entry ->
    truthy (data entry) = true ->
    result (request endpoint options) s = Ok (data entry) /\
    world (exec (request endpoint options) s) = world s /\
    breaker (exec (request endpoint options) s) = breaker s /\
    cache (svc (exec (request endpoint options) s)) = cache (svc s) /\
    requests (metrics (svc (exec (request endpoint options) s)))
      = requests (metrics (svc s)) /\
    cacheHits (metrics (svc (exec (request endpoint options) s)))
      = S (cacheHits (metrics (svc s))).
Proof.
  intros s endpoint options entry Hread Hget Hfresh Htruthy.
  unfold result, exec, request, request_begin, checkCache, getFromCache, bump_hits, now.
  unfold bind, gets, modify, ret.
  rewrite Hread. destruct s as [v w]; cbn [svc world] in *. rewrite Hget.
  cbv beta iota. cbn [svc world].
  destruct (Z.ltb_spec (expires entry) (clock w)) as [Hlt | _]; [lia |].
  cbv beta iota. rewrite Htruthy. cbn. repeat split.
Qed.

Lemma cached_read_is_served_witness :
  let s := cached_health_client in
  let entry := mkEntry (JObj [("ok", JBool true)]) 300000 in
  result (request "/system/health" no_options) s = Ok (data entry) /\
  world (exec (request "/system/health" no_options) s) = world s /\
  breaker (exec (request "/system/health" no_options) s) = breaker s /\
  cache (svc (exec (request "/system/health" no_options) s)) = cache (svc s) /\
  requests (metrics (svc (exec (request "/system/health" no_options) s)))
    = requests (metrics (svc s)) /\
  cacheHits (metrics (svc (exec (request "/system/health" no_options) s)))
    = S (cacheHits (metrics (svc s))).
Proof.
  apply (cached_read_is_served cached_health_client "/system/health" no_options
           (mkEntry (JObj [("ok", JBool true)]) 300000)).
  - reflexivity.
  - reflexivity.
  - vm_compute. discriminate.
  - reflexivity.
Defined.

(** A request that is not answered from the cache and does not find the
    circuit open goes to the network. *)
Lemma unserved_request_fetches endpoint options s :
  servedFromCache endpoint options s = false ->
  state (breaker s) <> Open ->
  exists s1 settled s2,
    request_begin endpoint options s = (Ok ToNetwork, s1) /\
    world s1 = world s /\ breaker s1 = breaker s /\
    executeRequest endpoint options s1 = (settled, s2) /\
    request_end endpoint options settled s2 = request endpoint options s.
Proof.
  intros Hmiss Hclosed.
  unfold request, bind, settle, ret.
  destruct (request_begin endpoint options s) as [g s1] eqn:Hbegin.
  pose proof (request_begin_spec _ _ _ _ _ Hbegin) as (Hw & _ & Hgate).
  destruct g as [[d |] | e].
  - destruct Hgate as (Hhit & _). congruence.
  - destruct Hgate as (_ & [(_ & Hb) | (Hopen & _)]); [| contradiction].
    destruct (executeRequest endpoint options s1) as [settled s2] eqn:Hexec.
    exists s1, settled, s2. auto.
  - destruct Hgate as (_ & _ & Hopen & _). contradiction.
Qed.

(** A successful read with a truthy payload leaves it in the cache, to
    expire defaultTTL after the answer arrived. *)
Lemma read_populates_cache endpoint options s d :
  isRead options = true ->
  servedFromCache endpoint options s = false ->
  result (request endpoint options) s = Ok d ->
  truthy d = true ->
  let s' := exec (request endpoint options) s in
  JSMap.get (cache (svc s')) (getCacheKey endpoint options)
  = Some (mkEntry d (clock (world s') + defaultTTL)).
Proof.
  intros Hread Hmiss Hok Htruthy. unfold result, exec in *.
  destruct (request endpoint options s) as [r s'] eqn:Hreq. cbn [fst snd] in *.
  apply request_course in Hreq.
  destruct Hreq as [d0 s1 Hbegin | e s1 Hbegin | s1 settled s2 r s3 Hbegin Hexec Hend].
  - apply request_begin_spec in Hbegin. destruct Hbegin as (_ & _ & Hhit & _). congruence.
  - discriminate.
  - subst r. destruct settled as [d0 | error].
    + destruct (request_end_ok endpoint options d0 s2) as (s4 & Heq & _).
      rewrite Heq in Hend. inversion Hend; subst d0 s4; clear Hend.
      revert Heq. unfold request_end, updateMetrics, setCache, now.
      unfold bind, gets, when, modify, ret. rewrite Htruthy, Hread.
      destruct s2 as [v2 w2]; cbn [svc world].
      destruct (CircuitState_eqb _ _); cbv beta iota;
        cbn [svc world with_svc set_breaker cache andb];
        intros Heq; inversion Heq; subst; clear Heq;
        cbn -[JSMap.get JSMap.set JSMap.delete Nat.leb];
        apply JSMapFacts.get_set_same.
    + destruct (request_end_throw endpoint options error s2) as (s4 & Heq & _).
      rewrite Heq in Hend. inversion Hend.
Qed.


(** X2.  Cache TTL, the fresh side.  After a read that went to the network
    and was answered with a truthy payload, the same read made up to
    defaultTTL (5 minutes) after that answer is served the same payload from
    the cache, without a fetch. *)
Theorem read_again_within_ttl :
  forall s endpoint options d dt,
    isRead options = true ->
    servedFromCache endpoint options s = false ->
    result (request endpoint options) s = Ok d ->
    truthy d = true ->
    dt <= defaultTTL ->
    let s1 := tick dt (exec (request endpoint options) s) in
    result (request endpoint options) s1 = Ok d /\
    net_calls (world (exec (request endpoint options) s1)) = net_calls (world s1).
Proof.
  intros s endpoint options d dt Hread Hmiss Hok Htruthy Hdt s1.
  pose proof (read_populates_cache endpoint options s d Hread Hmiss Hok Htruthy) as Hget.
  cbv zeta in Hget.
  destruct (cached_read_is_served s1 endpoint options
              (mkEntry d (clock (world (exec (request endpoint options) s)) + defaultTTL)))
    as (Hres & Hworld & _); auto.
  - unfold s1. cbn. lia.
  - rewrite Hworld. auto.
Qed.

Lemma read_again_within_ttl_witness :
  let s := new_service read_then_outage_world in
  let s1 := tick 299000 (exec (request "/cameras" no_options) s) in
  result (request "/cameras" no_options) s1 = Ok (JObj [("ok", JBool true)]) /\
  net_calls (world (exec (request "/cameras" no_options) s1)) = net_calls (world s1).
Proof.
  apply (read_again_within_ttl (new_service read_then_outage_world)
           "/cameras" no_options (JObj [("ok", JBool true)]) 299000).
  - reflexivity.
  - reflexivity.
  - reflexivity.
  - reflexivity.
  - vm_compute. discriminate.
Defined.

Lemma stale_entry_is_not_served endpoint options s entry :
  JSMap.get (cache (svc s)) (getCacheKey endpoint options) = Some entry ->
  expires entry < clock (world s) ->
  servedFromCache endpoint options s = false.
Proof.
  intros Hget Hstale.
  unfold servedFromCache, result, checkCache, getFromCache, bump_misses, now.
  unfold bind, gets, modify, ret.
  destruct (isRead options); [| reflexivity].
  destruct s as [v w]; cbn [svc world] in *. rewrite Hget.
  cbv beta iota. cbn [svc world].
  destruct (Z.ltb_spec (expires entry) (clock w)); [reflexivity | lia].
Qed.

Lemma request_end_world endpoint options settled s :
  world (exec (request_end endpoint options settled) s) = world s.
Proof.
  unfold exec. destruct settled as [d | error].
  - destruct (request_end_ok endpoint options d s) as (s' & -> & Hw & _). exact Hw.
  - destruct (request_end_throw endpoint options error s) as (s' & -> & Hw & _). exact Hw.
Qed.

(** X3.  Cache TTL, the stale side.  A read whose entry has expired is not
    answered from the cache: unless the circuit is open, it makes at least
    one fetch. *)
Theorem expired_entry_goes_to_network :
  forall s endpoint options entry,
    JSMap.get (cache (svc s)) (getCacheKey endpoint options) = Some entry ->
    expires entry < clock (world s) ->
    state (breaker s) <> Open ->
    (net_calls (world s) < net_calls (world (exec (request endpoint options) s)))%nat.
Proof.
  intros s endpoint options entry Hget Hstale Hclosed.
  pose proof (stale_entry_is_not_served endpoint options s entry Hget Hstale) as Hmiss.
  destruct (unserved_request_fetches endpoint options s Hmiss Hclosed)
    as (s1 & settled & s2 & _ & Hw1 & _ & Hexec & Hend).
  unfold exec. rewrite <- Hend.
  change (snd (request_end endpoint options settled s2))
    with (exec (request_end endpoint options settled) s2).
  rewrite request_end_world.
  apply executeRequest_spec in Hexec. destruct Hexec as (_ & Hmore & _).
  rewrite <- Hw1. exact Hmore.
Qed.

Lemma expired_entry_witness :
  let s := tick 300001 (exec (request "/cameras" no_options)
                             (new_service read_then_outage_world)) in
  (net_calls (world s) < net_calls (world (exec (request "/cameras" no_options) s)))%nat.
Proof.
  apply (expired_entry_goes_to_network
           (tick 300001 (exec (request "/cameras" no_options)
                              (new_service read_then_outage_world)))
           "/cameras" no_options (mkEntry (JObj [("ok", JBool true)]) 300000)).
  - reflexivity.
  - vm_compute. reflexivity.
  - vm_compute. discriminate.
Defined.


(** *** The bound on the cache *)

Lemma size_delete_le {V} (m : JSMap.t V) k :
  (JSMap.size (JSMap.delete m k) <= JSMap.size m)%nat.
Proof.
  unfold JSMap.size. induction m as [| [k0 v0] rest IH]; cbn; [lia |].
  destruct (String.eqb k0 k); cbn; lia.
Qed.

Lemma size_delete_first {V} (m : JSMap.t V) k :
  JSMap.first_key m = Some k ->
  (JSMap.size (JSMap.delete m k) < JSMap.size m)%nat.
Proof.
  unfold JSMap.size. destruct m as [| [k0 v0] rest]; cbn; [discriminate |].
  intros H; inversion H; subst. rewrite String.eqb_refl.
  pose proof (size_delete_le rest k) as Hle. unfold JSMap.size in Hle. lia.
Qed.

Lemma size_set_le {V} (m : JSMap.t V) k v :
  (JSMap.size (JSMap.set m k v) <= S (JSMap.size m))%nat.
Proof.
  unfold JSMap.size. induction m as [| [k0 v0] rest IH]; cbn; [lia |].
  destruct (String.eqb k0 k); cbn; lia.
Qed.


Lemma setCache_cache key d s :
  cache (svc (exec (setCache key d) s))
  = JSMap.set (evicted (cache (svc s))) key (mkEntry d (clock (world s) + defaultTTL)).
Proof. destruct s as [v w]. reflexivity. Qed.

Lemma set_after_evict_bounded c key entry :
  (JSMap.size c <= maxSize)%nat ->
  (JSMap.size (JSMap.set (evicted c) key entry) <= maxSize)%nat.
Proof.
  intros Hle. pose proof (size_set_le (evicted c) key entry) as Hset.
  unfold evicted in *.
  destruct (Nat.leb_spec maxSize (JSMap.size c)) as [Hfull | Hroom]; [| lia].
  destruct (JSMap.first_key c) as [k0 |] eqn:Hfirst.
  - pose proof (size_delete_first c k0 Hfirst). lia.
  - destruct c as [| [k0 v0] rest]; [| discriminate].
    cbn in Hfull. unfold maxSize in Hfull. lia.
Qed.

(** What the synchronous prefix of a request can do to the cache and to
    the request counters. *)
Lemma checkCache_frame key options s :
  exists hit s1,
    checkCache key options s = (Ok hit, s1) /\
    world s1 = world s /\
    circuitBreaker (svc s1) = circuitBreaker (svc s) /\
    (cache (svc s1) = cache (svc s) \/ cache (svc s1) = JSMap.delete (cache (svc s)) key) /\
    requests (metrics (svc s1)) = requests (metrics (svc s)) /\
    metric_failures (metrics (svc s1)) = metric_failures (metrics (svc s)).
Proof.
  unfold checkCache. destruct (isRead options).
  - unfold getFromCache, bump_hits, bump_misses, now. unfold bind, gets, modify, ret.
    destruct s as [v w]; cbn [svc world].
    destruct (JSMap.get (cache v) key) as [cached |]; cbn.
    + destruct (Z.ltb (expires cached) (clock w)); cbn.
      * eexists _, _; repeat split; auto.
      * destruct (truthy (data cached)); cbn; eexists _, _; repeat split; auto.
    + eexists _, _; repeat split; auto.
  - eexists _, _; repeat split; auto.
Qed.

Lemma checkBreaker_frame s r s1 :
  checkBreaker s = (r, s1) ->
  cache (svc s1) = cache (svc s) /\ metrics (svc s1) = metrics (svc s).
Proof.
  unfold checkBreaker, now. unfold bind, gets, modify, throw, ret.
  destruct s as [v w]; cbn [svc world].
  destruct (state (circuitBreaker v)); cbn.
  - intros H; inversion H; auto.
  - destruct (Z.ltb _ _); intros H; inversion H; auto.
  - intros H; inversion H; auto.
Qed.

Lemma request_begin_frame endpoint options s g s1 :
  request_begin endpoint options s = (g, s1) ->
  (cache (svc s1) = cache (svc s) \/
   cache (svc s1) = JSMap.delete (cache (svc s)) (getCacheKey endpoint options)) /\
  requests (metrics (svc s1)) = requests (metrics (svc s)) /\
  metric_failures (metrics (svc s1)) = metric_failures (metrics (svc s)).
Proof.
  unfold request_begin, bind.
  destruct (checkCache_frame (getCacheKey endpoint options) options s)
    as (hit & s0 & -> & _ & _ & Hcache & Hreq & Hfail).
  destruct hit as [d |].
  - intros H; inversion H; subst. auto.
  - destruct (checkBreaker s0) as [r s2] eqn:Hcheck.
    apply checkBreaker_frame in Hcheck. destruct Hcheck as (Hc & Hm).
    destruct r; intros H; inversion H; subst; rewrite Hc, Hm; auto.
Qed.

(** What the code after the await can do to the cache and the counters. *)
Lemma request_end_frame endpoint options settled s :
  let s' := exec (request_end endpoint options settled) s in
  match settled with
  | Ok d =>
      (cache (svc s') = cache (svc s) \/
       cache (svc s')
       = JSMap.set (evicted (cache (svc s))) (getCacheKey endpoint options)
                   (mkEntry d (clock (world s) + defaultTTL))) /\
      requests (metrics (svc s')) = S (requests (metrics (svc s))) /\
      metric_failures (metrics (svc s')) = metric_failures (metrics (svc s))
  | Throw _ =>
      cache (svc s') = cache (svc s) /\
      requests (metrics (svc s')) = S (requests (metrics (svc s))) /\
      metric_failures (metrics (svc s')) = S (metric_failures (metrics (svc s)))
  end.
Proof.
  destruct s as [v w]. destruct settled as [d | error].
  - unfold exec, request_end, updateMetrics, setCache, now.
    unfold bind, gets, when, modify, ret. cbn [svc world].
    destruct (CircuitState_eqb (state (circuitBreaker v)) HalfOpen);
      destruct (truthy d && isRead options)%bool; cbn; auto.
  - cbn. auto.
Qed.

(** X4.  The cache never holds more than maxSize (1000) entries, whatever
    calls are made on a fresh client and however they overlap. *)
Theorem cache_never_exceeds_maxSize :
  forall w events,
    (JSMap.size (cache (svc (sys (snd (play events (new_client w)))))) <= maxSize)%nat.
Proof.
  intros w events.
  assert (Hgen : forall c,
             (JSMap.size (cache (svc (sys c))) <= maxSize)%nat ->
             (JSMap.size (cache (svc (sys (snd (play events c))))) <= maxSize)%nat).
  { induction events as [| ev rest IH]; intros c Hc; [exact Hc |].
    cbn [play]. destruct (react ev c) as [o c1] eqn:Hreact.
    assert (Hc1 : (JSMap.size (cache (svc (sys c1))) <= maxSize)%nat).
    { destruct c as [s queue]. cbn [sys] in *.
      destruct ev as [endpoint options | n | dt]; cbn [react sys pending] in Hreact.
      - destruct (request_begin endpoint options s) as [g s1] eqn:Hbegin.
        apply request_begin_frame in Hbegin. destruct Hbegin as (Hcache & _).
        pose proof (size_delete_le (cache (svc s)) (getCacheKey endpoint options)).
        assert ((JSMap.size (cache (svc s1)) <= maxSize)%nat)
          by (destruct Hcache as [-> | ->]; lia).
        destruct g as [[d |] | e]; inversion Hreact; subst; exact H0.
      - destruct (nth_error queue n) as [[endpoint options] |];
          [| inversion Hreact; subst; exact Hc].
        destruct (executeRequest endpoint options s) as [settled s1] eqn:Hexec.
        apply executeRequest_spec in Hexec. destruct Hexec as ((_ & Hcache & _) & _).
        pose proof (request_end_frame endpoint options settled s1) as Hend.
        unfold exec in Hend.
        destruct (request_end endpoint options settled s1) as [r s2].
        inversion Hreact; subst; clear Hreact. cbn [sys snd] in *.
        destruct settled as [d | error].
        + destruct Hend as ([-> | ->] & _); [rewrite Hcache; exact Hc |].
          apply set_after_evict_bounded. rewrite Hcache. exact Hc.
        + destruct Hend as (-> & _). rewrite Hcache. exact Hc.
      - inversion Hreact; subst. exact Hc. }
    specialize (IH c1 Hc1). destruct (play rest c1) as [rs c2]. exact IH. }
  apply Hgen. cbn. unfold maxSize. lia.
Qed.

(** X5.  Eviction goes by insertion order, not by use.  When the cache is
    full, caching a new key removes the key that was inserted first, even
    if that key was read (and served) just before; every other entry
    stays. *)
Theorem full_cache_evicts_first_inserted :
  forall s key d oldest entry,
    (maxSize <= JSMap.size (cache (svc s)))%nat ->
    JSMap.first_key (cache (svc s)) = Some oldest ->
    JSMap.get (cache (svc s)) oldest = Some entry ->
    clock (world s) <= expires entry ->
    oldest <> key ->
    let s1 := exec (getFromCache oldest) s in
    let s2 := exec (setCache key d) s1 in
    result (getFromCache oldest) s = Ok (Some (data entry)) /\
    JSMap.get (cache (svc s2)) oldest = None /\
    JSMap.get (cache (svc s2)) key = Some (mkEntry d (clock (world s) + defaultTTL)) /\
    (forall k, k <> oldest -> k <> key ->
               JSMap.get (cache (svc s2)) k = JSMap.get (cache (svc s)) k).
Proof.
  intros s key d oldest entry Hfull Hfirst Hget Hfresh Hne s1 s2.
  assert (Hread : getFromCache oldest s = (Ok (Some (data entry)), s)).
  { unfold getFromCache, now. unfold bind, gets, modify, ret.
    rewrite Hget. cbv beta iota.
    destruct (Z.ltb_spec (expires entry) (clock (world s))); [lia | reflexivity]. }
  assert (Hs1 : s1 = s) by (unfold s1, exec; rewrite Hread; reflexivity).
  unfold s2. rewrite Hs1, setCache_cache. unfold result. rewrite Hread. cbn [fst].
  unfold evicted. rewrite Hfirst.
  destruct (Nat.leb_spec maxSize (JSMap.size (cache (svc s)))); [| lia].
  split; [reflexivity |]. split; [| split].
  - rewrite JSMapFacts.get_set_other by congruence. apply JSMapFacts.get_delete_same.
  - apply JSMapFacts.get_set_same.
  - intros k Hk1 Hk2. rewrite JSMapFacts.get_set_other by congruence.
    rewrite JSMapFacts.get_delete.
    destruct (String.eqb_spec oldest k); [congruence | reflexivity].
Qed.

Lemma full_cache_evicts_witness :
  let s := full_cache_client in
  let s1 := exec (getFromCache "/k0_{}") s in
  let s2 := exec (setCache "/new_{}" (JStr "n")) s1 in
  result (getFromCache "/k0_{}") s = Ok (Some (JStr "v")) /\
  JSMap.get (cache (svc s2)) "/k0_{}" = None /\
  JSMap.get (cache (svc s2)) "/new_{}"
    = Some (mkEntry (JStr "n") (clock (world s) + defaultTTL)) /\
  (forall k, k <> "/k0_{}" -> k <> "/new_{}" ->
             JSMap.get (cache (svc s2)) k = JSMap.get (cache (svc s)) k).
Proof.
  apply (full_cache_evicts_first_inserted full_cache_client "/new_{}" (JStr "n")
           "/k0_{}" (mkEntry (JStr "v") 1000000)).
  - vm_compute. reflexivity.
  - vm_compute. reflexivity.
  - vm_compute. reflexivity.
  - vm_compute. discriminate.
  - discriminate.
Defined.


(** *** The retry budget *)

Lemma retryLoop_budget n :
  forall attempt lastError s,
    (S n + attempt = S maxRetries)%nat ->
    let s' := exec (retryLoop (S n) attempt lastError) s in
    exists k,
      (k <= n)%nat /\
      sleeps (world s') = (sleeps (world s) ++ map backoff (seq attempt k))%list /\
      net_calls (world s') = (net_calls (world s) + S k)%nat /\
      clock (world s') = clock (world s) + fold_right Z.add 0 (map backoff (seq attempt k)).
Proof.
  induction n as [| n IH]; intros attempt lastError s Hsum s'; subst s';
    unfold exec; rewrite retryLoop_step;
    destruct (attemptFetch s) as [[d | error] s1] eqn:Hfetch;
    apply attemptFetch_spec in Hfetch;
    destruct Hfetch as (_ & Hcalls & Hsleeps & Hclock & _); cbn [snd].
  - exists 0%nat. cbn. rewrite app_nil_r. repeat split; try lia; congruence.
  - unfold maxRetries in *. assert (attempt = 3%nat) by lia. subst attempt.
    cbn [Nat.ltb Nat.leb andb snd].
    exists 0%nat. cbn. rewrite app_nil_r. repeat split; try lia; congruence.
  - exists 0%nat. cbn. rewrite app_nil_r. repeat split; try lia; congruence.
  - destruct (Nat.ltb attempt maxRetries && shouldRetry error)%bool.
    + pose proof (sleep_spec (backoff attempt) s1) as (_ & Hc2 & _ & Hs2).
      assert (Hk2 : clock (world (exec (sleep (backoff attempt)) s1))
                    = clock (world s1) + backoff attempt)
        by (destruct s1 as [v1 w1]; reflexivity).
      destruct (IH (S attempt) error (exec (sleep (backoff attempt)) s1))
        as (k & Hk & Hsl & Hnc & Hcl); [lia |].
      exists (S k). cbn [seq map fold_right].
      split; [lia |]. split; [| split].
      * unfold exec in *. rewrite Hsl, Hs2, Hsleeps, <- app_assoc. reflexivity.
      * unfold exec in *. rewrite Hnc, Hc2, Hcalls. lia.
      * unfold exec in *. rewrite Hcl, Hk2, Hclock. lia.
    + exists 0%nat. cbn. rewrite app_nil_r. repeat split; try lia; congruence.
Qed.

Lemma executeRequest_budget endpoint options s :
  let s' := exec (executeRequest endpoint options) s in
  exists k,
    (k <= maxRetries)%nat /\
    sleeps (world s') = (sleeps (world s) ++ firstn k backoffLadder)%list /\
    net_calls (world s') = (net_calls (world s) + S k)%nat /\
    clock (world s') = clock (world s) + fold_right Z.add 0 (firstn k backoffLadder).
Proof.
  unfold executeRequest.
  destruct (retryLoop_budget maxRetries 0 JsUndefined s) as (k & Hk & Hsl & Hnc & Hcl);
    [reflexivity |].
  exists k. cbv zeta. rewrite Hsl, Hnc, Hcl. unfold maxRetries in *.
  assert (Hladder : map backoff (seq 0 k) = firstn k backoffLadder).
  { destruct k as [| [| [| [| k]]]]; try reflexivity. lia. }
  rewrite Hladder. auto.
Qed.

(** X6.  The retry budget of one request: it makes no fetch at all (answered
    from the cache, or stopped by the open circuit) or between one and four
    fetches; between two fetches it sleeps, 1 s, then 2 s, then 4 s, so one
    fetch fewer sleeps than fetches, at most 7 s in all, and the 10 s cap
    is never reached. *)
Theorem request_retry_budget :
  forall s endpoint options,
    let s' := exec (request endpoint options) s in
    exists k,
      (k <= 3)%nat /\
      sleeps (world s') = (sleeps (world s) ++ firstn k backoffLadder)%list /\
      clock (world s') = clock (world s) + fold_right Z.add 0 (firstn k backoffLadder) /\
      clock (world s') <= clock (world s) + 7000 /\
      ((net_calls (world s') = net_calls (world s) /\ k = 0%nat) \/
       net_calls (world s') = (net_calls (world s) + S k)%nat).
Proof.
  intros s endpoint options s'. subst s'. unfold exec.
  destruct (request endpoint options s) as [r s'] eqn:Hreq. cbn [snd].
  apply request_course in Hreq.
  destruct Hreq as [d s1 Hbegin | e s1 Hbegin | s1 settled s2 r s3 Hbegin Hexec Hend];
    apply request_begin_spec in Hbegin; destruct Hbegin as (Hw & _).
  - exists 0%nat. rewrite Hw. cbn. rewrite app_nil_r.
    repeat split; lia.
  - exists 0%nat. rewrite Hw. cbn. rewrite app_nil_r.
    repeat split; lia.
  - pose proof (executeRequest_budget endpoint options s1) as (k & Hk & Hsl & Hnc & Hcl).
    unfold exec in Hsl, Hnc, Hcl. rewrite Hexec in Hsl, Hnc, Hcl. cbn [snd] in *.
    pose proof (request_end_world endpoint options settled s2) as Hw3.
    unfold exec in Hw3. rewrite Hend in Hw3. cbn [snd] in Hw3.
    exists k. rewrite Hw3, Hsl, Hnc, Hcl, Hw. unfold maxRetries in Hk.
    split; [exact Hk |]. split; [reflexivity |]. split; [reflexivity |].
    split; [| right; reflexivity].
    destruct k as [| [| [| [| k]]]]; cbn; lia.
Qed.


(** *** Counters *)

(** X7.  The failure counter is cumulative.  A request that succeeds while
    the circuit is closed leaves the breaker as it is: the failures counted
    so far still count towards the threshold of 5, so failures need not be
    consecutive to open the circuit. *)
Theorem success_while_closed_keeps_the_count :
  forall s endpoint options d,
    state (breaker s) = Closed ->
    result (request endpoint options) s = Ok d ->
    breaker (exec (request endpoint options) s) = breaker s.
Proof.
  intros s endpoint options d Hclosed Hok. unfold result, exec in *.
  destruct (request endpoint options s) as [r s'] eqn:Hreq. cbn [fst snd] in *. subst r.
  apply request_course in Hreq.
  inversion Hreq as [d0 s1 Hbegin | e s1 Hbegin | s1 settled s2 r s3 Hbegin Hexec Hend];
    subst.
  - apply request_begin_spec in Hbegin. destruct Hbegin as (_ & _ & _ & Hb). exact Hb.
  - apply request_begin_spec in Hbegin. destruct Hbegin as (_ & _ & _ & Hb1).
    destruct Hb1 as [(_ & Hb1) | (Hopen & _)]; [| congruence].
    apply executeRequest_spec in Hexec. destruct Hexec as ((Hb2 & _) & _).
    fold (breaker s2) in Hb2. fold (breaker s1) in Hb2.
    destruct settled as [d0 | error].
    + destruct (request_end_ok endpoint options d0 s2) as (s4 & Heq & _ & _ & Hb4).
      rewrite Heq in Hend. inversion Hend; subst.
      rewrite Hb4, Hb2, Hb1, Hclosed. reflexivity.
    + destruct (request_end_throw endpoint options error s2) as (s4 & Heq & _).
      rewrite Heq in Hend. inversion Hend.
Qed.

Lemma success_while_closed_witness :
  let s := sys (snd (play (List.concat (repeat (call "/alerts" post) 5))
                          (new_client (mkWorld 0 (fun n => if Nat.ltb n 16
                                                           then FetchRejects "Failed to fetch"
                                                           else ok_response)
                                               0 [] None 0)))) in
  failures (breaker s) = 4%nat /\
  breaker (exec (request "/alerts" post) s) = breaker s.
Proof.
  split; [reflexivity |].
  eapply (success_while_closed_keeps_the_count _ "/alerts" post (JObj [("ok", JBool true)])).
  - reflexivity.
  - reflexivity.
Defined.

(** X8.  On a fresh client, whatever calls are made and however they
    overlap, the failure metric never exceeds the request metric, and the
    breaker's failure counter never exceeds the failure metric. *)
Theorem counters_are_ordered :
  forall w events,
    let s := sys (snd (play events (new_client w))) in
    (metric_failures (metrics (svc s)) <= requests (metrics (svc s)))%nat /\
    (failures (breaker s) <= metric_failures (metrics (svc s)))%nat.
Proof.
  intros w events.
  set (ordered := fun s : Sys =>
         (metric_failures (metrics (svc s)) <= requests (metrics (svc s)))%nat /\
         (failures (breaker s) <= metric_failures (metrics (svc s)))%nat).
  assert (Hgen : forall c, ordered (sys c) -> ordered (sys (snd (play events c)))).
  { induction events as [| ev rest IH]; intros c Hc; [exact Hc |].
    cbn [play]. destruct (react ev c) as [o c1] eqn:Hreact.
    assert (Hc1 : ordered (sys c1)).
    { destruct c as [s queue]. cbn [sys] in *. unfold ordered in *.
      destruct ev as [endpoint options | n | dt]; cbn [react sys pending] in Hreact.
      - destruct (request_begin endpoint options s) as [g s1] eqn:Hbegin.
        pose proof (request_begin_frame _ _ _ _ _ Hbegin) as (_ & Hreq & Hfail).
        apply request_begin_spec in Hbegin. destruct Hbegin as (_ & _ & Hgate).
        assert (Hf : failures (breaker s1) = failures (breaker s)).
        { destruct g as [[d |] | e].
          - destruct Hgate as (_ & ->). reflexivity.
          - destruct Hgate as (_ & [(_ & ->) | (_ & _ & ->)]); reflexivity.
          - destruct Hgate as (_ & _ & _ & _ & ->). reflexivity. }
        assert (Hord : (metric_failures (metrics (svc s1)) <= requests (metrics (svc s1)))%nat /\
                       (failures (breaker s1) <= metric_failures (metrics (svc s1)))%nat)
          by (rewrite Hreq, Hfail, Hf; exact Hc).
        destruct g as [[d |] | e]; inversion Hreact; subst; exact Hord.
      - destruct (nth_error queue n) as [[endpoint options] |];
          [| inversion Hreact; subst; exact Hc].
        destruct (executeRequest endpoint options s) as [settled s1] eqn:Hexec.
        apply executeRequest_spec in Hexec. destruct Hexec as ((Hb1 & _ & Hm1 & _) & _).
        fold (breaker s1) in Hb1. fold (breaker s) in Hb1.
        pose proof (request_end_frame endpoint options settled s1) as Hend.
        unfold exec in Hend.
        destruct settled as [d | error].
        + destruct (request_end_ok endpoint options d s1) as (s2 & Heq & _ & _ & Hb2).
          rewrite Heq in Hreact, Hend. inversion Hreact; subst; clear Hreact.
          cbn [sys snd] in *. destruct Hend as (_ & Hreq & Hfail).
          rewrite Hreq, Hfail, Hb2, Hb1, Hm1.
          destruct (CircuitState_eqb (state (breaker s)) HalfOpen); cbn [failures]; lia.
        + destruct (request_end_throw endpoint options error s1)
            as (s2 & Heq & _ & _ & _ & Hb2).
          rewrite Heq in Hreact, Hend. inversion Hreact; subst; clear Hreact.
          cbn [sys snd] in *. destruct Hend as (_ & Hreq & Hfail).
          rewrite Hreq, Hfail, Hb2, Hb1, Hm1. cbn [failures]. lia.
      - inversion Hreact; subst. exact Hc. }
    specialize (IH c1 Hc1). destruct (play rest c1) as [rs c2]. exact IH. }
  apply Hgen. unfold ordered. cbn. lia.
Qed.

(** X9.  A request with a mutating verb (POST, PUT or DELETE) bypasses the
    cache in both directions.  It is never answered from the cache, even
    when the key holds a fresh entry: unless the circuit is open it goes to
    the network.  And whatever its outcome, the cache afterwards is the
    cache before: nothing is stored for it and nothing is invalidated. *)
Theorem mutating_request_bypasses_the_cache :
  forall endpoint options s,
    isRead options = false ->
    let s' := exec (request endpoint options) s in
    cache (svc s') = cache (svc s) /\
    servedFromCache endpoint options s = false /\
    (state (breaker s) <> Open -> (net_calls (world s) < net_calls (world s'))%nat).
Proof.
  intros endpoint options s Hmut.
  assert (Hmiss : servedFromCache endpoint options s = false).
  { unfold servedFromCache, result, checkCache. rewrite Hmut. reflexivity. }
  split; [apply mutating_request_keeps_cache; exact Hmut |].
  split; [exact Hmiss |].
  intros Hclosed.
  destruct (unserved_request_fetches endpoint options s Hmiss Hclosed)
    as (s1 & settled & s2 & _ & Hw1 & _ & Hexec & Hend).
  apply executeRequest_spec in Hexec. destruct Hexec as (_ & Hcalls & _).
  unfold exec. rewrite <- Hend.
  destruct settled as [d | error].
  - destruct (request_end_ok endpoint options d s2) as (s3 & Heq & Hw & _).
    rewrite Heq. cbn [snd]. rewrite Hw, <- Hw1. exact Hcalls.
  - destruct (request_end_throw endpoint options error s2) as (s3 & Heq & Hw & _).
    rewrite Heq. cbn [snd]. rewrite Hw, <- Hw1. exact Hcalls.
Qed.

Lemma mutating_request_witness :
  JSMap.has (cache (svc cached_health_client)) (getCacheKey "/system/health" post) = true /\
  cache (svc (exec (request "/system/health" post) cached_health_client))
  = cache (svc cached_health_client).
Proof.
  split; [reflexivity |].
  apply (mutating_request_bypasses_the_cache "/system/health" post cached_health_client).
  reflexivity.
Defined.

(** *** Health check *)

(** X10.  healthCheck never throws, and while the circuit is open and the
    reset timeout has not passed it makes no fetch: it reports the cached
    answer as healthy if /system/health is in the cache and fresh, and
    otherwise reports unhealthy with the circuit-open message. *)
Theorem healthCheck_with_open_circuit :
  forall s,
    state (breaker s) = Open ->
    since_failure s < resetTimeout ->
    net_calls (world (exec healthCheck s)) = net_calls (world s) /\
    ((servedFromCache "/system/health" no_options s = true /\
      exists d, result healthCheck s = Ok (Healthy d)) \/
     (servedFromCache "/system/health" no_options s = false /\
      result healthCheck s = Ok (Unhealthy (message_of circuitOpenError)))).
Proof.
  intros s Hopen Hsoon.
  unfold healthCheck, getSystemHealth, result, exec, try_catch, bind, ret.
  destruct (request "/system/health" no_options s) as [r s'] eqn:Hreq.
  destruct (servedFromCache "/system/health" no_options s) eqn:Hserved.
  - apply request_course in Hreq.
    destruct Hreq as [d s1 Hbegin | e s1 Hbegin | s1 settled s2 r s3 Hbegin Hexec Hend];
      apply request_begin_spec in Hbegin; destruct Hbegin as (Hw & _ & Hgate).
    + cbn. rewrite Hw. split; [reflexivity |]. left. split; [reflexivity |].
      exists d. reflexivity.
    + destruct Hgate as (Hmiss & _). congruence.
    + destruct Hgate as (Hmiss & _). congruence.
  - destruct (open_request _ _ _ _ _ Hreq Hopen Hserved)
      as [(_ & -> & Hw & _) | (Hge & _)]; [| lia].
    cbn. rewrite Hw. split; [reflexivity |]. right. auto.
Qed.

Lemma healthCheck_with_open_circuit_witness :
  let s := sys (snd (play five_posts (mkClient cached_health_client []))) in
  net_calls (world (exec healthCheck s)) = net_calls (world s) /\
  ((servedFromCache "/system/health" no_options s = true /\
    exists d, result healthCheck s = Ok (Healthy d)) \/
   (servedFromCache "/system/health" no_options s = false /\
    result healthCheck s = Ok (Unhealthy (message_of circuitOpenError)))).
Proof.
  apply (healthCheck_with_open_circuit
           (sys (snd (play five_posts (mkClient cached_health_client []))))).
  - reflexivity.
  - vm_compute. reflexivity.
Defined.

End BackendMoreFacts.

(** * Properties of the realtime channel *)
Module RealtimeFacts.
Import Backend Realtime.

Lemma reconnectDelay_bounds a : 1000 <= reconnectDelay a <= 30000.
Proof.
  unfold reconnectDelay.
  assert (0 < 2 ^ Z.of_nat a) by (apply Z.pow_pos_nonneg; lia).
  lia.
Qed.

(** What one signal does to the reconnect bookkeeping: nothing, a reset of
    the attempt counter, a timer fired, or one more timer set. *)
Lemma react_timers sig l :
  let l' := react sig l in
  (timers l' = timers l /\
   (reconnectAttempts l' = reconnectAttempts l \/
    (isOpened sig = true /\ reconnectAttempts l' = 0%nat)) /\
   (pendingTimers l' <= pendingTimers l)%nat) \/
  ((reconnectAttempts l < maxReconnectAttempts)%nat /\
   timers l' = (timers l ++ [reconnectDelay (reconnectAttempts l)])%list /\
   reconnectAttempts l' = S (reconnectAttempts l) /\
   pendingTimers l' = S (pendingTimers l)).
Proof.
  destruct sig as [h | h | h | h frame | constructs | constructs |]; cbn [react isOpened].
  - destruct (ReadyState_eqb (readyState l h) CONNECTING); cbn; left; auto.
  - destruct (Nat.ltb h (List.length (sockets l)) &&
              negb (ReadyState_eqb (readyState l h) CLOSED))%bool;
      [| cbn; left; auto].
    unfold scheduleReconnect. cbn [reconnectAttempts set_readyState].
    destruct (Nat.leb_spec maxReconnectAttempts (reconnectAttempts l));
      cbn; [left; auto | right; auto].
  - left; auto.
  - destruct (ReadyState_eqb (readyState l h) OPEN); [| left; auto].
    destruct frame as [| data]; cbn [onmessage]; [left; auto |].
    unfold handleWebSocketMessage.
    destruct (property data "type") as [t | e]; cbn [snd]; [| left; auto].
    destruct (is_type t "alert"); [cbn; left; auto |].
    destruct (is_type t "camera_status"); [cbn; left; auto |].
    destruct (is_type t "system_update"); cbn; left; auto.
  - destruct (pendingTimers l) as [| n] eqn:Hp; [left; rewrite Hp; auto |].
    unfold connectWebSocket. cbn [websocket].
    destruct (match websocket l with Some _ => _ | None => _ end);
      [| destruct constructs]; cbn; left; repeat split; auto; lia.
  - unfold connectWebSocket.
    destruct (match websocket l with Some _ => _ | None => _ end);
      [| destruct constructs]; cbn; left; auto.
  - unfold logout, close.
    destruct (websocket l) as [h |]; [| cbn; left; auto].
    destruct (readyState l h); try (cbn; left; auto; fail);
      destruct (Nat.ltb h (List.length (sockets l))); cbn; left; auto.
Qed.

(** X11.  On a fresh client, whatever happens to the channel, the attempt
    counter never exceeds 10, every reconnect timer is set for between 1 s
    and 30 s, and no more timers are pending than were set. *)
Theorem reconnect_bookkeeping_bounded :
  forall w signals,
    let l := run signals (new_link w) in
    (reconnectAttempts l <= maxReconnectAttempts)%nat /\
    Forall (fun d => 1000 <= d <= 30000) (timers l) /\
    (pendingTimers l <= List.length (timers l))%nat.
Proof.
  intros w signals.
  set (good := fun l : Link =>
         (reconnectAttempts l <= maxReconnectAttempts)%nat /\
         Forall (fun d => 1000 <= d <= 30000) (timers l) /\
         (pendingTimers l <= List.length (timers l))%nat).
  assert (Hgen : forall l, good l -> good (run signals l)).
  { induction signals as [| sig rest IH]; intros l Hl; [exact Hl |].
    cbn [run fold_left]. apply IH. unfold good in *.
    destruct Hl as (Ha & Hd & Hp).
    destruct (react_timers sig l) as [(Ht & Hat & Hpt) | (Hlt & Ht & Hat & Hpt)];
      rewrite Ht.
    - split; [destruct Hat as [-> | (_ & ->)]; lia |]. split; [exact Hd | lia].
    - rewrite Hat, Hpt. split; [lia |]. split.
      + apply Forall_app. split; [exact Hd |]. constructor; [| constructor].
        apply reconnectDelay_bounds.
      + rewrite length_app. cbn. lia. }
  apply Hgen. unfold good. cbn. split; [unfold maxReconnectAttempts; lia |].
  split; [constructor | lia].
Qed.

(** X12.  The client gives up reconnecting.  As long as no socket opens, the
    timers it sets follow the ladder 1, 2, 4, 8, 16 and then 30 seconds,
    one per counted attempt, and once the counter has reached 10 no further
    timer is set. *)
Theorem reconnect_gives_up :
  forall l signals,
    forallb (fun sig => negb (isOpened sig)) signals = true ->
    exists k,
      (reconnectAttempts l + k <= Nat.max (reconnectAttempts l) maxReconnectAttempts)%nat /\
      reconnectAttempts (run signals l) = (reconnectAttempts l + k)%nat /\
      timers (run signals l)
      = (timers l ++ map reconnectDelay (seq (reconnectAttempts l) k))%list.
Proof.
  intros l signals. revert l.
  induction signals as [| sig rest IH]; intros l Hall.
  - exists 0%nat. cbn. rewrite app_nil_r. repeat split; lia.
  - cbn [forallb] in Hall. apply andb_true_iff in Hall. destruct Hall as (Hsig & Hrest).
    destruct (IH (react sig l) Hrest) as (k & Hk & Hat & Ht).
    cbn [run fold_left]. fold (run rest (react sig l)).
    destruct (react_timers sig l) as [(Ht1 & Hat1 & _) | (Hlt & Ht1 & Hat1 & _)].
    + destruct Hat1 as [Hat1 | (Hop & _)];
        [| rewrite Hop in Hsig; discriminate].
      exists k. rewrite Hat, Ht, Ht1, Hat1. rewrite Hat1 in Hk. auto.
    + exists (S k). rewrite Hat, Ht, Ht1, Hat1. rewrite Hat1 in Hk.
      unfold maxReconnectAttempts in *.
      split; [lia |]. split; [lia |].
      cbn [seq map]. rewrite <- app_assoc. reflexivity.
Qed.

Lemma reconnect_gives_up_witness :
  exists k,
    (reconnectAttempts open_link + k
     <= Nat.max (reconnectAttempts open_link) maxReconnectAttempts)%nat /\
    reconnectAttempts (run [Closed 0; TimerFired true; Closed 1] open_link)
    = (reconnectAttempts open_link + k)%nat /\
    timers (run [Closed 0; TimerFired true; Closed 1] open_link)
    = (timers open_link ++ map reconnectDelay (seq (reconnectAttempts open_link) k))%list.
Proof.
  apply (reconnect_gives_up open_link [Closed 0; TimerFired true; Closed 1]).
  reflexivity.
Defined.


Lemma reconnectLadder_is_delays : map reconnectDelay (seq 0 10) = reconnectLadder.
Proof. reflexivity. Qed.

Lemma nth_replace_nth {A} (l : list A) :
  forall n x d, (n < List.length l)%nat -> nth n (replace_nth n x l) d = x.
Proof.
  induction l as [| y l IH]; intros [| n] x d Hn; cbn in *; try lia; auto.
  apply IH. lia.
Qed.

Lemma length_replace_nth {A} (l : list A) :
  forall n x, List.length (replace_nth n x l) = List.length l.
Proof. induction l as [| y l IH]; intros [| n] x; cbn; auto. Qed.

Lemma open_socket_exists l h :
  readyState l h = OPEN -> (h < List.length (sockets l))%nat.
Proof.
  unfold readyState. intros Hopen.
  destruct (Nat.lt_ge_cases h (List.length (sockets l))) as [Hlt | Hge]; [exact Hlt |].
  rewrite nth_overflow in Hopen by exact Hge. discriminate.
Qed.

(** X13.  logout always clears the credentials: whatever the logout request
    does (succeed, fail, or be stopped by the open circuit), the token is
    null in the client and removed from localStorage and the socket
    reference is dropped.  It does not stop reconnection: the socket it
    closed still fires its close event, which sets a reconnect timer, and
    when that timer fires a new socket is constructed. *)
Theorem logout_clears_credentials_but_reconnects :
  (forall l,
      token (svc (client (logout l))) = None /\
      storedToken (world (client (logout l))) = None /\
      websocket (logout l) = None) /\
  (forall l h,
      websocket l = Some h ->
      readyState l h = OPEN ->
      (reconnectAttempts l < maxReconnectAttempts)%nat ->
      let l1 := logout l in
      let l2 := run [Closed h; TimerFired true] l1 in
      readyState l1 h = CLOSING /\
      timers l2 = (timers l ++ [reconnectDelay (reconnectAttempts l)])%list /\
      websocket l2 = Some (List.length (sockets l)) /\
      readyState l2 (List.length (sockets l)) = CONNECTING /\
      token (svc (client l2)) = None).
Proof.
  split.
  - intros l. unfold logout. destruct (websocket l); cbn; auto.
  - intros l h Hws Hopen Hlt l1 l2.
    pose proof (open_socket_exists l h Hopen) as Hh.
    assert (Hl1 : l1 = mkLink (client (logout l)) None (reconnectAttempts l)
                              (replace_nth h CLOSING (sockets l)) (timers l)
                              (pendingTimers l) (dispatched l)).
    { unfold l1, logout, close. rewrite Hws, Hopen.
      destruct (Nat.ltb_spec h (List.length (sockets l))); [reflexivity | lia]. }
    assert (Hstate1 : readyState l1 h = CLOSING).
    { rewrite Hl1. unfold readyState. cbn [sockets]. apply nth_replace_nth. exact Hh. }
    split; [exact Hstate1 |].
    assert (Htok : token (svc (client (logout l))) = None)
      by (unfold logout; rewrite Hws; reflexivity).
    unfold l2. rewrite Hl1. clear Hstate1 Hl1 l1 l2.
    set (l1 := mkLink (client (logout l)) None (reconnectAttempts l)
                      (replace_nth h CLOSING (sockets l)) (timers l)
                      (pendingTimers l) (dispatched l)).
    assert (Hclosed : react (Closed h) l1
                      = mkLink (client (logout l)) None (S (reconnectAttempts l))
                               (replace_nth h CLOSED (replace_nth h CLOSING (sockets l)))
                               (timers l ++ [reconnectDelay (reconnectAttempts l)])%list
                               (S (pendingTimers l)) (dispatched l)).
    { cbn [react]. unfold readyState, l1. cbn [sockets].
      rewrite nth_replace_nth by exact Hh. rewrite length_replace_nth.
      destruct (Nat.ltb_spec h (List.length (sockets l))); [| lia].
      cbn [ReadyState_eqb negb andb].
      unfold scheduleReconnect, set_readyState. cbn [reconnectAttempts].
      destruct (Nat.leb_spec maxReconnectAttempts (reconnectAttempts l)); [lia |].
      reflexivity. }
    cbn [run fold_left]. rewrite Hclosed. cbn [react pendingTimers].
    unfold connectWebSocket. cbn [websocket].
    cbn [timers websocket sockets client readyState].
    rewrite !length_replace_nth.
    split; [reflexivity |]. split; [reflexivity |].
    split; [| exact Htok].
    unfold readyState. cbn [sockets].
    rewrite app_nth2 by (rewrite !length_replace_nth; lia).
    rewrite !length_replace_nth, Nat.sub_diag. reflexivity.
Qed.

Lemma logout_witness :
  let l1 := logout open_link in
  let l2 := run [Closed 0; TimerFired true] l1 in
  readyState l1 0 = CLOSING /\
  timers l2 = (timers open_link ++ [reconnectDelay (reconnectAttempts open_link)])%list /\
  websocket l2 = Some (List.length (sockets open_link)) /\
  readyState l2 (List.length (sockets open_link)) = CONNECTING /\
  token (svc (client l2)) = None.
Proof.
  apply (proj2 logout_clears_credentials_but_reconnects open_link 0%nat).
  - reflexivity.
  - reflexivity.
  - vm_compute. lia.
Defined.

(** X14.  A message can only add one window event.  Text that does not
    parse, or that parses to null, is dropped without any effect; every
    other frame dispatches exactly one event, named after its type when
    that is 'alert', 'camera_status' or 'system_update' and
    'realtime:message' otherwise, and changes nothing else. *)
Theorem message_dispatches_at_most_one_event :
  forall l frame,
    (frame = Garbled \/ frame = Parses JNull -> onmessage frame l = l) /\
    (forall data,
        frame = Parses data -> data <> JNull ->
        exists name detail,
          onmessage frame l = dispatch name detail l /\
          In name ["realtime:alert"; "realtime:camera"; "realtime:system";
                   "realtime:message"] /\
          (name = "realtime:alert" <-> property data "type" = Ok (Some (JStr "alert")))).
Proof.
  intros l frame. split.
  - intros [-> | ->]; reflexivity.
  - intros data -> Hnn. cbn [onmessage]. unfold handleWebSocketMessage.
    destruct (property data "type") as [t | e] eqn:Hprop.
    + destruct (is_type t "alert") eqn:Ha.
      * eexists _, _. split; [reflexivity |]. split; [cbn; auto |].
        split; [intros _ | reflexivity].
        destruct t as [[| | | s | |] |]; try discriminate.
        cbn in Ha. apply String.eqb_eq in Ha. subst. reflexivity.
      * assert (Hnot : Ok t <> Ok (Some (JStr "alert")))
          by (intros H; inversion H; subst; discriminate).
        destruct (is_type t "camera_status");
          [| destruct (is_type t "system_update")];
          eexists _, _; (split; [reflexivity |]); (split; [cbn; auto |]);
          (split; [discriminate | intros H; contradiction]).
    + destruct data; try discriminate. contradiction.
Qed.

Lemma message_witness :
  exists name detail,
    onmessage (Parses (JObj [("type", JStr "alert"); ("payload", JNum 7)])) open_link
    = dispatch name detail open_link /\
    In name ["realtime:alert"; "realtime:camera"; "realtime:system"; "realtime:message"] /\
    (name = "realtime:alert" <->
     property (JObj [("type", JStr "alert"); ("payload", JNum 7)]) "type"
     = Ok (Some (JStr "alert"))).
Proof.
  apply (proj2 (message_dispatches_at_most_one_event open_link
                  (Parses (JObj [("type", JStr "alert"); ("payload", JNum 7)])))
           (JObj [("type", JStr "alert"); ("payload", JNum 7)])).
  - reflexivity.
  - discriminate.
Defined.

End RealtimeFacts.

(** * More properties of the camera lifecycle manager *)
Module CameraMoreFacts.
Import Camera CameraFacts CameraOps.

(** *** The ladders *)

Lemma flat_map_nil {A B} (f : A -> list B) (l : list A) :
  (forall x, In x l -> f x = []) -> flat_map f l = [].
Proof.
  induction l as [| x l IH]; intros H; cbn; [reflexivity |].
  rewrite (H x) by (left; reflexivity). apply IH. intros y Hy. apply H. right. exact Hy.
Qed.

Lemma standard_at_least_vga w h l :
  In (w, h, l) standardResolutions -> 640 <= w /\ 480 <= h.
Proof.
  cbn. intros H.
  repeat (destruct H as [H | H]; [inversion H; subst; lia |]). contradiction.
Qed.

(** X15.  The resolutions offered for a device.  The list is never empty.
    If the device can do 640x480, VGA is offered and every offered
    resolution is an entry of the standard table that fits within the
    device's maxima.  If it cannot (its maxima are below VGA, or it reports
    no width or height range), the only resolution offered is the fallback
    '1920x1080'. *)
Theorem offered_resolutions :
  forall capabilities,
    extractResolutions capabilities <> [] /\
    (fits capabilities 640 480 ->
     In "640x480" (extractResolutions capabilities) /\
     forall r, In r (extractResolutions capabilities) ->
               exists w h l, In (w, h, l) standardResolutions /\
                             r = resolution_label w h /\ fits capabilities w h) /\
    (~ fits capabilities 640 480 ->
     extractResolutions capabilities = ["1920x1080"]).
Proof.
  intros capabilities. unfold extractResolutions, fits.
  destruct (width capabilities) as [cw |], (height capabilities) as [ch |];
    try (split; [discriminate |]; split;
         [intros (cw' & ch' & H1 & H2 & _); discriminate | reflexivity]).
  set (maxWidth := num_or (rmax cw) 1920). set (maxHeight := num_or (rmax ch) 1080).
  set (offer := fun res : Z * Z * string =>
                  match res with
                  | (w, h, _) =>
                      if (Z.leb w maxWidth && Z.leb h maxHeight)%bool
                      then [resolution_label w h] else []
                  end).
  set (offers := flat_map offer standardResolutions).
  assert (Hin : forall r, In r offers ->
                          exists w h l, In (w, h, l) standardResolutions /\
                                        r = resolution_label w h /\
                                        w <= maxWidth /\ h <= maxHeight).
  { intros r Hr. apply in_flat_map in Hr. destruct Hr as ([[w h] l] & Hstd & Hoffer).
    unfold offer in Hoffer.
    destruct (Z.leb_spec w maxWidth), (Z.leb_spec h maxHeight); cbn in Hoffer;
      try contradiction.
    destruct Hoffer as [<- | []]. exists w, h, l. auto. }
  destruct (Z.leb_spec 640 maxWidth) as [Hw | Hw], (Z.leb_spec 480 maxHeight) as [Hh | Hh].
  - assert (Hvga : In "640x480" offers).
    { apply in_flat_map. exists (640, 480, "VGA"). split; [cbn; auto 10 |].
      unfold offer.
      destruct (Z.leb_spec 640 maxWidth), (Z.leb_spec 480 maxHeight); try lia.
      left. reflexivity. }
    destruct offers as [| r0 rest] eqn:Hoffers; [contradiction |].
    cbn [List.length Nat.ltb Nat.leb].
    split; [discriminate |]. split.
    + intros _. split; [exact Hvga |].
      intros r Hr. destruct (Hin r Hr) as (w & h & l & Hstd & Heq & Hfw & Hfh).
      exists w, h, l. split; [exact Hstd |]. split; [exact Heq |].
      exists cw, ch. auto.
    + intros Hnot. exfalso. apply Hnot. exists cw, ch. auto.
  - assert (Hnil : offers = []).
    { apply flat_map_nil. intros [[w h] l] Hstd. apply standard_at_least_vga in Hstd.
      unfold offer. destruct (Z.leb_spec w maxWidth), (Z.leb_spec h maxHeight);
        cbn; try reflexivity. lia. }
    rewrite Hnil. cbn. split; [discriminate |]. split; [| reflexivity].
    intros (cw' & ch' & H1 & H2 & _ & H4). inversion H1; inversion H2; subst.
    fold maxHeight in H4. lia.
  - assert (Hnil : offers = []).
    { apply flat_map_nil. intros [[w h] l] Hstd. apply standard_at_least_vga in Hstd.
      unfold offer. destruct (Z.leb_spec w maxWidth), (Z.leb_spec h maxHeight);
        cbn; try reflexivity. lia. }
    rewrite Hnil. cbn. split; [discriminate |]. split; [| reflexivity].
    intros (cw' & ch' & H1 & H2 & H3 & _). inversion H1; inversion H2; subst.
    fold maxWidth in H3. lia.
  - assert (Hnil : offers = []).
    { apply flat_map_nil. intros [[w h] l] Hstd. apply standard_at_least_vga in Hstd.
      unfold offer. destruct (Z.leb_spec w maxWidth), (Z.leb_spec h maxHeight);
        cbn; try reflexivity. lia. }
    rewrite Hnil. cbn. split; [discriminate |]. split; [| reflexivity].
    intros (cw' & ch' & H1 & H2 & H3 & _). inversion H1; inversion H2; subst.
    fold maxWidth in H3. lia.
Qed.

Lemma offered_resolutions_witness :
  let tiny := mkCapabilities (Some (mkRange None (Some 320)))
                             (Some (mkRange None (Some 240)))
                             None None false false false false None in
  extractResolutions tiny = ["1920x1080"] /\
  In "640x480" (extractResolutions caps_1080p).
Proof.
  split.
  - apply (proj2 (proj2 (offered_resolutions
              (mkCapabilities (Some (mkRange None (Some 320)))
                              (Some (mkRange None (Some 240)))
                              None None false false false false None)))).
    intros (cw & ch & H1 & H2 & H3 & _). inversion H1; subst. cbn in H3. lia.
  - apply (proj1 (proj2 (offered_resolutions caps_1080p))).
    exists (mkRange (Some 1) (Some 1920)), (mkRange (Some 1) (Some 1080)).
    repeat split; cbn; lia.
Defined.

(** X16.  The frame rates offered for a device: a strictly decreasing list
    drawn from 60, 30, 24 and 15 that always ends with 15, and whose other
    entries do not exceed the device's maximum (30 when it reports none or
    zero). *)
Theorem offered_frame_rates :
  forall capabilities,
    let rates := extractFrameRates capabilities in
    last rates 0 = 15 /\
    decreasing rates /\
    (forall r, In r rates -> In r [60; 30; 24; 15]) /\
    (forall fr r, frameRate capabilities = Some fr ->
                  In r rates -> r <> 15 -> r <= num_or (rmax fr) 30).
Proof.
  intros capabilities. unfold extractFrameRates.
  destruct (frameRate capabilities) as [fr |].
  - set (maxFps := num_or (rmax fr) 30).
    destruct (Z.leb_spec 60 maxFps), (Z.leb_spec 30 maxFps), (Z.leb_spec 24 maxFps);
      cbn; (split; [reflexivity |]); (split; [repeat split; lia |]);
      (split; [intros r Hr; cbn in Hr; intuition |]);
      intros fr' r Hfr Hr Hne; inversion Hfr; subst fr'; fold maxFps;
      cbn in Hr; intuition lia.
  - cbn. split; [reflexivity |]. split; [repeat split; lia |].
    split; [intros r Hr; intuition | intros fr r Hfr; discriminate].
Qed.


Lemma offered_frame_rates_witness :
  extractFrameRates caps_1080p = [30; 24; 15] /\
  forall r, In r (extractFrameRates caps_1080p) -> r <> 15 -> r <= 30.
Proof.
  split; [reflexivity |].
  intros r Hr Hne.
  exact (proj2 (proj2 (proj2 (offered_frame_rates caps_1080p)))
           (mkRange (Some 1) (Some 30)) r eq_refl Hr Hne).
Defined.

(** *** Disconnecting *)

Lemma has_get_None {V} (m : JSMap.t V) k : JSMap.has m k = false <-> JSMap.get m k = None.
Proof. unfold JSMap.has. destruct (JSMap.get m k); split; congruence. Qed.

Lemma has_update {V} (m : JSMap.t V) k v v' k' :
  JSMap.get m k = Some v -> JSMap.has (JSMap.set m k v') k' = JSMap.has m k'.
Proof.
  intros Hget. rewrite JSMapFacts.has_set.
  destruct (String.eqb_spec k k') as [<- | Hne]; [| reflexivity].
  unfold JSMap.has. rewrite Hget. reflexivity.
Qed.

Lemma length_update_nth {A} (f : A -> A) (l : list A) :
  forall n, List.length (update_nth n f l) = List.length l.
Proof. induction l as [| x l IH]; intros [| n]; cbn; auto. Qed.

Lemma nth_update_nth_other {A} (f : A -> A) (d : A) (l : list A) :
  forall n m, n <> m -> nth m (update_nth n f l) d = nth m l d.
Proof.
  induction l as [| x l IH]; intros [| n] [| m] Hne; cbn; try reflexivity;
    try contradiction.
  apply IH. congruence.
Qed.

(** Stopping the tracks of one stream leaves every stopped stream
    stopped. *)
Lemma stop_keeps_stopped (l : list Stream) (h h' : nat) :
  forallb (fun t => negb (live t)) (nth h' l []) = true ->
  forallb (fun t => negb (live t)) (nth h' (update_nth h (map stop) l) []) = true.
Proof.
  intros Hstopped. destruct (Nat.eq_dec h h') as [<- | Hne].
  - unfold Stream in *.
    rewrite (nth_update_nth (map stop) []) by reflexivity.
    apply all_stopped_after_stop.
  - unfold Stream in *. rewrite nth_update_nth_other by exact Hne. exact Hstopped.
Qed.

(** What disconnectCamera does, in full. *)
Lemma disconnect_not_connected s cameraId :
  JSMap.get (activeStreams (svc s)) cameraId = None ->
  disconnectCamera cameraId s = (Ok tt, s).
Proof.
  intros Hget. unfold disconnectCamera, try_catch, bind, gets, ret.
  rewrite Hget. reflexivity.
Qed.

Lemma disconnect_connected s cameraId c :
  JSMap.get (activeStreams (svc s)) cameraId = Some c ->
  exists s',
    disconnectCamera cameraId s = (Ok tt, s') /\
    activeStreams (svc s') = JSMap.delete (activeStreams (svc s)) cameraId /\
    connectionStatus (svc s')
      = JSMap.set (connectionStatus (svc s)) cameraId "disconnected" /\
    deviceCapabilities (svc s') = deviceCapabilities (svc s) /\
    (forall id, JSMap.has (connectedCameras (svc s')) id
                = JSMap.has (connectedCameras (svc s)) id) /\
    permissionStatus (svc s') = permissionStatus (svc s) /\
    isInitialized (svc s') = isInitialized (svc s) /\
    streams (world s') = update_nth (stream c) (map stop) (streams (world s)) /\
    gum (world s') = gum (world s) /\
    gum_calls (world s') = gum_calls (world s) /\
    next_ref (world s') = next_ref (world s) /\
    clock (world s') = clock (world s) /\
    errorLog (world s') = errorLog (world s) /\
    statusLog (world s') = (statusLog (world s) ++ [(cameraId, "disconnected")])%list.
Proof.
  intros Hget.
  unfold disconnectCamera, try_catch, bind, gets, ret, stopAllTracks, setStatus,
    notifyStatusChange, modify, now, updateCamera.
  destruct s as [v w]; cbn [svc world] in *. rewrite Hget. cbn.
  destruct (JSMap.get (connectedCameras v) cameraId) as [camera |] eqn:Hcam;
    eexists; (split; [reflexivity |]); cbn; rewrite ?Hcam; cbn;
    (split; [reflexivity |]); (split; [reflexivity |]); (split; [reflexivity |]);
    (split; [| repeat split; reflexivity]); intros id.
  - apply (has_update _ _ _ _ _ Hcam).
  - reflexivity.
Qed.

Lemma disconnect_result s cameraId : result (disconnectCamera cameraId) s = Ok tt.
Proof.
  unfold result.
  destruct (JSMap.get (activeStreams (svc s)) cameraId) as [c |] eqn:Hget.
  - destruct (disconnect_connected s cameraId c Hget) as (s' & Hrun & _).
    rewrite Hrun. reflexivity.
  - rewrite (disconnect_not_connected s cameraId Hget). reflexivity.
Qed.

Lemma disconnect_disconnects s cameraId :
  JSMap.get (activeStreams (svc (exec (disconnectCamera cameraId) s))) cameraId = None.
Proof.
  unfold exec.
  destruct (JSMap.get (activeStreams (svc s)) cameraId) as [c |] eqn:Hget.
  - destruct (disconnect_connected s cameraId c Hget) as (s' & Hrun & Hact & _).
    rewrite Hrun. cbn. rewrite Hact. apply JSMapFacts.get_delete_same.
  - rewrite (disconnect_not_connected s cameraId Hget). exact Hget.
Qed.

Lemma disconnect_keeps_stopped s cameraId h :
  allStopped s h = true -> allStopped (exec (disconnectCamera cameraId) s) h = true.
Proof.
  intros Hstopped. unfold exec.
  destruct (JSMap.get (activeStreams (svc s)) cameraId) as [c |] eqn:Hget.
  - destruct (disconnect_connected s cameraId c Hget)
      as (s' & Hrun & _ & _ & _ & _ & _ & _ & Hstreams & _).
    rewrite Hrun. cbn. unfold allStopped in *. rewrite Hstreams.
    apply stop_keeps_stopped. exact Hstopped.
  - rewrite (disconnect_not_connected s cameraId Hget). exact Hstopped.
Qed.

Lemma disconnect_other s cameraId id :
  id <> cameraId ->
  JSMap.get (activeStreams (svc (exec (disconnectCamera cameraId) s))) id
  = JSMap.get (activeStreams (svc s)) id.
Proof.
  intros Hne. unfold exec.
  destruct (JSMap.get (activeStreams (svc s)) cameraId) as [c |] eqn:Hget.
  - destruct (disconnect_connected s cameraId c Hget) as (s' & Hrun & Hact & _).
    rewrite Hrun. cbn. rewrite Hact, JSMapFacts.get_delete.
    destruct (String.eqb_spec cameraId id); [congruence | reflexivity].
  - rewrite (disconnect_not_connected s cameraId Hget). reflexivity.
Qed.

(** X17.  disconnectCamera never throws, leaves the camera without a
    connection, changes nothing at all for a camera that has none (known to
    the service or not), and so disconnecting twice is disconnecting
    once. *)
Theorem disconnect_twice_is_disconnect_once :
  forall s cameraId,
    let s' := exec (disconnectCamera cameraId) s in
    result (disconnectCamera cameraId) s = Ok tt /\
    isConnected s' cameraId = false /\
    (isConnected s cameraId = false -> s' = s) /\
    disconnectCamera cameraId s' = (Ok tt, s').
Proof.
  intros s cameraId s'. split; [apply disconnect_result |].
  assert (Hnone : JSMap.get (activeStreams (svc s')) cameraId = None)
    by apply disconnect_disconnects.
  split; [apply has_get_None; exact Hnone |]. split.
  - intros Hnot. apply has_get_None in Hnot. subst s'. unfold exec.
    rewrite (disconnect_not_connected s cameraId Hnot). reflexivity.
  - apply disconnect_not_connected. exact Hnone.
Qed.

Lemma disconnect_twice_witness :
  exec (disconnectCamera "cam9") cam1_connected = cam1_connected.
Proof.
  apply (proj1 (proj2 (proj2 (disconnect_twice_is_disconnect_once cam1_connected "cam9")))).
  vm_compute. reflexivity.
Defined.

(** *** Disposal *)

Lemma forEach_disconnect ids :
  forall s,
    let s' := exec (forEach disconnectCamera ids) s in
    result (forEach disconnectCamera ids) s = Ok tt /\
    (forall h, allStopped s h = true -> allStopped s' h = true) /\
    (forall id c, In id ids -> JSMap.get (activeStreams (svc s)) id = Some c ->
                  allStopped s' (stream c) = true) /\
    gum_calls (world s') = gum_calls (world s) /\
    permissionStatus (svc s') = permissionStatus (svc s) /\
    isInitialized (svc s') = isInitialized (svc s) /\
    deviceCapabilities (svc s') = deviceCapabilities (svc s) /\
    (forall id, JSMap.has (connectedCameras (svc s')) id
                = JSMap.has (connectedCameras (svc s)) id) /\
    (forall id, In id ids \/ JSMap.get (activeStreams (svc s)) id = None ->
                JSMap.get (activeStreams (svc s')) id = None).
Proof.
  induction ids as [| k rest IH]; intros s; cbn zeta.
  - cbn. repeat split; auto. intros id [[] | Hnone]. exact Hnone.
  - unfold exec, result. cbn [forEach]. unfold bind.
    pose proof (disconnect_result s k) as Hres.
    pose proof (disconnect_keeps_stopped s k) as Hkeep.
    unfold result, exec in Hres, Hkeep.
    assert (Hframe : gum_calls (world (exec (disconnectCamera k) s)) = gum_calls (world s) /\
                     permissionStatus (svc (exec (disconnectCamera k) s))
                     = permissionStatus (svc s) /\
                     isInitialized (svc (exec (disconnectCamera k) s))
                     = isInitialized (svc s) /\
                     deviceCapabilities (svc (exec (disconnectCamera k) s))
                     = deviceCapabilities (svc s) /\
                     (forall id, JSMap.has (connectedCameras (svc (exec (disconnectCamera k) s))) id
                                 = JSMap.has (connectedCameras (svc s)) id)).
    { unfold exec. destruct (JSMap.get (activeStreams (svc s)) k) as [c |] eqn:Hget.
      - destruct (disconnect_connected s k c Hget)
          as (s1 & Hrun & _ & _ & Hcaps & Hcams & Hperm & Hinit & _ & _ & Hcalls & _).
        rewrite Hrun. cbn. auto.
      - rewrite (disconnect_not_connected s k Hget). auto. }
    pose proof (disconnect_stops_all_tracks s k) as Hstop.
    pose proof (fun id => disconnect_other s k id) as Hother.
    pose proof (disconnect_disconnects s k) as Hgone.
    unfold exec in Hframe, Hstop, Hother, Hgone.
    destruct (disconnectCamera k s) as [r s1]. cbn [fst snd] in *. subst r.
    destruct (IH s1) as (Hok & Hmono & Hall & Hcalls & Hperm & Hinit & Hcaps & Hcams & Hnone).
    unfold exec, result in Hok, Hmono, Hall, Hcalls, Hperm, Hinit, Hcaps, Hcams, Hnone.
    destruct Hframe as (F1 & F2 & F3 & F4 & F5).
    split; [exact Hok |]. split; [auto |]. split.
    { intros id c Hin Hget.
      destruct (String.eqb_spec id k) as [-> | Hne].
      * apply Hmono. apply (Hstop c). exact Hget.
      * destruct Hin as [-> | Hin]; [contradiction |].
        apply (Hall id c Hin). rewrite Hother by exact Hne. exact Hget. }
    split; [congruence |]. split; [congruence |]. split; [congruence |].
    split; [congruence |]. split; [intros id; rewrite Hcams; apply F5 |].
    intros id Hid. apply Hnone.
    destruct (String.eqb_spec id k) as [-> | Hne]; [right; exact Hgone |].
    destruct Hid as [[-> | Hin] | Hnone0]; [contradiction | left; exact Hin |].
    right. rewrite Hother by exact Hne. exact Hnone0.
Qed.

(** X18.  However dispose() ends, every stream that a connection held is
    stopped, no stream that was stopped is live again, no camera holds a
    connection, no getUserMedia call was made and the permission status is
    kept.  Where navigator.mediaDevices is defined it returns normally, no
    camera is listed, every status reads 'unknown' and the service is
    uninitialized, and disposing again changes nothing.  Where it is
    undefined, dispose throws the TypeError of stopDeviceMonitoring before
    it clears anything: the device table, the capability map and the
    initialized flag are as they were. *)
Theorem dispose_releases_every_stream :
  forall mediaDevices s,
    let s' := exec (dispose mediaDevices) s in
    (forall id c, JSMap.get (activeStreams (svc s)) id = Some c ->
                  allStopped s' (stream c) = true) /\
    (forall h, allStopped s h = true -> allStopped s' h = true) /\
    (forall id, isConnected s' id = false) /\
    gum_calls (world s') = gum_calls (world s) /\
    permissionStatus (svc s') = permissionStatus (svc s) /\
    (mediaDevices = true ->
     result (dispose mediaDevices) s = Ok tt /\
     (forall id, JSMap.has (connectedCameras (svc s')) id = false /\
                 getCameraStatus s' id = "unknown") /\
     isInitialized (svc s') = false /\
     exec (dispose mediaDevices) s' = s') /\
    (mediaDevices = false ->
     result (dispose mediaDevices) s = Throw (typeError "removeEventListener") /\
     (forall id, JSMap.has (connectedCameras (svc s')) id
                 = JSMap.has (connectedCameras (svc s)) id) /\
     deviceCapabilities (svc s') = deviceCapabilities (svc s) /\
     isInitialized (svc s') = isInitialized (svc s)).
Proof.
  intros mediaDevices s.
  destruct (forEach_disconnect (JSMap.keys (activeStreams (svc s))) s)
    as (Hok & Hmono & Hall & Hcalls & Hperm & Hinit & Hcaps & Hcams & Hnone).
  assert (Hall' : forall id c, JSMap.get (activeStreams (svc s)) id = Some c ->
                               In id (JSMap.keys (activeStreams (svc s)))).
  { intros id c Hget. apply JSMapFacts.has_In. unfold JSMap.has. rewrite Hget. reflexivity. }
  assert (Hgone : forall id,
             JSMap.get (activeStreams
                          (svc (exec (forEach disconnectCamera
                                              (JSMap.keys (activeStreams (svc s)))) s))) id
             = None).
  { intros id. apply Hnone.
    destruct (JSMap.get (activeStreams (svc s)) id) as [c |] eqn:Hget;
      [left; apply (Hall' id c Hget) | right; reflexivity]. }
  unfold exec, result in *.
  unfold dispose, disconnectAllCameras, stopDeviceMonitoring, bind, gets, modify, with_svc,
    throw, ret.
  destruct (forEach disconnectCamera (JSMap.keys (activeStreams (svc s))) s) as [r s1].
  cbn [fst snd] in *. subst r.
  destruct mediaDevices; cbn [fst snd svc world].
  - split; [intros id c Hget; apply (Hall id c (Hall' id c Hget) Hget) |].
    split; [exact Hmono |].
    split; [reflexivity |]. split; [exact Hcalls |]. split; [exact Hperm |].
    split; [| discriminate]. intros _. cbn. repeat split; auto.
  - split; [intros id c Hget; apply (Hall id c (Hall' id c Hget) Hget) |].
    split; [exact Hmono |].
    split; [intros id; apply has_get_None; apply Hgone |].
    split; [exact Hcalls |]. split; [exact Hperm |].
    split; [discriminate |]. intros _. auto.
Qed.

Lemma dispose_witness :
  allStopped cam1_connected 1 = false /\
  allStopped (exec (dispose true) cam1_connected) 1 = true /\
  isInitialized (svc (exec (dispose true) cam1_connected)) = false /\
  JSMap.has (connectedCameras (svc (exec (dispose false) cam1_connected))) "cam1" = true.
Proof.
  split; [reflexivity |].
  destruct (dispose_releases_every_stream true cam1_connected)
    as (Hstop & _ & _ & _ & _ & Hdefined & _).
  destruct (dispose_releases_every_stream false cam1_connected)
    as (_ & _ & _ & _ & _ & _ & Hundefined).
  split.
  { apply (Hstop "cam1"
             (mkConnection 0 "cam1" 1 0 (mkSettings (Some 1280) (Some 720) (Some 30))
                           (mkConstraints "cam1" (Some 1920) (Some 1080) (Some 30) None)
                           0 true)).
    reflexivity. }
  split.
  { destruct (Hdefined eq_refl) as (_ & _ & Hinit & _). exact Hinit. }
  destruct (Hundefined eq_refl) as (_ & Htable & _).
  rewrite Htable. reflexivity.
Defined.

(** *** Connecting *)

Lemma firstVideo_nonempty tracks i r :
  firstVideo tracks i = Some r -> Nat.eqb (List.length tracks) 0 = false.
Proof. destruct tracks; [discriminate | reflexivity]. Qed.

Lemma status_after_set (m : JSMap.t string) id st id' :
  match JSMap.get (JSMap.set m id st) id' with
  | Some st' => if String.eqb st' "" then "unknown" else st'
  | None => "unknown"
  end
  = if String.eqb id id' then (if String.eqb st "" then "unknown" else st)
    else match JSMap.get m id' with
         | Some st' => if String.eqb st' "" then "unknown" else st'
         | None => "unknown"
         end.
Proof. rewrite JSMapFacts.get_set. destruct (String.eqb id id'); reflexivity. Qed.

(** X19.  Connecting a listed camera that has no connection, when
    getUserMedia answers with a stream that has a video track: one
    getUserMedia call is made, the connection returned is the one stored
    for the camera, it holds the new stream, whose tracks are as handed
    out, the status goes through 'connecting' to 'connected', the table
    entry is marked 'online' with the track's settings, nothing is reported
    to the error handlers, and no other camera's connection or status
    changes. *)
Theorem connect_opens_one_stream :
  forall s cameraId options k tracks i track,
    JSMap.has (connectedCameras (svc s)) cameraId = true ->
    isConnected s cameraId = false ->
    buildConstraints cameraId options
                     (JSMap.get (deviceCapabilities (svc s)) cameraId) = Ok k ->
    gum (world s) (gum_calls (world s)) = GumStream tracks ->
    firstVideo tracks 0 = Some (i, track) ->
    let s' := exec (connectToCamera cameraId options) s in
    let c := mkConnection (next_ref (world s)) cameraId (List.length (streams (world s)))
                          i (track_settings track) k (clock (world s)) true in
    result (connectToCamera cameraId options) s = Ok c /\
    JSMap.get (activeStreams (svc s')) cameraId = Some c /\
    getCameraStatus s' cameraId = "connected" /\
    (exists camera,
        JSMap.get (connectedCameras (svc s')) cameraId = Some camera /\
        cam_status camera = "online" /\
        lastConnected camera = Some (clock (world s)) /\
        cam_currentSettings camera = Some (track_settings track)) /\
    streams (world s') = (streams (world s) ++ [tracks])%list /\
    gum_calls (world s') = S (gum_calls (world s)) /\
    statusLog (world s')
      = (statusLog (world s) ++ [(cameraId, "connecting"); (cameraId, "connected")])%list /\
    errorLog (world s') = errorLog (world s) /\
    (forall id, id <> cameraId ->
                JSMap.get (activeStreams (svc s')) id = JSMap.get (activeStreams (svc s)) id /\
                getCameraStatus s' id = getCameraStatus s id).
Proof.
  intros s cameraId options k tracks i track Hknown Hnot Hk Hgum Hvideo.
  apply has_get_None in Hnot.
  pose proof (firstVideo_nonempty _ _ _ Hvideo) as Hlen.
  unfold getCameraStatus, result, exec, connectToCamera, try_catch, bind, gets, ret,
    throw, setStatus, notifyStatusChange, handleError, modify, lift, getUserMedia,
    getTracks, now, newRef, updateCamera.
  destruct s as [v w]; cbn [svc world] in *.
  rewrite Hknown. cbn -[JSMap.get JSMap.set nth]. rewrite Hnot.
  cbn -[JSMap.get JSMap.set nth]. rewrite Hk.
  cbn -[JSMap.get JSMap.set nth]. rewrite Hgum.
  cbn -[JSMap.get JSMap.set nth].
  rewrite nth_app_last, Hlen, Hvideo.
  unfold JSMap.has in Hknown.
  destruct (JSMap.get (connectedCameras v) cameraId) as [camera |] eqn:Hcam;
    [| discriminate].
  cbn -[JSMap.get JSMap.set nth]. rewrite Hcam. cbn -[JSMap.get JSMap.set nth].
  split; [reflexivity |].
  split; [apply JSMapFacts.get_set_same |].
  split; [rewrite JSMapFacts.get_set_same; reflexivity |].
  split.
  { eexists. split; [apply JSMapFacts.get_set_same |]. cbn. auto. }
  split; [reflexivity |]. split; [reflexivity |].
  split; [rewrite <- app_assoc; reflexivity |].
  split; [reflexivity |].
  intros id Hne. split.
  - apply JSMapFacts.get_set_other. congruence.
  - rewrite !JSMapFacts.get_set_other by congruence. reflexivity.
Qed.

(** X20.  Whenever connectToCamera throws, for whatever reason, the
    camera's status reads 'failed' afterwards, the failure was reported to
    the error handlers once, with the message thrown and the camera id, the
    last status notification is 'failed', and neither the connections, nor
    the device table, nor any other camera's status changed. *)
Theorem failed_connect_is_recorded :
  forall s cameraId options e,
    result (connectToCamera cameraId options) s = Throw e ->
    let s' := exec (connectToCamera cameraId options) s in
    getCameraStatus s' cameraId = "failed" /\
    errorLog (world s')
      = (errorLog (world s) ++ [("connection", message_of e, Some cameraId)])%list /\
    last (statusLog (world s')) ("", "") = (cameraId, "failed") /\
    activeStreams (svc s') = activeStreams (svc s) /\
    connectedCameras (svc s') = connectedCameras (svc s) /\
    (forall id, id <> cameraId -> getCameraStatus s' id = getCameraStatus s id).
Proof.
  intros s cameraId options e.
  unfold getCameraStatus, result, exec, connectToCamera, try_catch, bind, gets, ret,
    throw, setStatus, notifyStatusChange, handleError, modify, lift, getUserMedia,
    getTracks, now, newRef, updateCamera.
  destruct s as [v w]; cbn [svc world].
  assert (Hfailed : forall m : JSMap.t string,
             JSMap.get (JSMap.set m cameraId "failed") cameraId = Some "failed")
    by (intros m; apply JSMapFacts.get_set_same).
  assert (Hother : forall (m : JSMap.t string) st id,
             id <> cameraId ->
             JSMap.get (JSMap.set m cameraId st) id = JSMap.get m id)
    by (intros m st id Hne; apply JSMapFacts.get_set_other; congruence).
  destruct (JSMap.has (connectedCameras v) cameraId); cbn -[JSMap.get JSMap.set last].
  2:{ intros He. inversion He; subst e. rewrite Hfailed, last_last.
      repeat split. intros id Hne. rewrite Hother by exact Hne. reflexivity. }
  destruct (JSMap.get (activeStreams v) cameraId) as [c |];
    cbn -[JSMap.get JSMap.set last]; [discriminate |].
  destruct (buildConstraints cameraId options _) as [cs | e'];
    cbn -[JSMap.get JSMap.set last].
  2:{ intros He. inversion He; subst e. rewrite Hfailed, last_last.
      repeat split. intros id Hne. rewrite !Hother by exact Hne. reflexivity. }
  destruct (gum w (gum_calls w)) as [m | tracks]; cbn -[JSMap.get JSMap.set last].
  { intros He. inversion He; subst e. rewrite Hfailed, last_last.
    repeat split. intros id Hne. rewrite !Hother by exact Hne. reflexivity. }
  rewrite nth_app_last.
  destruct (Nat.eqb (List.length tracks) 0); cbn -[JSMap.get JSMap.set last].
  { intros He. inversion He; subst e. rewrite Hfailed, last_last.
    repeat split. intros id Hne. rewrite !Hother by exact Hne. reflexivity. }
  destruct (firstVideo tracks 0) as [[i track] |]; cbn -[JSMap.get JSMap.set last].
  - destruct (JSMap.get (connectedCameras v) cameraId); cbn; discriminate.
  - intros He. inversion He; subst e. rewrite Hfailed, last_last.
    repeat split. intros id Hne. rewrite !Hother by exact Hne. reflexivity.
Qed.


Lemma failed_connect_witness :
  let s' := exec (connectToCamera "cam1" default_options) two_cameras_listed in
  getCameraStatus s' "cam1" = "failed" /\
  errorLog (world s') = [("connection", "Could not start video source", Some "cam1")] /\
  getCameraStatus s' "cam2" = "disconnected".
Proof.
  destruct (failed_connect_is_recorded two_cameras_listed "cam1" default_options
              (JsError "Could not start video source") eq_refl)
    as (Hstatus & Hlog & _ & _ & _ & Hother).
  split; [exact Hstatus |]. split; [exact Hlog |].
  rewrite Hother by discriminate. reflexivity.
Defined.

(** A failed connect is not final: the next attempt on the same camera
    connects. *)
Lemma connect_after_failure_witness :
  let failed := exec (connectToCamera "cam1" default_options) two_cameras_listed in
  getCameraStatus failed "cam1" = "failed" /\
  getCameraStatus (exec (connectToCamera "cam1" default_options) failed) "cam1"
  = "connected".
Proof.
  split; [reflexivity |].
  apply (connect_opens_one_stream
           (exec (connectToCamera "cam1" default_options) two_cameras_listed)
           "cam1" default_options
           (mkConstraints "cam1" (Some 1920) (Some 1080) (Some 30) None)
           [webcam_track] 0%nat webcam_track);
    reflexivity.
Defined.


(** *** Discovery *)

Lemma processDevice_frame device s :
  let s' := exec (processDevice device) s in
  permissionStatus (svc s') = permissionStatus (svc s) /\
  isInitialized (svc s') = isInitialized (svc s) /\
  errorLog (world s') = errorLog (world s) /\
  statusLog (world s') = statusLog (world s).
Proof.
  unfold exec, processDevice, getDeviceCapabilities, try_catch, bind, gets, now,
    modify, ret, throw, getUserMedia, getTracks, stopAllTracks.
  destruct s as [v w]; cbn [svc world].
  destruct (gum w (gum_calls w)) as [m | tracks]; cbn; [repeat split |].
  rewrite nth_app_last.
  destruct (firstVideo tracks 0) as [[i track] |]; cbn; repeat split.
Qed.

Lemma forEach_processDevice_frame devices :
  forall s,
    let s' := exec (forEach processDevice devices) s in
    permissionStatus (svc s') = permissionStatus (svc s) /\
    isInitialized (svc s') = isInitialized (svc s) /\
    errorLog (world s') = errorLog (world s) /\
    statusLog (world s') = statusLog (world s).
Proof.
  induction devices as [| d rest IH]; intros s; cbn zeta.
  - cbn. auto.
  - destruct (processDevice_spec d s) as (info & caps & s1 & extra & Hrun & _).
    pose proof (processDevice_frame d s) as Hframe.
    unfold exec in *. cbn [forEach]. unfold bind. rewrite Hrun in *. cbn [snd] in Hframe.
    destruct Hframe as (H1 & H2 & H3 & H4).
    destruct (IH s1) as (H1' & H2' & H3' & H4').
    repeat split; congruence.
Qed.

(** What a discovery pass over an answered enumeration leaves alone. *)
Lemma discover_ok_frame devices s :
  exists cams s' extra,
    discoverDevices (Ok devices) s = (Ok cams, s') /\
    permissionStatus (svc s') = permissionStatus (svc s) /\
    isInitialized (svc s') = isInitialized (svc s) /\
    errorLog (world s') = errorLog (world s) /\
    streams (world s') = (streams (world s) ++ extra)%list.
Proof.
  unfold discoverDevices, bind, modify, gets.
  set (s0 := with_svc _ s).
  destruct (forEach_processDevice
              (filter (fun d => String.eqb (kind d) "videoinput") devices) s0)
    as (s1 & extra & Hrun & _ & Hstreams & _).
  pose proof (forEach_processDevice_frame
                (filter (fun d => String.eqb (kind d) "videoinput") devices) s0) as Hframe.
  unfold exec in Hframe. rewrite Hrun in *. cbn [snd] in Hframe.
  destruct Hframe as (H1 & H2 & H3 & _).
  eexists. exists s1, extra. split; [reflexivity |].
  subst s0. destruct s as [v w]. cbn in *. auto.
Qed.

(** X21.  A device whose capability probe is rejected by getUserMedia is
    listed all the same, silently: status 'available', the fallback ladders
    ['1920x1080'] and [30, 24, 15], an empty capability object, and nothing
    reported to the error handlers.  A connect with default options then
    asks for the device alone, with no width, height or frame rate. *)
Theorem unprobed_device_is_listed_with_fallbacks :
  forall s device m,
    gum (world s) (gum_calls (world s)) = GumRejects m ->
    let id := deviceId device in
    let s' := exec (processDevice device) s in
    (exists info,
        JSMap.get (connectedCameras (svc s')) id = Some info /\
        cam_status info = "available" /\
        resolutions info = ["1920x1080"] /\
        frameRates info = [30; 24; 15] /\
        features info = "Basic Video") /\
    JSMap.get (deviceCapabilities (svc s')) id = Some no_capabilities /\
    getCameraStatus s' id = "disconnected" /\
    errorLog (world s') = errorLog (world s) /\
    buildConstraints id default_options (JSMap.get (deviceCapabilities (svc s')) id)
    = Ok (mkConstraints id None None None None).
Proof.
  intros s device m Hgum.
  unfold getCameraStatus, exec, processDevice, getDeviceCapabilities, try_catch, bind,
    gets, now, modify, ret, throw, getUserMedia.
  destruct s as [v w]; cbn [svc world] in *. rewrite Hgum.
  cbn -[JSMap.get JSMap.set].
  rewrite !JSMapFacts.get_set_same.
  split; [eexists; split; [reflexivity |]; cbn; auto |].
  repeat split.
Qed.

Lemma unprobed_device_witness :
  exists info,
    JSMap.get (connectedCameras
                 (svc (exec (processDevice cam1)
                            (new_service (mkWorld 0 (fun _ => GumRejects "busy") 0 [] 0 [] [])))))
              "cam1" = Some info /\
    resolutions info = ["1920x1080"].
Proof.
  destruct (unprobed_device_is_listed_with_fallbacks
              (new_service (mkWorld 0 (fun _ => GumRejects "busy") 0 [] 0 [] []))
              cam1 "busy" eq_refl)
    as ((info & Hget & _ & Hres & _) & _).
  exists info. split; [exact Hget | exact Hres].
Defined.

(** *** Listed devices have a capability object *)

Lemma buildConstraints_total cameraId options c :
  exists k, buildConstraints cameraId options (Some c) = Ok k /\ c_deviceId k = cameraId.
Proof.
  unfold buildConstraints.
  destruct (opt_resolution options) as [[w h] |];
    [destruct (nonzero w && nonzero h)%bool
    | destruct (width c), (height c)];
    (destruct (opt_frameRate options) as [f |];
     [destruct (nonzero f); [| destruct (frameRate c)] | destruct (frameRate c)]);
    (destruct (opt_facingMode options) as [fm |];
     [destruct (String.eqb fm ""); [| destruct (facingMode c)] |]);
    eexists; split; reflexivity.
Qed.

Lemma connect_tables s cameraId options :
  let s' := exec (connectToCamera cameraId options) s in
  deviceCapabilities (svc s') = deviceCapabilities (svc s) /\
  forall id, JSMap.has (connectedCameras (svc s')) id
             = JSMap.has (connectedCameras (svc s)) id.
Proof.
  unfold exec, connectToCamera, try_catch, bind, gets, ret, throw, setStatus,
    notifyStatusChange, handleError, modify, lift, getUserMedia, getTracks, now,
    newRef, updateCamera.
  destruct s as [v w]; cbn [svc world].
  destruct (JSMap.has (connectedCameras v) cameraId); cbn; [| auto].
  destruct (JSMap.get (activeStreams v) cameraId) as [c |]; cbn; [auto |].
  destruct (buildConstraints cameraId options _) as [cs | e]; cbn; [| auto].
  destruct (gum w (gum_calls w)) as [m | tracks]; cbn; [auto |].
  rewrite nth_app_last.
  destruct (Nat.eqb (List.length tracks) 0); cbn; [auto |].
  destruct (firstVideo tracks 0) as [[i track] |]; cbn; [| auto].
  destruct (JSMap.get (connectedCameras v) cameraId) as [camera |] eqn:Hcam; cbn;
    [| auto].
  split; [reflexivity |]. intros id. apply (has_update _ _ _ _ _ Hcam).
Qed.

Lemma handleStreamEnd_tables s cameraId :
  let s' := exec (handleStreamEnd cameraId) s in
  deviceCapabilities (svc s') = deviceCapabilities (svc s) /\
  forall id, JSMap.has (connectedCameras (svc s')) id
             = JSMap.has (connectedCameras (svc s)) id.
Proof.
  unfold exec, handleStreamEnd, bind, setStatus, notifyStatusChange, modify, now,
    updateCamera, gets.
  destruct s as [v w]; cbn.
  destruct (JSMap.get (connectedCameras v) cameraId) as [camera |] eqn:Hcam; cbn;
    [| auto].
  split; [reflexivity |]. intros id. apply (has_update _ _ _ _ _ Hcam).
Qed.

Lemma step_listedHaveCapabilities op s :
  listedHaveCapabilities s -> listedHaveCapabilities (step op s).
Proof.
  intros Hinv. destruct op as [enumerated | cameraId options | cameraId | cameraId | dt];
    cbn [step].
  - destruct enumerated as [devices | e]; [| exact Hinv].
    unfold exec, discoverDevices, bind, modify, gets.
    set (s0 := with_svc _ s).
    destruct (forEach_processDevice
                (filter (fun d => String.eqb (kind d) "videoinput") devices) s0)
      as (s1 & extra & Hrun & _ & _ & Hcams & Hcaps & _).
    rewrite Hrun. cbn [snd]. intros id Hhas.
    apply Hcams in Hhas. destruct Hhas as [Hin | Hold].
    + assert (Hc : JSMap.has (deviceCapabilities (svc s1)) id = true)
        by (apply Hcaps; left; exact Hin).
      unfold JSMap.has in Hc. destruct (JSMap.get _ id) as [c |]; [| discriminate].
      exists c. reflexivity.
    + subst s0. destruct s as [v w]. cbn in Hold. discriminate.
  - destruct (connect_tables s cameraId options) as (Hcaps & Hcams).
    intros id Hhas. rewrite Hcams in Hhas. rewrite Hcaps. apply Hinv. exact Hhas.
  - unfold exec.
    destruct (JSMap.get (activeStreams (svc s)) cameraId) as [c |] eqn:Hget.
    + destruct (disconnect_connected s cameraId c Hget)
        as (s' & Hrun & _ & _ & Hcaps & Hcams & _).
      rewrite Hrun. cbn [snd]. intros id Hhas. rewrite Hcams in Hhas. rewrite Hcaps.
      apply Hinv. exact Hhas.
    + rewrite (disconnect_not_connected s cameraId Hget). exact Hinv.
  - destruct (JSMap.get (activeStreams (svc s)) cameraId) as [c |]; [| exact Hinv].
    unfold trackEnded, exec, bind, modify. cbn [fst snd].
    set (s0 := with_world _ s).
    destruct (handleStreamEnd_tables s0 (conn_cameraId c)) as (Hcaps & Hcams).
    unfold exec in Hcaps, Hcams.
    intros id Hhas. rewrite Hcams in Hhas. rewrite Hcaps.
    subst s0. destruct s as [v w]. apply Hinv. exact Hhas.
  - destruct s as [v w]. exact Hinv.
Qed.

Lemma steps_listedHaveCapabilities ops :
  forall s, listedHaveCapabilities s -> listedHaveCapabilities (steps ops s).
Proof.
  induction ops as [| op rest IH]; intros s Hinv; [exact Hinv |].
  cbn. apply IH. apply step_listedHaveCapabilities. exact Hinv.
Qed.

(** X22.  After any sequence of discovery passes, connects, disconnects and
    ended tracks on a new service, every listed device has a capability
    object, so that buildConstraints yields constraints for it, naming the
    device, whatever the options: the property read of an undefined
    capability object cannot happen for a listed device. *)
Theorem listed_device_has_constraints :
  forall w ops cameraId options,
    let s := steps ops (new_service w) in
    JSMap.has (connectedCameras (svc s)) cameraId = true ->
    exists k,
      buildConstraints cameraId options
                       (JSMap.get (deviceCapabilities (svc s)) cameraId) = Ok k /\
      c_deviceId k = cameraId.
Proof.
  intros w ops cameraId options s Hhas.
  assert (Hinv : listedHaveCapabilities s).
  { apply steps_listedHaveCapabilities. intros id Hid. discriminate. }
  destruct (Hinv cameraId Hhas) as (c & Hc). rewrite Hc.
  apply buildConstraints_total.
Qed.

Lemma listed_device_witness :
  exists k,
    buildConstraints "cam1" componentOptions
                     (JSMap.get (deviceCapabilities (svc cam1_connected)) "cam1") = Ok k /\
    c_deviceId k = "cam1".
Proof.
  apply (listed_device_has_constraints webcam_world
           [Discover (Ok [cam1]); Connect "cam1" default_options] "cam1" componentOptions).
  reflexivity.
Defined.


(** *** Switching cameras *)

Lemma connect_streams s cameraId options :
  exists extra,
    streams (world (exec (connectToCamera cameraId options) s))
    = (streams (world s) ++ extra)%list.
Proof.
  unfold exec, connectToCamera, try_catch, bind, gets, ret, throw, setStatus,
    notifyStatusChange, handleError, modify, lift, getUserMedia, getTracks, now,
    newRef, updateCamera.
  destruct s as [v w]; cbn [svc world].
  destruct (JSMap.has (connectedCameras v) cameraId); cbn;
    [| exists []; rewrite app_nil_r; reflexivity].
  destruct (JSMap.get (activeStreams v) cameraId) as [c |]; cbn;
    [exists []; rewrite app_nil_r; reflexivity |].
  destruct (buildConstraints cameraId options _) as [cs | e]; cbn;
    [| exists []; rewrite app_nil_r; reflexivity].
  destruct (gum w (gum_calls w)) as [m | tracks]; cbn;
    [exists []; rewrite app_nil_r; reflexivity |].
  rewrite nth_app_last.
  destruct (Nat.eqb (List.length tracks) 0); cbn; [exists [tracks]; reflexivity |].
  destruct (firstVideo tracks 0) as [[i track] |]; cbn; exists [tracks]; reflexivity.
Qed.

(** The connection a successful connect returns is the one stored for the
    camera; when the camera had none, it holds a stream opened by this
    call. *)
Lemma connect_ok_result s cameraId options c :
  result (connectToCamera cameraId options) s = Ok c ->
  let s' := exec (connectToCamera cameraId options) s in
  JSMap.get (activeStreams (svc s')) cameraId = Some c /\
  (JSMap.get (activeStreams (svc s)) cameraId = None ->
   stream c = List.length (streams (world s)) /\
   gum_calls (world s') = S (gum_calls (world s))).
Proof.
  unfold result, exec, connectToCamera, try_catch, bind, gets, ret, throw, setStatus,
    notifyStatusChange, handleError, modify, lift, getUserMedia, getTracks, now,
    newRef, updateCamera.
  destruct s as [v w]; cbn [svc world].
  destruct (JSMap.has (connectedCameras v) cameraId); cbn -[JSMap.get JSMap.set];
    [| discriminate].
  destruct (JSMap.get (activeStreams v) cameraId) as [c0 |] eqn:Hget;
    cbn -[JSMap.get JSMap.set].
  { intros Hc. inversion Hc; subst c0. split; [exact Hget | discriminate]. }
  destruct (buildConstraints cameraId options _) as [cs | e];
    cbn -[JSMap.get JSMap.set]; [| discriminate].
  destruct (gum w (gum_calls w)) as [m | tracks]; cbn -[JSMap.get JSMap.set];
    [discriminate |].
  rewrite nth_app_last.
  destruct (Nat.eqb (List.length tracks) 0); cbn -[JSMap.get JSMap.set];
    [discriminate |].
  destruct (firstVideo tracks 0) as [[i track] |]; cbn -[JSMap.get JSMap.set];
    [| discriminate].
  destruct (JSMap.get (connectedCameras v) cameraId) as [camera |];
    cbn -[JSMap.get JSMap.set]; intros Hc; inversion Hc; subst c;
    (split; [apply JSMapFacts.get_set_same | intros _; split; reflexivity]).
Qed.

(** X23.  Switching cameras in the camera manager component, when the
    selected camera holds a connection: whether or not the new connect
    succeeds, every track of the previous connection's stream is stopped
    and, unless the same camera is selected again, the previous camera has
    no connection.  A connection obtained is the one stored for the chosen
    camera; selecting the connected camera again does not return its
    connection but one over a stream newly opened by a getUserMedia
    call. *)
Theorem switching_cameras_releases_the_previous_stream :
  forall s current cameraId c,
    JSMap.get (activeStreams (svc s)) current = Some c ->
    (stream c < List.length (streams (world s)))%nat ->
    let s' := exec (selectCamera (Some current) cameraId) s in
    allStopped s' (stream c) = true /\
    (current <> cameraId -> isConnected s' current = false) /\
    (forall c',
        result (selectCamera (Some current) cameraId) s = Ok c' ->
        JSMap.get (activeStreams (svc s')) cameraId = Some c' /\
        (current = cameraId ->
         stream c' = List.length (streams (world s)) /\
         gum_calls (world s') = S (gum_calls (world s)))).
Proof.
  intros s current cameraId c Hget Hlt.
  destruct (disconnect_connected s current c Hget)
    as (s1 & Hrun & Hact & _ & _ & _ & _ & _ & Hstreams & _ & Hcalls & _).
  pose proof (disconnect_stops_all_tracks s current c Hget) as Hstopped.
  pose proof (disconnect_disconnects s current) as Hnone.
  unfold exec in Hstopped, Hnone. rewrite Hrun in Hstopped, Hnone. cbn [snd] in *.
  assert (Hselect : selectCamera (Some current) cameraId s
                    = connectToCamera cameraId componentOptions s1).
  { unfold selectCamera, bind, gets, when, isConnected, JSMap.has.
    rewrite Hget, Hrun. reflexivity. }
  unfold exec, result. rewrite Hselect.
  assert (Hlen : List.length (streams (world s1)) = List.length (streams (world s)))
    by (rewrite Hstreams; apply length_update_nth).
  split; [| split].
  - destruct (connect_streams s1 cameraId componentOptions) as (extra & Hext).
    unfold exec in Hext. unfold allStopped in *. rewrite Hext.
    rewrite app_nth1 by (rewrite Hlen; exact Hlt). exact Hstopped.
  - intros Hne. apply has_get_None.
    destruct (connect_activeStreams s1 cameraId componentOptions) as [Hsame | (c' & _ & Hset)];
      unfold exec in *.
    + rewrite Hsame. exact Hnone.
    + rewrite Hset, JSMapFacts.get_set_other by congruence. exact Hnone.
  - intros c' Hok.
    destruct (connect_ok_result s1 cameraId componentOptions c' Hok) as (Hstored & Hfresh).
    unfold exec in Hstored, Hfresh. split; [exact Hstored |].
    intros <-. destruct (Hfresh Hnone) as (Hh & Hg). split; congruence.
Qed.

Lemma switching_cameras_witness :
  let s' := exec (selectCamera (Some "cam1") "cam1") two_cameras in
  allStopped two_cameras 2 = false /\
  allStopped s' 2 = true /\
  getActiveStream s' "cam1" = Some 3%nat.
Proof.
  split; [reflexivity |].
  split; [| reflexivity].
  apply (proj1 (switching_cameras_releases_the_previous_stream two_cameras "cam1" "cam1"
           (mkConnection 0 "cam1" 2 0 (mkSettings (Some 1280) (Some 720) (Some 30))
                         (mkConstraints "cam1" (Some 1920) (Some 1080) (Some 30) None)
                         0 true)
           eq_refl ltac:(vm_compute; lia))).
Defined.

(** *** Queries *)

(** X24.  getConnectedCameras returns exactly the table entries of the
    cameras that hold a connection and are listed: a camera that holds a
    connection but was dropped from the table by a later discovery pass is
    left out. *)
Theorem getConnectedCameras_needs_a_table_entry :
  forall s camera,
    In camera (getConnectedCameras s) <->
    exists id, isConnected s id = true /\
               JSMap.get (connectedCameras (svc s)) id = Some camera.
Proof.
  intros s camera. unfold getConnectedCameras, isConnected. rewrite in_flat_map.
  split.
  - intros (id & Hin & Hcam). exists id. split; [apply JSMapFacts.has_In; exact Hin |].
    destruct (JSMap.get (connectedCameras (svc s)) id) as [camera' |]; [| contradiction].
    destruct Hcam as [-> | []]. reflexivity.
  - intros (id & Hhas & Hcam). exists id. split; [apply JSMapFacts.has_In; exact Hhas |].
    rewrite Hcam. left. reflexivity.
Qed.

(** *** Probing a camera *)

(** X25.  testCameraAccess never throws and answers whether getUserMedia
    handed out a stream; it makes one getUserMedia call, leaves the service
    as it was, reports nothing, leaves no track of the stream it opened
    live, and touches no stream that existed, so probing a camera that is
    connected does not disturb the connection. *)
Theorem testCameraAccess_is_a_clean_probe :
  forall s cameraId,
    let s' := exec (testCameraAccess cameraId) s in
    (exists ok,
        result (testCameraAccess cameraId) s = Ok ok /\
        (ok = true <-> exists tracks, gum (world s) (gum_calls (world s)) = GumStream tracks)) /\
    svc s' = svc s /\
    gum_calls (world s') = S (gum_calls (world s)) /\
    errorLog (world s') = errorLog (world s) /\
    statusLog (world s') = statusLog (world s) /\
    allStopped s' (List.length (streams (world s))) = true /\
    (exists extra, streams (world s') = (streams (world s) ++ extra)%list).
Proof.
  intros s cameraId.
  unfold allStopped, result, exec, testCameraAccess, try_catch, bind, ret, getUserMedia,
    stopAllTracks, modify.
  destruct s as [v w]; cbn [svc world].
  destruct (gum w (gum_calls w)) as [m | tracks]; cbn.
  - split.
    { exists false. split; [reflexivity |]. split; [discriminate |].
      intros (tracks & H). discriminate. }
    repeat split.
    + rewrite nth_overflow by lia. reflexivity.
    + exists []. rewrite app_nil_r. reflexivity.
  - split.
    { exists true. split; [reflexivity |]. split; [| reflexivity].
      intros _. exists tracks. reflexivity. }
    unfold Stream in *. rewrite update_nth_app_last, nth_app_last.
    repeat split.
    + apply all_stopped_after_stop.
    + exists [map stop tracks]. reflexivity.
Qed.


Lemma getConnectedCameras_witness :
  isConnected cam1_unlisted "cam1" = true /\
  ~ exists camera, In camera (getConnectedCameras cam1_unlisted).
Proof.
  split; [reflexivity |].
  intros (camera & Hin).
  destruct (proj1 (getConnectedCameras_needs_a_table_entry cam1_unlisted camera) Hin)
    as (id & _ & Hget).
  discriminate.
Defined.

(** *** Initialization *)

(** X26.  initialize() never throws: it answers true or false.  On an
    initialized service it answers true and changes nothing.  Otherwise its
    answer is the new value of the initialized flag; it is true exactly when
    the browser has the camera APIs, the permission request was granted and
    the enumeration answered, and then nothing is reported; each failure is
    reported once to the error handlers as an 'initialization' error.
    Without browser support no getUserMedia call is made and the service is
    unchanged; with it, the permission status records how the request
    settled, and the stream of a granted request is left with no live
    track. *)
Theorem initialize_outcomes :
  forall supported answer enumerated s,
    let s' := exec (initialize supported answer enumerated) s in
    exists ok,
      result (initialize supported answer enumerated) s = Ok ok /\
      (isInitialized (svc s) = true -> ok = true /\ s' = s) /\
      (isInitialized (svc s) = false ->
       isInitialized (svc s') = ok /\
       (ok = true <->
        supported = true /\ (exists tracks, answer = Granted tracks) /\
        (exists devices, enumerated = Ok devices)) /\
       (ok = true -> errorLog (world s') = errorLog (world s)) /\
       (ok = false ->
        exists m, errorLog (world s')
                  = (errorLog (world s) ++ [("initialization", m, None)])%list) /\
       (supported = false ->
        svc s' = svc s /\ gum_calls (world s') = gum_calls (world s)) /\
       (supported = true ->
        permissionStatus (svc s') = match answer with
                                    | Granted _ => "granted"
                                    | Refused _ _ => "denied"
                                    end) /\
       (supported = true ->
        forall tracks, answer = Granted tracks ->
                       allStopped s' (List.length (streams (world s))) = true)).
Proof.
  intros supported answer enumerated s.
  unfold result, exec, initialize, bind, gets.
  destruct (isInitialized (svc s)) eqn:Hinit.
  { exists true. cbn. split; [reflexivity |]. split; [auto | discriminate]. }
  cbv beta iota.
  destruct supported; cbn [negb].
  2:{ exists false. unfold try_catch, throw, bind, handleError, modify, ret. cbn.
      split; [reflexivity |]. split; [discriminate |]. intros _.
      split; [exact Hinit |].
      split; [split; [discriminate | intros (H & _); discriminate] |].
      split; [discriminate |].
      split; [intros _; eexists; reflexivity |].
      split; [auto |]. split; discriminate. }
  destruct answer as [tracks | name message].
  2:{ exists false.
      unfold try_catch, requestCameraPermissions, countCall, throw, bind, handleError,
        modify, ret.
      destruct s as [v w]. cbn in *.
      split; [reflexivity |]. split; [discriminate |]. intros _.
      split; [exact Hinit |].
      split; [split; [discriminate | intros (_ & (t & H) & _); discriminate] |].
      split; [discriminate |].
      split; [intros _; eexists; reflexivity |].
      split; [discriminate |]. split; [reflexivity |].
      intros _ t H. discriminate. }
  unfold try_catch, requestCameraPermissions, handOut, stopAllTracks, bind, modify, ret.
  cbv beta iota. cbn [fst snd].
  set (s1 := with_svc (set_permissionStatus "granted") _).
  assert (Hs1 : permissionStatus (svc s1) = "granted" /\
                isInitialized (svc s1) = false /\
                errorLog (world s1) = errorLog (world s) /\
                streams (world s1) = (streams (world s) ++ [map stop tracks])%list).
  { subst s1. destruct s as [v w]. cbn in *. unfold Stream in *.
    rewrite update_nth_app_last. auto. }
  destruct Hs1 as (Hperm1 & Hinit1 & Hlog1 & Hstreams1).
  destruct enumerated as [devices | e].
  - destruct (discover_ok_frame devices s1)
      as (cams & s2 & extra & Hrun & Hperm & _ & Hlog & Hstreams).
    rewrite Hrun. cbv beta iota. exists true.
    rewrite Hperm1 in Hperm. rewrite Hlog1 in Hlog. rewrite Hstreams1 in Hstreams.
    clear Hrun Hperm1 Hinit1 Hlog1 Hstreams1. clearbody s1.
    split; [reflexivity |]. split; [discriminate |]. intros _.
    cbn [fst snd]. destruct s2 as [v2 w2]. cbn in *.
    split; [reflexivity |].
    split; [split; [intros _; split; [reflexivity |]; split; eexists; reflexivity
                   | reflexivity] |].
    split; [intros _; congruence |].
    split; [discriminate |].
    split; [discriminate |].
    split; [intros _; congruence |].
    intros _ t Ht. inversion Ht; subst t.
    unfold allStopped. cbn. rewrite Hstreams, <- app_assoc.
    unfold Stream in *. cbn [app].
    rewrite app_nth2 by lia. rewrite Nat.sub_diag. cbn [nth].
    apply all_stopped_after_stop.
  - unfold discoverDevices, throw, handleError, modify, ret. cbv beta iota.
    exists false.
    clearbody s1.
    split; [reflexivity |]. split; [discriminate |]. intros _.
    cbn [fst snd]. destruct s1 as [v1 w1]. cbn in *.
    split; [exact Hinit1 |].
    split; [split; [discriminate | intros (_ & _ & (d & H)); discriminate] |].
    split; [discriminate |].
    split; [intros _; eexists; rewrite Hlog1; reflexivity |].
    split; [discriminate |].
    split; [intros _; exact Hperm1 |].
    intros _ t Ht. inversion Ht; subst t.
    unfold allStopped. cbn. rewrite Hstreams1. unfold Stream in *.
    rewrite nth_app_last. apply all_stopped_after_stop.
Qed.

Lemma initialize_witness :
  let refused :=
    exec (initialize true (Refused "NotAllowedError" "Permission denied") (Ok [cam1]))
         (new_service webcam_world) in
  permissionStatus (svc refused) = "denied" /\
  isInitialized (svc refused) = false.
Proof.
  destruct (initialize_outcomes true (Refused "NotAllowedError" "Permission denied")
              (Ok [cam1]) (new_service webcam_world))
    as (ok & Hres & _ & Hrest).
  destruct (Hrest eq_refl) as (Hinit & _ & _ & _ & _ & Hperm & _).
  split; [exact (Hperm eq_refl) |].
  rewrite Hinit. vm_compute in Hres. inversion Hres. reflexivity.
Defined.

End CameraMoreFacts.

(** * More properties of the live frame sampler *)
Module DetectionMoreFacts.
Import Detection DetectionFacts Sampler.

(** What the loop over a batch does to the store and to the service,
    whatever the store answers. *)
Lemma alertLoop_accounting results pending :
  forall s,
  exists rows entries,
    let r := result (alertLoop results pending) s in
    let s' := exec (alertLoop results pending) s in
    db_alerts (world s') = (db_alerts (world s) ++ rows)%list /\
    db_logs (world s') = (db_logs (world s) ++ entries)%list /\
    (List.length rows <= List.length pending)%nat /\
    (forall row, In row rows ->
                 exists alert, In alert pending /\ event_type row = type alert /\
                               frame_number row = frameCount (svc s)) /\
    isActive (svc s') = isActive (svc s) /\
    isProcessing (svc s') = isProcessing (svc s) /\
    frameCount (svc s') = frameCount (svc s) /\
    lastDetectionTime (svc s') = lastDetectionTime (svc s) /\
    store (world s') = store (world s) /\
    match r with
    | Ok _ => List.length rows = List.length entries /\
              store_calls (world s') = (store_calls (world s) + 2 * List.length rows)%nat
    | Throw _ => (List.length rows = List.length entries \/
                  List.length rows = S (List.length entries)) /\
                 store_calls (world s')
                 = S (store_calls (world s) + List.length rows + List.length entries)
    end.
Proof.
  induction pending as [| alert rest IH]; intros s.
  - exists [], []. cbn. rewrite !app_nil_r. repeat split; auto. intros row [].
  - unfold result, exec. cbn [alertLoop].
    unfold bind, now, gets, createAlert, createSystemLog, insert, modify, ret.
    cbv beta iota.
    destruct (Z.ltb (clock (world s) - lastAlertTime s (alertKey alert)) cooldownPeriod).
    + destruct (IH s) as (rows & entries & H1 & H2 & H3 & H4 & H5).
      exists rows, entries. unfold result, exec in *.
      split; [exact H1 |]. split; [exact H2 |]. split; [cbn; lia |].
      split; [| exact H5].
      intros row Hrow. destruct (H4 row Hrow) as (a & Ha & Hrest).
      exists a. split; [right; exact Ha | exact Hrest].
    + destruct s as [v w]; cbn [svc world with_svc].
      destruct (rejected (store w (store_calls w))); cbn [fst snd].
      { exists [], []. cbn. rewrite !app_nil_r.
        repeat split; auto; try lia. }
      cbn [svc world with_svc store store_calls clock db_alerts db_logs].
      destruct (rejected (store w (S (store_calls w)))); cbn [fst snd].
      { eexists [_], []. cbn. rewrite !app_nil_r.
        split; [reflexivity |]. split; [reflexivity |]. split; [lia |].
        split.
        { intros row [<- | []]. exists alert. cbn. auto. }
        repeat split; auto; lia. }
      match goal with
      | |- context [alertLoop results rest ?s2] =>
          destruct (IH s2) as (rows & entries & H1 & H2 & H3 & H4 & H5 & H6 & H7 & H8 & H9 & H10);
          set (s1 := s2) in *
      end.
      unfold result, exec in *.
      eexists (_ :: rows), (_ :: entries).
      split; [rewrite H1; subst s1; cbn; rewrite <- app_assoc; reflexivity |].
      split; [rewrite H2; subst s1; cbn; rewrite <- app_assoc; reflexivity |].
      split; [cbn; lia |].
      split.
      { intros row [<- | Hrow].
        - exists alert. cbn. auto.
        - destruct (H4 row Hrow) as (a & Ha & Ht & Hf).
          exists a. split; [right; exact Ha |]. split; [exact Ht |].
          rewrite Hf. reflexivity. }
      split; [rewrite H5; reflexivity |]. split; [rewrite H6; reflexivity |].
      split; [rewrite H7; reflexivity |]. split; [rewrite H8; reflexivity |].
      split; [rewrite H9; reflexivity |].
      destruct (fst (alertLoop results rest s1)).
      * destruct H10 as (Hlen & Hcalls). split; [cbn; lia |].
        rewrite Hcalls. subst s1. cbn. lia.
      * destruct H10 as (Hlen & Hcalls). split; [cbn; lia |].
        rewrite Hcalls. subst s1. cbn. lia.
Qed.

Lemma handleDetectionResults_frame results s :
  exists s' rows,
    handleDetectionResults results s = (Ok tt, s') /\
    isActive (svc s') = isActive (svc s) /\
    isProcessing (svc s') = isProcessing (svc s) /\
    frameCount (svc s') = frameCount (svc s) /\
    lastDetectionTime (svc s') = lastDetectionTime (svc s) /\
    db_alerts (world s') = (db_alerts (world s) ++ rows)%list /\
    (forall row, In row rows -> frame_number row = frameCount (svc s)).
Proof.
  destruct (alertLoop_accounting results (alerts results) s)
    as (rows & entries & H1 & H2 & H3 & H4 & H5 & H6 & H7 & H8 & H9 & H10).
  unfold result, exec, handleDetectionResults, try_catch, ret in *.
  destruct (alertLoop results (alerts results) s) as [[[] | e] s1]; cbn [fst snd] in *;
    exists s1, rows; (split; [reflexivity |]); repeat split; auto;
    intros row Hrow; destruct (H4 row Hrow) as (a & _ & _ & Hf); exact Hf.
Qed.

(** X27.  handleDetectionResults never throws, whatever the store answers.
    It only appends rows: each alert row comes from a candidate of the
    batch and carries the frame counter of the cycle, there is at most one
    per candidate, and a log row is written only after its alert row, so
    the log rows added are as many as the alert rows or one fewer.  Every
    store call but at most one, the rejected one, added a row.  Apart from
    the cooldown map the service is as it was. *)
Theorem handleDetectionResults_accounting :
  forall results s,
    let s' := exec (handleDetectionResults results) s in
    result (handleDetectionResults results) s = Ok tt /\
    (exists rows entries,
        db_alerts (world s') = (db_alerts (world s) ++ rows)%list /\
        db_logs (world s') = (db_logs (world s) ++ entries)%list /\
        (List.length rows <= List.length (alerts results))%nat /\
        (List.length entries <= List.length rows <= S (List.length entries))%nat /\
        (store_calls (world s) + List.length rows + List.length entries
         <= store_calls (world s')
         <= S (store_calls (world s) + List.length rows + List.length entries))%nat /\
        (forall row, In row rows ->
                     exists alert, In alert (alerts results) /\
                                   event_type row = type alert /\
                                   frame_number row = frameCount (svc s))) /\
    isActive (svc s') = isActive (svc s) /\
    isProcessing (svc s') = isProcessing (svc s) /\
    frameCount (svc s') = frameCount (svc s) /\
    lastDetectionTime (svc s') = lastDetectionTime (svc s).
Proof.
  intros results s.
  destruct (alertLoop_accounting results (alerts results) s)
    as (rows & entries & H1 & H2 & H3 & H4 & H5 & H6 & H7 & H8 & H9 & H10).
  unfold result, exec, handleDetectionResults, try_catch, ret in *.
  destruct (alertLoop results (alerts results) s) as [[[] | e] s1]; cbn [fst snd] in *.
  - split; [reflexivity |]. split; [| auto].
    exists rows, entries. destruct H10 as (Hlen & Hcalls).
    repeat split; auto; lia.
  - split; [reflexivity |]. split; [| auto].
    exists rows, entries. destruct H10 as (Hlen & Hcalls).
    repeat split; auto; lia.
Qed.


(** *** A sampling cycle *)

Lemma processFrame_split captured analysis s :
  processFrame captured analysis s
  = (b <- processFrame_begin captured ;;
     if b then processFrame_end analysis else ret tt) s.
Proof.
  unfold processFrame, processFrame_begin, processFrame_end, bind, gets, modify, ret, now,
    when.
  destruct (negb (isActive (svc s)) || isProcessing (svc s))%bool; [reflexivity |].
  destruct captured; [| reflexivity].
  cbv beta iota.
  destruct analysis as [results |]; [| reflexivity].
  destruct (Nat.ltb 0 (List.length (alerts results))); [| reflexivity].
  destruct (handleDetectionResults_frame results
              (with_svc (fun v => mkService (isActive v) true (S (frameCount v))
                                            (lastDetectionTime v) (alertCooldowns v)) s))
    as (s1 & rows & Hrun & _).
  rewrite Hrun. reflexivity.
Qed.

(** X28.  processFrame never throws.  On a sampler that is inactive or busy
    it changes nothing.  Otherwise it counts the frame and leaves the busy
    flag released, whatever the capture, the analysis and the store did; the
    alert rows it stores carry the new frame count; the time of the last
    detection is set when a frame was captured, and without a captured frame
    nothing but the frame counter changes.  It is its part before the await
    of the analysis followed, if a cycle began, by the part after it. *)
Theorem processFrame_releases_the_busy_flag :
  forall captured analysis s,
    let s' := exec (processFrame captured analysis) s in
    result (processFrame captured analysis) s = Ok tt /\
    isActive (svc s') = isActive (svc s) /\
    (isActive (svc s) = false \/ isProcessing (svc s) = true -> s' = s) /\
    (isActive (svc s) = true -> isProcessing (svc s) = false ->
     isProcessing (svc s') = false /\
     frameCount (svc s') = S (frameCount (svc s)) /\
     (exists rows,
         db_alerts (world s') = (db_alerts (world s) ++ rows)%list /\
         forall row, In row rows -> frame_number row = S (frameCount (svc s))) /\
     (captured = true -> lastDetectionTime (svc s') = clock (world s')) /\
     (captured = false ->
      world s' = world s /\
      lastDetectionTime (svc s') = lastDetectionTime (svc s) /\
      alertCooldowns (svc s') = alertCooldowns (svc s))) /\
    processFrame captured analysis s
    = (b <- processFrame_begin captured ;;
       if b then processFrame_end analysis else ret tt) s.
Proof.
  intros captured analysis s.
  split; [| split; [| split; [| split; [| apply processFrame_split]]]].
  - unfold result, processFrame, bind, gets, modify, ret, now, when.
    destruct (negb (isActive (svc s)) || isProcessing (svc s))%bool; [reflexivity |].
    destruct captured; [| reflexivity]. cbv beta iota.
    destruct analysis as [results |]; [| reflexivity].
    destruct (Nat.ltb 0 (List.length (alerts results))); [| reflexivity].
    match goal with
    | |- context [handleDetectionResults results ?s0] =>
        destruct (handleDetectionResults_frame results s0) as (s1 & rows & Hrun & _)
    end.
    rewrite Hrun. reflexivity.
  - unfold exec, processFrame, bind, gets, modify, ret, now, when.
    destruct (negb (isActive (svc s)) || isProcessing (svc s))%bool; [reflexivity |].
    destruct captured; [| reflexivity]. cbv beta iota.
    destruct analysis as [results |]; [| reflexivity].
    destruct (Nat.ltb 0 (List.length (alerts results))); [| reflexivity].
    match goal with
    | |- context [handleDetectionResults results ?s0] =>
        destruct (handleDetectionResults_frame results s0) as (s1 & rows & Hrun & Hact & _)
    end.
    rewrite Hrun. cbn. exact Hact.
  - intros Hskip. unfold exec, processFrame, bind, gets, ret.
    destruct Hskip as [-> | ->]; [reflexivity |].
    rewrite Bool.orb_true_r. reflexivity.
  - intros Hactive Hidle.
    unfold exec, processFrame, bind, gets, modify, ret, now, when.
    rewrite Hactive, Hidle. cbn [negb orb]. cbv beta iota.
    destruct captured.
    2:{ destruct s as [v w]. cbn in *.
        split; [reflexivity |]. split; [reflexivity |].
        split; [exists []; rewrite app_nil_r; split; [reflexivity | intros row []] |].
        split; [discriminate | auto]. }
    assert (Hdone : forall s0,
               frameCount (svc s0) = S (frameCount (svc s)) ->
               (exists rows,
                   db_alerts (world s0) = (db_alerts (world s) ++ rows)%list /\
                   forall row, In row rows -> frame_number row = S (frameCount (svc s))) ->
               let s' :=
                 with_svc (fun v => mkService (isActive v) false (frameCount v)
                                              (lastDetectionTime v) (alertCooldowns v))
                   (with_svc (fun v => mkService (isActive v) (isProcessing v) (frameCount v)
                                                 (clock (world s0)) (alertCooldowns v)) s0) in
               isProcessing (svc s') = false /\
               frameCount (svc s') = S (frameCount (svc s)) /\
               (exists rows,
                   db_alerts (world s') = (db_alerts (world s) ++ rows)%list /\
                   forall row, In row rows -> frame_number row = S (frameCount (svc s))) /\
               (true = true -> lastDetectionTime (svc s') = clock (world s')) /\
               (true = false ->
                world s' = world s /\
                lastDetectionTime (svc s') = lastDetectionTime (svc s) /\
                alertCooldowns (svc s') = alertCooldowns (svc s))).
    { intros [v0 w0] Hcount Hrows. cbn in *.
      split; [reflexivity |]. split; [exact Hcount |]. split; [exact Hrows |].
      split; [reflexivity | discriminate]. }
    set (s0 := with_svc _ s).
    assert (Hs0 : frameCount (svc s0) = S (frameCount (svc s)) /\
                  db_alerts (world s0) = db_alerts (world s))
      by (subst s0; destruct s as [v w]; cbn; auto).
    destruct Hs0 as (Hcount0 & Hrows0).
    destruct analysis as [results |].
    + destruct (Nat.ltb 0 (List.length (alerts results))).
      * destruct (handleDetectionResults_frame results s0)
          as (s1 & rows & Hrun & _ & _ & Hcount & _ & Hrows & Hframe).
        rewrite Hrun. cbv beta iota. cbn [fst snd]. apply Hdone.
        -- congruence.
        -- exists rows. split; [congruence |].
           intros row Hrow. rewrite (Hframe row Hrow). exact Hcount0.
      * cbn [fst snd]. apply Hdone; [exact Hcount0 |].
        exists []. rewrite app_nil_r. split; [exact Hrows0 | intros row []].
    + cbn [fst snd]. apply Hdone; [exact Hcount0 |].
      exists []. rewrite app_nil_r. split; [exact Hrows0 | intros row []].
Qed.


Lemma handleDetectionResults_accounting_witness :
  let s := new_service first_insert_rejected in
  result (handleDetectionResults (batch [fight; fall])) s = Ok tt /\
  isProcessing (svc (exec (handleDetectionResults (batch [fight; fall])) s)) = false.
Proof.
  destruct (handleDetectionResults_accounting (batch [fight; fall])
              (new_service first_insert_rejected))
    as (Hres & _ & _ & Hbusy & _).
  split; [exact Hres | exact Hbusy].
Defined.

Lemma processFrame_witness :
  let s := exec (processFrame true (Some (batch [fight])))
                (sys started) in
  isProcessing (svc s) = false /\ frameCount (svc s) = 1%nat.
Proof.
  destruct (processFrame_releases_the_busy_flag true (Some (batch [fight])) (sys started))
    as (_ & _ & _ & Hran & _).
  destruct (Hran eq_refl eq_refl) as (Hbusy & Hcount & _).
  split; [exact Hbusy | exact Hcount].
Defined.

(** *** The detection loop *)

Lemma clearTimeout_single id : clearTimeout id [id] = [].
Proof. unfold clearTimeout. cbn. rewrite Nat.eqb_refl. reflexivity. Qed.

Lemma processFrame_begin_isActive captured s :
  isActive (svc (snd (processFrame_begin captured s))) = isActive (svc s).
Proof.
  unfold processFrame_begin, bind, gets, modify, ret.
  destruct (negb (isActive (svc s)) || isProcessing (svc s))%bool; [reflexivity |].
  destruct captured; reflexivity.
Qed.

Lemma processFrame_end_isActive analysis s :
  isActive (svc (exec (processFrame_end analysis) s)) = isActive (svc s).
Proof.
  unfold exec, processFrame_end, bind, gets, modify, ret, now, when.
  destruct analysis as [results |]; [| reflexivity].
  destruct (Nat.ltb 0 (List.length (alerts results))); [| reflexivity].
  destruct (handleDetectionResults_frame results s) as (s1 & rows & Hrun & Hact & _).
  rewrite Hrun. cbn. exact Hact.
Qed.

Lemma new_loop_oneLoop w : oneLoop (new_loop w).
Proof. unfold oneLoop. cbn. auto. Qed.

Lemma react_oneLoop e l : oneLoop l -> oneLoop (react e l).
Proof.
  unfold oneLoop. intros (Hnext & Hinv).
  destruct e as [srcObject | | | id captured | analysis | dt]; cbn [react].
  - unfold startDetection.
    destruct (isActive (svc (sys l))) eqn:Hactive; cbn [snd].
    + rewrite Hactive. auto.
    + destruct srcObject; cbn [negb snd].
      * destruct Hinv as (Hint & Htimers & Hstream). cbn. rewrite Htimers.
        split; [lia |]. exists (next_timer l). cbn. repeat split; auto; lia.
      * rewrite Hactive. auto.
  - unfold stopDetection.
    destruct (isActive (svc (sys l))) eqn:Hactive; cbn [negb].
    + destruct Hinv as (id & Hint & Htimers & Hid & Hstream).
      rewrite Hint, Htimers.
      destruct (Nat.eqb_spec id 0) as [-> | Hne]; [lia |].
      cbn [fst snd]. rewrite clearTimeout_single. cbn. auto.
    + rewrite Hactive. auto.
  - unfold dispose, stopDetection.
    destruct (isActive (svc (sys l))) eqn:Hactive; cbn [negb].
    + destruct Hinv as (id & Hint & Htimers & Hid & Hstream).
      rewrite Hint, Htimers.
      destruct (Nat.eqb_spec id 0) as [-> | Hne]; [lia |].
      cbn [fst snd]. rewrite clearTimeout_single. cbn. auto.
    + cbn. rewrite Hactive. auto.
  - unfold fire.
    destruct (existsb (Nat.eqb id) (timers l)) eqn:Hpending.
    2:{ split; [exact Hnext | exact Hinv]. }
    destruct (isActive (svc (sys l))) eqn:Hactive.
    + destruct Hinv as (id0 & Hint & Htimers & Hid & Hstream).
      rewrite Htimers in Hpending |- *. cbn in Hpending.
      rewrite Bool.orb_false_r in Hpending. apply Nat.eqb_eq in Hpending. subst id0.
      rewrite clearTimeout_single. cbn -[processFrame_begin].
      rewrite processFrame_begin_isActive, Hactive.
      split; [lia |]. exists (next_timer l). repeat split; auto; lia.
    + destruct Hinv as (Hint & Htimers & Hstream).
      rewrite Htimers in Hpending. discriminate.
  - unfold settle. destruct (inFlight l); [split; [exact Hnext | exact Hinv] |].
    cbn. rewrite processFrame_end_isActive. split; [exact Hnext | exact Hinv].
  - destruct l as [[v w] cs di ts nt fl]. cbn in *. split; [exact Hnext | exact Hinv].
Qed.

(** X29.  However starts, stops, disposals, timeouts, settled analyses and
    the passing of time follow one another on a new sampler, exactly one
    timeout is pending while the sampler is active, the one whose id it
    holds, and none while it is inactive: a second startDetection does not
    start a second loop, and a stop or dispose leaves no timeout behind. *)
Theorem one_detection_loop :
  forall w events, oneLoop (play events (new_loop w)).
Proof.
  intros w events. unfold play.
  generalize (new_loop_oneLoop w). generalize (new_loop w).
  induction events as [| e rest IH]; intros l Hinv; [exact Hinv |].
  cbn. apply IH. apply react_oneLoop. exact Hinv.
Qed.

(** X30.  The busy flag guards against overlapping cycles only while the
    sampler keeps running.  When a timeout begins a cycle on an active, idle
    sampler, the next timeout begins none while the cycle is in flight.  But
    stopDetection releases the busy flag and resets the frame counter while
    the cycle is still in flight, so that after a stop and a start the next
    timeout begins a second cycle beside the first, counted as frame 1. *)
Theorem stop_and_restart_defeat_the_overlap_guard :
  forall l id,
    oneLoop l ->
    isActive (svc (sys l)) = true ->
    isProcessing (svc (sys l)) = false ->
    detectionInterval l = Some id ->
    let l1 := react (Fire id true) l in
    inFlight l1 = S (inFlight l) /\
    isProcessing (svc (sys l1)) = true /\
    (forall id1, detectionInterval l1 = Some id1 ->
                 sys (react (Fire id1 true) l1) = sys l1 /\
                 inFlight (react (Fire id1 true) l1) = inFlight l1) /\
    let l2 := react (Start true) (react Stop l1) in
    forall id2, detectionInterval l2 = Some id2 ->
                inFlight (react (Fire id2 true) l2) = S (S (inFlight l)) /\
                frameCount (svc (sys (react (Fire id2 true) l2))) = 1%nat.
Proof.
  intros l id (Hnext & Hinv) Hactive Hidle Hint.
  rewrite Hactive in Hinv. destruct Hinv as (id0 & Hint0 & Htimers & Hid & Hstream).
  rewrite Hint in Hint0. inversion Hint0; subst id0. clear Hint0.
  destruct l as [[[act busy fc ldt cds] w] cs di ts nt fl]. cbn in * |-. subst.
  assert (Hnt : Nat.eqb nt 0 = false) by (apply Nat.eqb_neq; lia).
  assert (Hbegin : fire id true
                     (mkLoop (mkSys (mkService true false fc ldt cds) w) true (Some id) [id]
                             nt fl)
                   = mkLoop (mkSys (mkService true true (S fc) ldt cds) w) true (Some nt) [nt]
                            (S nt) (S fl)).
  { unfold fire, clearTimeout. cbn. rewrite Nat.eqb_refl. reflexivity. }
  cbn [react]. rewrite Hbegin. cbn [inFlight sys svc isProcessing detectionInterval].
  split; [reflexivity |]. split; [reflexivity |]. split.
  - intros id1 Hid1. inversion Hid1; subst id1.
    unfold fire, clearTimeout. cbn. rewrite Nat.eqb_refl. cbn. auto.
  - assert (Hstop : stopDetection
                      (mkLoop (mkSys (mkService true true (S fc) ldt cds) w) true (Some nt)
                              [nt] (S nt) (S fl))
                    = mkLoop (mkSys (mkService false false 0 ldt cds) w) false None []
                             (S nt) (S fl)).
    { unfold stopDetection, clearTimeout. cbn. rewrite Hnt. cbn.
      rewrite Nat.eqb_refl. reflexivity. }
    rewrite Hstop. cbn [startDetection]. unfold startDetection, scheduleNextFrame. cbn.
    intros id2 Hid2. inversion Hid2; subst id2.
    unfold fire, clearTimeout. cbn. rewrite Nat.eqb_refl. cbn. auto.
Qed.

Lemma stop_and_restart_witness :
  let l1 := react (Fire 1 true) started in
  let l2 := react (Start true) (react Stop l1) in
  inFlight l1 = 1%nat /\
  inFlight (react (Fire 3 true) l2) = 2%nat.
Proof.
  destruct (stop_and_restart_defeat_the_overlap_guard started 1%nat
              ltac:(vm_compute; repeat split; try lia; exists 1%nat; repeat split; lia)
              eq_refl eq_refl eq_refl)
    as (Hone & _ & _ & Htwo).
  split; [exact Hone |].
  exact (proj1 (Htwo 3%nat eq_refl)).
Defined.

End DetectionMoreFacts.


(** * Properties of the sampling cycle, await by await *)
Module CycleFacts.
Import Detection DetectionFacts Sampler Cycle.

(** An insert called and settled at once is the insert of the handler run
    to its end. *)
Lemma issue_settled_is_insert add s :
  (call <- issue ;; settled call add) s = insert add s.
Proof. unfold bind, issue, settled, insert. cbn. reflexivity. Qed.

(** What the loop does up to its next insert: nothing but the call of that
    insert, for a candidate that passes the cooldown check now. *)
Lemma advance_spec results pending :
  forall s,
    advance results pending s = (Ok None, s) \/
    exists alert rest,
      advance results pending s
      = (Ok (Some (AwaitAlert results alert (clock (world s))
                              (makeAlertData alert results (clock (world s))
                                             (frameCount (svc s)))
                              (store_calls (world s)) rest)),
         mkSys (svc s)
               (mkWorld (clock (world s)) (store (world s)) (S (store_calls (world s)))
                        (db_alerts (world s)) (db_logs (world s)))) /\
      In alert pending /\
      cooldownPeriod <= clock (world s) - lastAlertTime s (alertKey alert).
Proof.
  induction pending as [| alert rest IH]; intros s; [left; reflexivity |].
  cbn [advance]. unfold bind, now, gets, issue, ret. cbv beta iota.
  destruct (Z.ltb_spec (clock (world s) - lastAlertTime s (alertKey alert)) cooldownPeriod)
    as [Hcool | Hpass].
  - destruct (IH s) as [Hnone | (a & r & Hrun & Hin & Hp)]; [left; exact Hnone |].
    right. exists a, r. split; [exact Hrun |]. split; [right; exact Hin | exact Hp].
  - right. exists alert, rest. split; [reflexivity |]. split; [left; reflexivity | exact Hpass].
Qed.











(** The cycle cut at its awaits and run with nothing in between is the
    cycle of [Sampler], which runs the rest of processFrame in one step. *)
Lemma settleAll_None fuel : settleAll fuel None = ret tt.
Proof. destruct fuel; reflexivity. Qed.

Lemma loop_alone results pending :
  forall fuel s,
    (2 * List.length pending < fuel)%nat ->
    (next <- advance results pending ;; settleAll fuel (Some (leave next))) s
    = (Ok tt, exec (finish ;; ret tt) (exec (alertLoop results pending) s)).
Proof.
  induction pending as [| alert rest IH]; intros fuel s Hfuel.
  - destruct fuel as [| fuel]; [cbn in Hfuel; lia |]. destruct fuel; reflexivity.
  - destruct fuel as [| [| fuel]]; try (cbn in Hfuel; lia).
    assert (Hrest : (2 * List.length rest < fuel)%nat) by (cbn in Hfuel; lia).
    assert (Hskip : (2 * List.length rest < S (S fuel))%nat) by lia.
    pose proof (IH (S (S fuel)) s Hskip) as IHskip.
    pose proof (fun s0 => IH fuel s0 Hrest) as IHnext. clear IH.
    unfold exec in *. cbn [advance alertLoop].
    remember (advance results rest) as A eqn:HA.
    remember (alertLoop results rest) as L eqn:HL.
    unfold bind, now, gets in *. cbv beta iota in *.
    destruct (Z.ltb (clock (world s) - lastAlertTime s (alertKey alert)) cooldownPeriod);
      [exact IHskip |].
    unfold createAlert, createSystemLog, insert, issue, ret, modify in *.
    cbv beta iota zeta.
    cbn [settleAll resume leave]. unfold try_catch, settled, bind, modify, gets, issue, ret.
    cbv beta iota zeta.
    destruct s as [v w]. cbn [svc world store store_calls clock db_alerts db_logs].
    destruct (rejected (store w (store_calls w))).
    { unfold finish, bind, now, gets, modify, ret. cbn. rewrite settleAll_None. reflexivity. }
    cbn [svc world store store_calls clock db_alerts db_logs addAlert with_svc
         set_alertCooldowns frameCount fst snd].
    cbn [settleAll resume leave]. unfold try_catch, settled, bind, ret.
    cbv beta iota zeta.
    cbn [svc world store store_calls clock db_alerts db_logs].
    destruct (rejected (store w (S (store_calls w)))).
    { destruct fuel as [| fuel]; [exfalso; lia |].
      cbn [settleAll resume]. unfold finish, bind, now, gets, modify, ret. cbn.
      rewrite settleAll_None. reflexivity. }
    unfold addLog, addAlert. cbn [svc world store store_calls clock db_alerts db_logs].
    rewrite <- HA.
    match goal with
    | |- context [A ?s0] => specialize (IHnext s0); destruct (A s0) as [[next | e] s1]
    end; [exact IHnext | discriminate IHnext].
Qed.

Lemma cycle_alone analysis s :
  let fuel := match analysis with
              | Some results => S (2 * List.length (alerts results))
              | None => 0%nat
              end in
  (next <- analysed analysis ;; settleAll fuel next) s
  = processFrame_end analysis s.
Proof.
  unfold analysed, processFrame_end, when.
  destruct analysis as [results |]; [| destruct s; reflexivity].
  destruct (Nat.ltb 0 (List.length (alerts results))) eqn:Hlen.
  2:{ destruct s. unfold finish, bind, now, gets, modify, ret. cbn.
      rewrite ?settleAll_None. reflexivity. }
  pose proof (loop_alone results (alerts results) (S (2 * List.length (alerts results))) s
                         ltac:(lia)) as Hloop.
  remember (S (2 * List.length (alerts results))) as fuel eqn:Hfuel.
  unfold bind in Hloop |- *. unfold ret in Hloop |- *.
  destruct (advance results (alerts results) s) as [[next | e] s1] eqn:Hadv.
  - rewrite Hloop.
    unfold exec, handleDetectionResults, try_catch, finish, bind, ret, now, gets, modify.
    destruct (alertLoop results (alerts results) s) as [[[] | e] s2]; destruct s2; reflexivity.
  - destruct (advance_spec results (alerts results) s) as [H | (a & r & H & _)];
      rewrite H in Hadv; discriminate.
Qed.




End CycleFacts.


(** * Properties of the camera lifecycle manager, await by await *)
Module CameraAsyncFacts.
Import Camera CameraFacts CameraOps CameraMoreFacts CameraAsync.

(** *** Streams only stop *)

Lemma noRevival_refl s : noRevival s s.
Proof. split; [lia | auto]. Qed.

Lemma noRevival_app s s' extra :
  streams (world s') = (streams (world s) ++ extra)%list -> noRevival s s'.
Proof.
  intros Hs. split; [rewrite Hs, length_app; lia |].
  intros c Hc. unfold videoLive. rewrite Hs. unfold Stream in *.
  rewrite app_nth1 by exact Hc. auto.
Qed.

Lemma noRevival_update s s' h (f : Stream -> Stream) :
  streams (world s') = update_nth h f (streams (world s)) ->
  f [] = [] ->
  (forall tracks i t', nth_error (f tracks) i = Some t' -> live t' = true ->
                       nth_error tracks i = Some t') ->
  noRevival s s'.
Proof.
  intros Hs Hnil Hf. split; [rewrite Hs, length_update_nth; lia |].
  intros c _. unfold videoLive. rewrite Hs. unfold Stream in *.
  destruct (Nat.eq_dec h (stream c)) as [<- | Hne].
  - rewrite (nth_update_nth f []) by exact Hnil.
    match goal with
    | |- context [nth_error (f ?x) ?i] => destruct (nth_error (f x) i) as [t' |] eqn:Ht
    end; [| intros H; discriminate H].
    intros Hlive. rewrite (Hf _ _ _ Ht Hlive). exact Hlive.
  - rewrite nth_update_nth_other by exact Hne. auto.
Qed.

Lemma stop_all_revives_nothing (tracks : Stream) i t' :
  nth_error (map stop tracks) i = Some t' -> live t' = true ->
  nth_error tracks i = Some t'.
Proof.
  rewrite nth_error_map. destruct (nth_error tracks i); cbn; [| discriminate].
  intros H Hlive. inversion H; subst. discriminate.
Qed.

Lemma endTrack_revives_nothing j (tracks : Stream) i t' :
  nth_error (endTrack j tracks) i = Some t' -> live t' = true ->
  nth_error tracks i = Some t'.
Proof.
  unfold endTrack. revert j i.
  induction tracks as [| t rest IH]; intros [| j] [| i]; cbn; try discriminate; auto.
  - intros H Hlive. inversion H; subst. discriminate.
  - apply IH.
Qed.

Lemma noRevival_trans s1 s2 s3 : noRevival s1 s2 -> noRevival s2 s3 -> noRevival s1 s3.
Proof.
  intros (L1 & R1) (L2 & R2). split; [lia |].
  intros c Hc Hlive. apply R1; [exact Hc |]. apply R2; [lia | exact Hlive].
Qed.

(** *** What the pieces of the calls do *)

Lemma getUserMedia_spec s :
  let r := fst (settle getUserMedia s) in
  let s' := snd (settle getUserMedia s) in
  svc s' = svc s /\
  (exists extra, streams (world s') = (streams (world s) ++ extra)%list) /\
  (forall answer, r = Ok answer ->
                  forall h, answer = Ok h -> (h < List.length (streams (world s')))%nat).
Proof.
  unfold settle, getUserMedia. destruct s as [v w]; cbn [svc world].
  destruct (gum w (gum_calls w)) as [m | tracks]; cbn.
  - split; [reflexivity |]. split; [exists []; rewrite app_nil_r; reflexivity |].
    intros answer H h Hh. subst answer. discriminate H.
  - split; [reflexivity |]. split; [exists [tracks]; reflexivity |].
    intros answer H h Hh. subst answer. inversion H; subst.
    rewrite length_app. cbn. lia.
Qed.

Lemma connect_begin_spec camera cameraId options s :
  let r := fst (connect_begin camera cameraId options s) in
  let s' := snd (connect_begin camera cameraId options s) in
  activeStreams (svc s') = activeStreams (svc s) /\
  (exists extra, streams (world s') = (streams (world s) ++ extra)%list) /\
  match r with
  | Ok (inr t) =>
      exists k answer,
        t = Connecting cameraId k camera answer /\
        JSMap.get (activeStreams (svc s)) cameraId = None /\
        forall h, answer = Ok h -> (h < List.length (streams (world s')))%nat
  | _ => True
  end.
Proof.
  unfold connect_begin, connectFailed, try_catch, bind, gets, ret, throw, setStatus,
    notifyStatusChange, handleError, modify, lift.
  destruct s as [v w]; cbn [svc world].
  destruct (JSMap.has (connectedCameras v) cameraId); cbn;
    [| split; [reflexivity |]; split; [exists []; rewrite app_nil_r; reflexivity | exact I]].
  destruct (JSMap.get (activeStreams v) cameraId) as [c |] eqn:Hget; cbn;
    [split; [reflexivity |]; split; [exists []; rewrite app_nil_r; reflexivity | exact I] |].
  destruct (buildConstraints cameraId options _) as [k | e]; cbn;
    [| split; [reflexivity |]; split; [exists []; rewrite app_nil_r; reflexivity | exact I]].
  match goal with
  | |- context [settle getUserMedia ?s0] =>
      pose proof (getUserMedia_spec s0) as (Hsvc & Hext & Hans);
      destruct (settle getUserMedia s0) as [[answer | e] s1] eqn:Hgum
  end; cbn [fst snd svc world] in *.
  - destruct s1 as [v1 w1]. cbn [svc world] in *. subst v1. cbn.
    split; [reflexivity |]. split; [exact Hext |].
    exists k, answer. split; [reflexivity |]. split; [reflexivity |].
    intros h Hh. apply (Hans answer eq_refl h Hh).
  - unfold settle in Hgum. destruct (getUserMedia _); discriminate.
Qed.

Lemma connect_end_spec same cameraId k answer s :
  let r := fst (connect_end same cameraId k answer s) in
  let s' := snd (connect_end same cameraId k answer s) in
  streams (world s') = streams (world s) /\
  match r with
  | Ok c =>
      conn_cameraId c = cameraId /\ answer = Ok (stream c) /\
      activeStreams (svc s') = JSMap.set (activeStreams (svc s)) cameraId c
  | Throw _ => activeStreams (svc s') = activeStreams (svc s)
  end.
Proof.
  unfold connect_end, connectFailed, try_catch, bind, gets, ret, throw, setStatus,
    notifyStatusChange, handleError, modify, lift, getTracks, now, newRef, when,
    updateCamera.
  destruct s as [v w]; cbn [svc world].
  destruct answer as [h | e]; cbn; [| auto].
  destruct (Nat.eqb (List.length (nth h (streams w) [])) 0); cbn; [auto |].
  destruct (firstVideo (nth h (streams w) []) 0) as [[i track] |]; cbn; [| auto].
  destruct same; cbn; [| auto].
  destruct (JSMap.get (connectedCameras v) cameraId); cbn; auto.
Qed.

Lemma trackEnded_spec c s :
  let s' := exec (trackEnded c) s in
  activeStreams (svc s') = JSMap.delete (activeStreams (svc s)) (conn_cameraId c) /\
  streams (world s')
  = update_nth (stream c) (endTrack (videoTrack c)) (streams (world s)).
Proof.
  unfold exec, trackEnded, handleStreamEnd, bind, gets, setStatus, notifyStatusChange,
    modify, now, updateCamera.
  destruct s as [v w]; cbn.
  destruct (JSMap.get (connectedCameras v) (conn_cameraId c)); cbn; auto.
Qed.

Lemma endTrack_nil i : endTrack i [] = [].
Proof. destruct i; reflexivity. Qed.

Lemma videoLive_after_end c s :
  videoLive (exec (trackEnded c) s) c = false.
Proof.
  destruct (trackEnded_spec c s) as (_ & Hs). unfold videoLive. rewrite Hs.
  unfold Stream in *.
  rewrite (nth_update_nth (endTrack (videoTrack c)) []) by apply endTrack_nil.
  unfold endTrack. generalize (nth (stream c) (streams (world s)) []) (videoTrack c).
  intros tracks. induction tracks as [| t rest IH]; intros [| i]; cbn; auto.
Qed.

Lemma videoLive_after_stop c s s' :
  streams (world s') = update_nth (stream c) (map stop) (streams (world s)) ->
  videoLive s' c = false.
Proof.
  intros Hs. unfold videoLive. rewrite Hs. unfold Stream in *.
  rewrite (nth_update_nth (map stop) []) by reflexivity.
  rewrite nth_error_map. destruct (nth_error _ (videoTrack c)); reflexivity.
Qed.

(** The pieces of a discovery pass leave the active-stream map alone and
    revive nothing. *)
Lemma probe_begin_spec device rest s :
  exists name answer s',
    probe_begin device rest s = (Ok (Probing device name answer rest), s') /\
    svc s' = svc s /\
    (exists extra, streams (world s') = (streams (world s) ++ extra)%list).
Proof.
  unfold probe_begin, bind, gets, ret.
  pose proof (getUserMedia_spec s) as (Hsvc & Hext & _).
  destruct (settle getUserMedia s) as [[answer | e] s1] eqn:Hgum; cbn [fst snd] in *.
  - eexists. exists answer, s1. split; [reflexivity |]. auto.
  - unfold settle in Hgum. destruct (getUserMedia s); discriminate.
Qed.

Lemma loop_next_spec devices s :
  exists next s',
    loop_next devices s = (Ok next, s') /\
    svc s' = svc s /\
    (exists extra, streams (world s') = (streams (world s) ++ extra)%list) /\
    match next with
    | Some t => isPass t = true
    | None => True
    end.
Proof.
  destruct devices as [| d rest]; cbn [loop_next].
  - exists None, s. split; [reflexivity |]. split; [reflexivity |].
    split; [exists []; rewrite app_nil_r; reflexivity | exact I].
  - destruct (probe_begin_spec d rest s) as (name & answer & s' & Hrun & Hsvc & Hext).
    unfold bind, ret. rewrite Hrun.
    eexists. exists s'. split; [reflexivity |]. split; [exact Hsvc |].
    split; [exact Hext | reflexivity].
Qed.

Lemma probe_end_spec answer s :
  exists capabilities s',
    probe_end answer s = (Ok capabilities, s') /\
    svc s' = svc s /\
    noRevival s s'.
Proof.
  unfold probe_end, try_catch, bind, lift, getTracks, gets, throw, ret, stopAllTracks, modify.
  destruct answer as [h | e]; [| exists no_capabilities, s; split; [reflexivity |];
                                 split; [reflexivity | apply noRevival_refl]].
  destruct (firstVideo (nth h (streams (world s)) []) 0) as [[i track] |];
    [| exists no_capabilities, s; split; [reflexivity |];
       split; [reflexivity | apply noRevival_refl]].
  eexists. eexists. split; [reflexivity |]. destruct s as [v w]. cbn.
  split; [reflexivity |].
  apply (noRevival_update _ _ h (map stop)); [reflexivity | reflexivity |].
  apply stop_all_revives_nothing.
Qed.

Lemma register_spec device name capabilities s :
  let s' := exec (register device name capabilities) s in
  activeStreams (svc s') = activeStreams (svc s) /\ world s' = world s.
Proof. unfold exec, register, bind, now, gets, modify. destruct s; cbn. auto. Qed.

(** Any step of a discovery pass. *)
Lemma resume_pass t a :
  isPass t = true ->
  let next := fst (resume t a) in
  let a' := snd (resume t a) in
  activeStreams (svc (sys a')) = activeStreams (svc (sys a)) /\
  connections a' = connections a /\
  tasks a' = tasks a /\
  noRevival (sys a) (sys a') /\
  match next with
  | Some t' => isPass t' = true
  | None => True
  end.
Proof.
  destruct t as [id k camera answer | [devices | e] | device name answer rest
                 | device name capabilities rest | rest]; cbn [isPass resume];
    intros Hpass; try discriminate.
  - unfold enumerated_end, bind, modify.
    match goal with
    | |- context [loop_next ?l ?s0] =>
        destruct (loop_next_spec l s0) as (next & s' & Hrun & Hsvc & (extra & Hext) & Hnext)
    end.
    rewrite Hrun. cbn [fst snd suspended sys connections tasks].
    destruct a as [[v w] ts cs os no]. cbn [sys svc world with_svc] in *.
    rewrite Hsvc. cbn. split; [reflexivity |]. split; [reflexivity |].
    split; [reflexivity |]. split; [| exact Hnext].
    apply (noRevival_app _ _ extra). exact Hext.
  - cbn. split; [reflexivity |]. split; [reflexivity |]. split; [reflexivity |].
    split; [apply noRevival_refl | exact I].
  - destruct (probe_end_spec answer (sys a)) as (caps & s' & Hrun & Hsvc & Hrev).
    rewrite Hrun. cbn [fst snd set_sys sys connections tasks]. rewrite Hsvc.
    split; [reflexivity |]. split; [reflexivity |]. split; [reflexivity |].
    split; [exact Hrev | reflexivity].
  - destruct (register_spec device name capabilities (sys a)) as (Hact & Hw).
    cbn [fst snd sys connections tasks].
    split; [exact Hact |]. split; [reflexivity |]. split; [reflexivity |].
    split; [| reflexivity].
    apply (noRevival_app _ _ []). rewrite Hw, app_nil_r. reflexivity.
  - destruct (loop_next_spec rest (sys a)) as (next & s' & Hrun & Hsvc & (extra & Hext) & Hnext).
    rewrite Hrun. cbn [fst snd suspended set_sys sys connections tasks]. rewrite Hsvc.
    split; [reflexivity |]. split; [reflexivity |]. split; [reflexivity |].
    split; [| exact Hnext].
    apply (noRevival_app _ _ extra). exact Hext.
Qed.


(** *** Connections when connects do not overlap *)

Lemma tasks_split (ts : list Task) n t :
  nth_error ts n = Some t ->
  ts = (firstn n ts ++ t :: skipn (S n) ts)%list.
Proof.
  revert n. induction ts as [| x ts IH]; intros [| n] H; try discriminate.
  - inversion H. reflexivity.
  - cbn. f_equal. apply IH. exact H.
Qed.

Lemma connecting_app ts1 ts2 :
  connecting (ts1 ++ ts2) = (connecting ts1 ++ connecting ts2)%list.
Proof. unfold connecting. apply flat_map_app. Qed.

Lemma connecting_pass t : isPass t = true -> connecting [t] = [].
Proof. destruct t; cbn; [discriminate | | | |]; reflexivity. Qed.

Lemma connecting_step_of next :
  match next with Some t => isPass t = true | None => True end ->
  connecting (step_of next) = [].
Proof. destruct next as [t |]; [apply connecting_pass | reflexivity]. Qed.

Lemma connecting_In id k camera answer ts :
  In (Connecting id k camera answer) ts -> In id (connecting ts).
Proof.
  intros Hin. unfold connecting. apply in_flat_map.
  exists (Connecting id k camera answer). split; [exact Hin | left; reflexivity].
Qed.

Lemma new_async_orderly w : orderly (new_async w).
Proof.
  unfold orderly. cbn. repeat split; try (intros; contradiction); try discriminate.
  constructor.
Qed.

(** A step that leaves the active-stream map, the connections and the
    suspended connects as they are, and revives nothing. *)
Lemma orderly_quiet a a' :
  activeStreams (svc (sys a')) = activeStreams (svc (sys a)) ->
  connections a' = connections a ->
  noRevival (sys a) (sys a') ->
  connecting (tasks a') = connecting (tasks a) ->
  (forall id k camera h, In (Connecting id k camera (Ok h)) (tasks a') ->
                         In (Connecting id k camera (Ok h)) (tasks a)) ->
  orderly a -> orderly a'.
Proof.
  intros Hact Hconn (Hlen & Hrev) Hing Htasks (O1 & O2 & O3 & O4 & O5 & O6).
  unfold orderly. rewrite Hact, Hconn, Hing.
  split; [| split; [exact O2 | split; [| split; [| split; [exact O5 | exact O6]]]]].
  - intros c Hin Hlive. apply (O1 c Hin). apply Hrev; [apply (O3 c Hin) | exact Hlive].
  - intros c Hin. specialize (O3 c Hin). lia.
  - intros id k camera h Hin. specialize (O4 id k camera h (Htasks id k camera h Hin)). lia.
Qed.

Lemma react_orderly e a :
  match e with
  | CallConnect cameraId _ => ~ In cameraId (connecting (tasks a))
  | _ => True
  end ->
  orderly a -> orderly (react e a).
Proof.
  intros Hserial Hinv.
  destruct e as [cameraId options | enumerated | cameraId | n | ref | dt]; cbn [react].
  - (* connectToCamera is called *)
    pose proof (connect_begin_spec (JSMap.get (objects a) cameraId) cameraId options (sys a))
      as (Hact & (extra & Hext) & Htask).
    destruct (connect_begin (JSMap.get (objects a) cameraId) cameraId options (sys a))
      as [r s'] eqn:Hrun.
    cbn [fst snd] in *.
    assert (Hquiet : forall ts, connecting ts = [] ->
                                (forall id k camera h, ~ In (Connecting id k camera (Ok h)) ts) ->
                                orderly (mkAsync s' (tasks a ++ ts) (connections a)
                                                 (objects a) (next_object a))).
    { intros ts Hnone Hno. apply (orderly_quiet a); cbn [sys tasks connections]; auto.
      - apply (noRevival_app _ _ extra). exact Hext.
      - rewrite connecting_app, Hnone, app_nil_r. reflexivity.
      - intros id k camera h Hin. apply in_app_or in Hin.
        destruct Hin as [Hin | Hin]; [exact Hin | destruct (Hno id k camera h Hin)]. }
    destruct r as [[c | t] | e]; try (apply Hquiet; [reflexivity | intros; intros []]).
    destruct Htask as (k & answer & -> & Hnone & Hh).
    destruct Hinv as (O1 & O2 & O3 & O4 & O5 & O6).
    assert (Hrev : noRevival (sys a) s') by (apply (noRevival_app _ _ extra); exact Hext).
    destruct Hrev as (Hlen & Hrev).
    unfold orderly. cbn [sys tasks connections]. rewrite Hact, connecting_app. cbn [connecting flat_map app].
    split; [| split; [exact O2 | split; [| split; [| split]]]].
    + intros c Hin Hlive. apply (O1 c Hin). apply Hrev; [apply (O3 c Hin) | exact Hlive].
    + intros c Hin. specialize (O3 c Hin). lia.
    + intros id k0 camera h Hin. apply in_app_or in Hin. destruct Hin as [Hin | [Heq | []]].
      * specialize (O4 id k0 camera h Hin). lia.
      * inversion Heq; subst. apply Hh. reflexivity.
    + intros id Hin. apply in_app_or in Hin. destruct Hin as [Hin | [<- | []]];
        [apply (O5 id Hin) | exact Hnone].
    + apply NoDup_app; [exact O6 | constructor; [intros [] | constructor] |].
      intros id Hin [<- | []]. apply Hserial. exact Hin.
  - (* discoverDevices is called *)
    apply (orderly_quiet a); cbn [sys tasks connections]; auto.
    + apply noRevival_refl.
    + rewrite connecting_app. cbn. rewrite app_nil_r. reflexivity.
    + intros id k camera h Hin. apply in_app_or in Hin.
      destruct Hin as [Hin | [Heq | []]]; [exact Hin | discriminate].
  - (* disconnectCamera *)
    unfold exec.
    destruct (JSMap.get (activeStreams (svc (sys a))) cameraId) as [c0 |] eqn:Hget.
    2:{ rewrite (disconnect_not_connected (sys a) cameraId Hget).
        destruct a; exact Hinv. }
    destruct (disconnect_connected (sys a) cameraId c0 Hget)
      as (s' & Hrun & Hact & _ & _ & _ & _ & _ & Hstreams & _).
    rewrite Hrun. cbn [snd].
    destruct Hinv as (O1 & O2 & O3 & O4 & O5 & O6).
    assert (Hrev : noRevival (sys a) s').
    { apply (noRevival_update _ _ (stream c0) (map stop)); [exact Hstreams | reflexivity |].
      apply stop_all_revives_nothing. }
    destruct Hrev as (Hlen & Hrev).
    unfold orderly. cbn [set_sys sys tasks connections]. rewrite Hact.
    split; [| split; [| split; [| split; [| split; [| exact O6]]]]].
    + intros c Hin Hlive.
      assert (Hwas : JSMap.get (activeStreams (svc (sys a))) (conn_cameraId c) = Some c)
        by (apply (O1 c Hin); apply Hrev; [apply (O3 c Hin) | exact Hlive]).
      rewrite JSMapFacts.get_delete.
      destruct (String.eqb_spec cameraId (conn_cameraId c)) as [Heq | Hne]; [| exact Hwas].
      exfalso. rewrite <- Heq, Hget in Hwas. inversion Hwas; subst c0.
      rewrite (videoLive_after_stop c (sys a) s' Hstreams) in Hlive. discriminate.
    + intros id c. rewrite JSMapFacts.get_delete.
      destruct (String.eqb id cameraId) eqn:E; destruct (String.eqb cameraId id);
        try discriminate; apply O2.
    + intros c Hin. specialize (O3 c Hin). lia.
    + intros id k camera h Hin. specialize (O4 id k camera h Hin). lia.
    + intros id Hin. rewrite JSMapFacts.get_delete.
      destruct (String.eqb cameraId id); [reflexivity | apply (O5 id Hin)].
  - (* a suspended call goes on *)
    destruct (nth_error (tasks a) n) as [t |] eqn:Hnth; [| exact Hinv].
    pose proof (tasks_split (tasks a) n t Hnth) as Hsplit.
    set (A := firstn n (tasks a)) in *. set (B := skipn (S n) (tasks a)) in *.
    destruct (isPass t) eqn:Hpass.
    + destruct (resume_pass t a Hpass) as (Hact & Hconn & _ & Hrev & Hnext).
      destruct (resume t a) as [next a1]. cbn [fst snd] in *.
      apply (orderly_quiet a); cbn [sys tasks connections]; auto.
      * rewrite Hsplit, !connecting_app.
        change (t :: B) with ([t] ++ B)%list.
        rewrite connecting_app, (connecting_pass t Hpass), (connecting_step_of next Hnext).
        reflexivity.
      * intros id k camera h Hin. rewrite Hsplit.
        apply in_app_or in Hin. destruct Hin as [Hin | Hin];
          [apply in_or_app; left; exact Hin |].
        apply in_app_or in Hin. destruct Hin as [Hin | Hin];
          [| apply in_or_app; right; right; exact Hin].
        destruct next as [t' |]; [| destruct Hin].
        destruct Hin as [-> | []]. cbn in Hnext. discriminate Hnext.
    + destruct t as [cameraId k camera answer | | | |]; try discriminate.
      cbn [resume fst snd sys connections objects next_object step_of app].
      pose proof (connect_end_spec (sameObject camera (JSMap.get (objects a) cameraId))
                                   cameraId k answer (sys a)) as (Hstreams & Hres).
      destruct (connect_end (sameObject camera (JSMap.get (objects a) cameraId))
                            cameraId k answer (sys a)) as [r s'].
      cbn [fst snd] in *.
      destruct Hinv as (O1 & O2 & O3 & O4 & O5 & O6).
      rewrite Hsplit in O4, O5, O6.
      change (Connecting cameraId k camera answer :: B)
        with ([Connecting cameraId k camera answer] ++ B)%list in O5, O6.
      rewrite !connecting_app in O5, O6. cbn [connecting flat_map app] in O5, O6.
      assert (HnotIn : ~ In cameraId (connecting A ++ connecting B)%list)
        by (apply NoDup_remove_2 in O6; exact O6).
      assert (Hnd : NoDup (connecting A ++ connecting B)%list)
        by (apply NoDup_remove_1 in O6; exact O6).
      assert (Hliveness : forall c, videoLive s' c = videoLive (sys a) c)
        by (intros c; unfold videoLive; rewrite Hstreams; reflexivity).
      assert (Hrest : forall id k0 camera0 h,
                 In (Connecting id k0 camera0 (Ok h)) (A ++ B)%list ->
                 (h < List.length (streams (world s')))%nat).
      { intros id k0 camera0 h Hin. rewrite Hstreams. apply (O4 id k0 camera0 h).
        apply in_app_or in Hin. apply in_or_app.
        destruct Hin as [Hin | Hin]; [left; exact Hin | right; right; exact Hin]. }
      assert (Hnone : forall id, In id (connecting A ++ connecting B)%list ->
                                 JSMap.get (activeStreams (svc (sys a))) id = None).
      { intros id Hin. apply O5. apply in_app_or in Hin. apply in_or_app.
        destruct Hin as [Hin | Hin]; [left; exact Hin | right; right; exact Hin]. }
      assert (Hown : JSMap.get (activeStreams (svc (sys a))) cameraId = None).
      { apply O5. apply in_or_app. right. left. reflexivity. }
      unfold orderly. cbn [sys tasks connections]. rewrite connecting_app.
      destruct r as [c | e]; cbn [made].
      * destruct Hres as (Hid & Hanswer & Hact). rewrite Hact.
        split; [| split; [| split; [| split; [exact Hrest | split; [| exact Hnd]]]]].
        -- intros c' Hin Hlive. rewrite Hliveness in Hlive.
           apply in_app_or in Hin. destruct Hin as [Hin | [<- | []]].
           ++ pose proof (O1 c' Hin Hlive) as Hwas.
              rewrite JSMapFacts.get_set.
              destruct (String.eqb_spec cameraId (conn_cameraId c')) as [Heq | Hne];
                [| exact Hwas].
              rewrite <- Heq, Hown in Hwas. discriminate.
           ++ rewrite Hid. apply JSMapFacts.get_set_same.
        -- intros id c'. rewrite JSMapFacts.get_set.
           destruct (String.eqb_spec cameraId id) as [<- | Hne].
           ++ intros Heq. inversion Heq; subst c'.
              split; [apply in_or_app; right; left; reflexivity | exact Hid].
           ++ intros Hget. destruct (O2 id c' Hget) as (Hin & Hcid).
              split; [apply in_or_app; left; exact Hin | exact Hcid].
        -- intros c' Hin. rewrite Hstreams. apply in_app_or in Hin.
           destruct Hin as [Hin | [<- | []]]; [apply (O3 c' Hin) |].
           apply (O4 cameraId k camera (stream c)). apply in_or_app. right. left.
           rewrite Hanswer. reflexivity.
        -- intros id Hin. rewrite JSMapFacts.get_set.
           destruct (String.eqb_spec cameraId id) as [<- | Hne];
             [destruct (HnotIn Hin) | apply (Hnone id Hin)].
      * rewrite Hres, app_nil_r.
        split; [| split; [exact O2 | split; [| split; [exact Hrest | split;
                                                        [exact Hnone | exact Hnd]]]]].
        -- intros c' Hin Hlive. rewrite Hliveness in Hlive. apply (O1 c' Hin Hlive).
        -- intros c' Hin. rewrite Hstreams. apply (O3 c' Hin).
  - (* the video track of a connection ends *)
    destruct (find (fun c => Nat.eqb (conn_ref c) ref) (connections a)) as [c0 |] eqn:Hfind;
      [| exact Hinv].
    destruct (videoLive (sys a) c0) eqn:Hlive0; [| exact Hinv].
    apply find_some in Hfind. destruct Hfind as (Hin0 & _).
    destruct (trackEnded_spec c0 (sys a)) as (Hact & Hstreams).
    pose proof (videoLive_after_end c0 (sys a)) as Hdead.
    destruct Hinv as (O1 & O2 & O3 & O4 & O5 & O6).
    assert (Hrev : noRevival (sys a) (exec (trackEnded c0) (sys a))).
    { apply (noRevival_update _ _ (stream c0) (endTrack (videoTrack c0)));
        [exact Hstreams | apply endTrack_nil |].
      intros tracks i t'. apply endTrack_revives_nothing. }
    destruct Hrev as (Hlen & Hrev).
    unfold orderly. cbn [set_sys sys tasks connections]. rewrite Hact.
    split; [| split; [| split; [| split; [| split; [| exact O6]]]]].
    + intros c Hin Hlive.
      assert (Hwas : JSMap.get (activeStreams (svc (sys a))) (conn_cameraId c) = Some c)
        by (apply (O1 c Hin); apply Hrev; [apply (O3 c Hin) | exact Hlive]).
      rewrite JSMapFacts.get_delete.
      destruct (String.eqb_spec (conn_cameraId c0) (conn_cameraId c)) as [Heq | Hne];
        [| exact Hwas].
      exfalso. pose proof (O1 c0 Hin0 Hlive0) as Hwas0.
      rewrite Heq, Hwas in Hwas0. inversion Hwas0; subst c0.
      rewrite Hdead in Hlive. discriminate.
    + intros id c. rewrite JSMapFacts.get_delete.
      destruct (String.eqb (conn_cameraId c0) id); [discriminate | apply O2].
    + intros c Hin. specialize (O3 c Hin). lia.
    + intros id k camera h Hin. specialize (O4 id k camera h Hin). lia.
    + intros id Hin. rewrite JSMapFacts.get_delete.
      destruct (String.eqb (conn_cameraId c0) id); [reflexivity | apply (O5 id Hin)].
  - (* time passes *)
    apply (orderly_quiet a); cbn [set_sys sys tasks connections]; auto;
      destruct a as [[v w] ts cs os no]; try reflexivity.
    apply (noRevival_app _ _ []). cbn. rewrite app_nil_r. reflexivity.
Qed.

Lemma play_orderly events :
  forall a, serialConnects events a -> orderly a -> orderly (play events a).
Proof.
  induction events as [| e rest IH]; intros a Hserial Hinv; [exact Hinv |].
  destruct Hserial as (Hnow & Hlater).
  cbn. apply IH; [exact Hlater |]. apply react_orderly; assumption.
Qed.

(** *** A call during which nothing else runs *)

(** The last suspended call goes on. *)
Lemma resume_last a ts t :
  tasks a = (ts ++ [t])%list ->
  react (Resume (List.length ts)) a =
  let after := resume t a in
  mkAsync (sys (snd after)) (ts ++ step_of (fst after))%list
          (connections (snd after)) (objects (snd after)) (next_object (snd after)).
Proof.
  intros Hts. cbn [react]. rewrite Hts.
  rewrite nth_error_app2 by lia. rewrite Nat.sub_diag. cbn [nth_error].
  rewrite firstn_app, firstn_all, Nat.sub_diag. cbn [firstn].
  rewrite skipn_all2 by (rewrite length_app; cbn; lia).
  rewrite !app_nil_r. reflexivity.
Qed.


Lemma play_cons e events a : play (e :: events) a = play events (react e a).
Proof. reflexivity. Qed.

Lemma play_app events1 events2 a :
  play (events1 ++ events2) a = play events2 (play events1 a).
Proof. apply fold_left_app. Qed.


Ltac go_on ts :=
  match goal with
  | |- context [react (Resume (List.length ts)) ?x] =>
      rewrite (resume_last x ts _ eq_refl)
  end.




Lemma nth_error_end {A} (l : list A) : nth_error l (List.length l) = None.
Proof. apply nth_error_None. lia. Qed.

Lemma sameObject_refl o : sameObject (Some o) (Some o) = true.
Proof. apply Nat.eqb_refl. Qed.

(** connectToCamera, cut at its await, is connectToCamera. *)
Lemma connectToCamera_pieces camera cameraId options s :
  connectToCamera cameraId options s =
  match connect_begin camera cameraId options s with
  | (Ok (inl c), s1) => (Ok c, s1)
  | (Ok (inr (Connecting id k _ answer)), s1) => connect_end true id k answer s1
  | (Ok (inr _), s1) => (Throw (JsError "not a connect"), s1)
  | (Throw e, s1) => (Throw e, s1)
  end.
Proof.
  unfold connect_begin, connect_end, connectToCamera, connectFailed, try_catch, bind, gets,
    ret, throw, setStatus, notifyStatusChange, handleError, modify, lift, settle,
    getUserMedia, getTracks, now, newRef, when, updateCamera.
  destruct s as [v w]; cbn [svc world].
  destruct (JSMap.has (connectedCameras v) cameraId); cbn; [| reflexivity].
  destruct (JSMap.get (activeStreams v) cameraId) as [c |]; cbn; [reflexivity |].
  destruct (buildConstraints cameraId options _) as [k | e]; cbn; [| reflexivity].
  destruct (gum w (gum_calls w)) as [m | tracks];
    cbn [svc world fst snd set_streams streams gum gum_calls]; [reflexivity |].
  rewrite nth_app_last.
  destruct (Nat.eqb (List.length tracks) 0); cbn; [reflexivity |].
  destruct (firstVideo tracks 0) as [[i track] |]; cbn; reflexivity.
Qed.

(** A connect during which nothing else runs is connectToCamera run to its
    end, when the table entry of the camera has an identity. *)
Lemma connect_alone a cameraId options :
  (JSMap.has (connectedCameras (svc (sys a))) cameraId = true ->
   JSMap.has (objects a) cameraId = true) ->
  let a' := play [CallConnect cameraId options; Resume (List.length (tasks a))] a in
  sys a' = exec (connectToCamera cameraId options) (sys a) /\
  tasks a' = tasks a.
Proof.
  intros Hsync. rewrite !play_cons. cbn [play fold_left].
  unfold exec. rewrite (connectToCamera_pieces (JSMap.get (objects a) cameraId)).
  pose proof (connect_begin_spec (JSMap.get (objects a) cameraId) cameraId options (sys a))
    as (_ & _ & Hbegin).
  assert (Hknown : forall t s1,
             connect_begin (JSMap.get (objects a) cameraId) cameraId options (sys a)
             = (Ok (inr t), s1) ->
             JSMap.has (connectedCameras (svc (sys a))) cameraId = true).
  { unfold connect_begin, connectFailed, try_catch, bind, gets, ret, throw, setStatus,
      notifyStatusChange, handleError, modify.
    destruct (JSMap.has (connectedCameras (svc (sys a))) cameraId); cbn; [reflexivity |].
    intros t s1 H. discriminate H. }
  destruct (connect_begin _ cameraId options (sys a)) as [[[c | t] | e] s1] eqn:Hrun;
    cbn [fst snd] in *.
  - replace (react (CallConnect cameraId options) a) with (set_sys s1 a)
      by (cbn [react]; rewrite Hrun; cbn [fst snd]; rewrite app_nil_r; reflexivity).
    cbn [react set_sys tasks]. rewrite nth_error_end. auto.
  - destruct Hbegin as (k & answer & -> & _).
    specialize (Hsync (Hknown _ _ eq_refl)). unfold JSMap.has in Hsync.
    destruct (JSMap.get (objects a) cameraId) as [o |] eqn:Ho; [| discriminate].
    replace (react (CallConnect cameraId options) a)
      with (mkAsync s1 (tasks a ++ [Connecting cameraId k (Some o) answer])
                    (connections a) (objects a) (next_object a))
      by (cbn [react]; rewrite Ho, Hrun; reflexivity).
    go_on (tasks a).
    cbn [resume fst snd step_of sys tasks connections objects next_object].
    rewrite Ho, sameObject_refl, app_nil_r. auto.
  - replace (react (CallConnect cameraId options) a) with (set_sys s1 a)
      by (cbn [react]; rewrite Hrun; cbn [fst snd]; rewrite app_nil_r; reflexivity).
    cbn [react set_sys tasks]. rewrite nth_error_end. auto.
Qed.

(** *** Every table entry has an identity *)

Lemma updateCamera_keys cameraId f v id :
  JSMap.has (connectedCameras
               (match JSMap.get (connectedCameras v) cameraId with
                | Some camera =>
                    set_connectedCameras
                      (JSMap.set (connectedCameras v) cameraId (f camera)) v
                | None => v
                end)) id
  = JSMap.has (connectedCameras v) id.
Proof.
  destruct (JSMap.get (connectedCameras v) cameraId) as [camera |] eqn:Hget; [| reflexivity].
  destruct v; cbn in *. apply (has_update _ _ camera). exact Hget.
Qed.

Lemma connect_begin_table camera cameraId options s :
  connectedCameras (svc (snd (connect_begin camera cameraId options s)))
  = connectedCameras (svc s).
Proof.
  unfold connect_begin, connectFailed, try_catch, bind, gets, ret, throw, setStatus,
    notifyStatusChange, handleError, modify, lift, settle, getUserMedia.
  destruct s as [v w]; cbn [svc world].
  destruct (JSMap.has (connectedCameras v) cameraId); cbn; [| destruct v; reflexivity].
  destruct (JSMap.get (activeStreams v) cameraId) as [c |]; cbn; [reflexivity |].
  destruct (buildConstraints cameraId options _) as [k | e]; cbn; [| destruct v; reflexivity].
  destruct (gum w (gum_calls w)) as [m | tracks]; cbn; destruct v; reflexivity.
Qed.

Lemma connect_end_keys same cameraId k answer s id :
  JSMap.has (connectedCameras (svc (snd (connect_end same cameraId k answer s)))) id
  = JSMap.has (connectedCameras (svc s)) id.
Proof.
  unfold connect_end, connectFailed, try_catch, bind, gets, ret, throw, setStatus,
    notifyStatusChange, handleError, modify, lift, getTracks, now, newRef, when,
    updateCamera.
  destruct s as [v w]; cbn [svc world].
  destruct answer as [h | e]; cbn; [| destruct v; reflexivity].
  destruct (Nat.eqb (List.length (nth h (streams w) [])) 0); cbn; [destruct v; reflexivity |].
  destruct (firstVideo (nth h (streams w) []) 0) as [[i track] |]; cbn;
    [| destruct v; reflexivity].
  destruct same; cbn; [| destruct v; reflexivity].
  destruct v as [cams caps act st perm init]; cbn.
  destruct (JSMap.get cams cameraId) as [camera |] eqn:Hget; cbn; [| reflexivity].
  apply (has_update _ _ camera). exact Hget.
Qed.

Lemma disconnect_keys cameraId s id :
  JSMap.has (connectedCameras (svc (exec (disconnectCamera cameraId) s))) id
  = JSMap.has (connectedCameras (svc s)) id.
Proof.
  unfold exec, disconnectCamera, try_catch, bind, gets, ret, stopAllTracks, setStatus,
    notifyStatusChange, modify, now, updateCamera.
  destruct s as [v w]; cbn [svc world].
  destruct (JSMap.get (activeStreams v) cameraId) as [c |]; cbn; [| reflexivity].
  destruct v as [cams caps act st perm init]; cbn.
  destruct (JSMap.get cams cameraId) as [camera |] eqn:Hget; cbn; [| reflexivity].
  apply (has_update _ _ camera). exact Hget.
Qed.

Lemma trackEnded_keys c s id :
  JSMap.has (connectedCameras (svc (exec (trackEnded c) s))) id
  = JSMap.has (connectedCameras (svc s)) id.
Proof.
  unfold exec, trackEnded, handleStreamEnd, bind, gets, ret, setStatus,
    notifyStatusChange, modify, now, updateCamera.
  destruct s as [v w]; cbn [svc world].
  destruct v as [cams caps act st perm init]; cbn.
  destruct (JSMap.get cams (conn_cameraId c)) as [camera |] eqn:Hget; cbn; [| reflexivity].
  apply (has_update _ _ camera). exact Hget.
Qed.

Lemma new_async_identified w : identified (new_async w).
Proof. intros id H. discriminate H. Qed.

Lemma react_identified e a : identified a -> identified (react e a).
Proof.
  intros Hinv.
  destruct e as [cameraId options | enumerated | cameraId | n | ref | dt]; cbn [react].
  - intros id. cbn [sys objects]. rewrite connect_begin_table. apply Hinv.
  - exact Hinv.
  - intros id. cbn [set_sys sys objects]. rewrite disconnect_keys. apply Hinv.
  - destruct (nth_error (tasks a) n) as [t |]; [| exact Hinv].
    intros id. cbn [sys objects].
    destruct t as [cid k camera answer | [devices | e] | device name answer rest
                   | device name capabilities rest | rest]; cbn [resume fst snd sys objects].
    + rewrite connect_end_keys. apply Hinv.
    + unfold enumerated_end, bind, modify.
      match goal with
      | |- context [loop_next ?l ?s0] =>
          destruct (loop_next_spec l s0) as (next & s' & Hrun & Hsvc & _)
      end.
      rewrite Hrun. cbn [fst snd]. rewrite Hsvc.
      destruct (sys a) as [[cams caps act st perm init] w]. cbn. discriminate.
    + apply Hinv.
    + destruct (probe_end_spec answer (sys a)) as (caps & s' & Hrun & Hsvc & _).
      rewrite Hrun. cbn [fst snd set_sys sys objects]. rewrite Hsvc. apply Hinv.
    + unfold exec, register, bind, now, gets, modify.
      destruct (sys a) as [[cams caps act st perm init] w] eqn:Hs. cbn.
      rewrite !JSMapFacts.has_set.
      destruct (String.eqb (deviceId device) id); cbn; [reflexivity |].
      intros H. apply Hinv. rewrite Hs. exact H.
    + destruct (loop_next_spec rest (sys a)) as (next & s' & Hrun & Hsvc & _).
      rewrite Hrun. cbn [fst snd set_sys sys objects]. rewrite Hsvc. apply Hinv.
  - destruct (find _ (connections a)) as [c |]; [| exact Hinv].
    destruct (videoLive (sys a) c); [| exact Hinv].
    intros id. cbn [set_sys sys objects]. rewrite trackEnded_keys. apply Hinv.
  - intros id. cbn [set_sys sys objects]. destruct (sys a) as [v w] eqn:Hs. cbn.
    intros H. apply Hinv. rewrite Hs. exact H.
Qed.

Lemma play_identified events : forall a, identified a -> identified (play events a).
Proof.
  induction events as [| e rest IH]; intros a Hinv; [exact Hinv |].
  rewrite play_cons. apply IH, react_identified, Hinv.
Qed.

(** On a service that began new, whatever has happened since, a connect
    during which nothing else runs is connectToCamera run to its end. *)
Lemma connect_alone_reached w events cameraId options :
  let a := play events (new_async w) in
  let a' := play [CallConnect cameraId options; Resume (List.length (tasks a))] a in
  sys a' = exec (connectToCamera cameraId options) (sys a) /\
  tasks a' = tasks a.
Proof.
  intros a. apply connect_alone.
  apply (play_identified events (new_async w) (new_async_identified w)).
Qed.

(** *** The tables a pass builds *)








(** *** Connecting a connected device *)

(** C5 (amended).  For a device that is in the device table and has a
    connection, connectToCamera returns that connection and changes
    nothing: no getUserMedia call, no stream, no status, whatever calls are
    suspended; as an event it leaves the service with its suspended calls
    as it was.  And while no connectToCamera is called for a device for
    which an earlier connect is suspended at its await, whatever else runs
    in between (discovery passes, their pieces in any order, disconnects,
    tracks ending): a Connection object whose video track is live is the
    one the active-stream map holds for its device, so no two Connection
    objects of one device both have a live video track, and a device with a
    suspended connect has no connection. *)
Theorem C5_connect_is_idempotent_when_connects_do_not_overlap :
  (forall a cameraId options c,
      JSMap.has (connectedCameras (svc (sys a))) cameraId = true ->
      JSMap.get (activeStreams (svc (sys a))) cameraId = Some c ->
      connectToCamera cameraId options (sys a) = (Ok c, sys a) /\
      connect_begin (JSMap.get (objects a) cameraId) cameraId options (sys a)
      = (Ok (inl c), sys a) /\
      react (CallConnect cameraId options) a = a) /\
  (forall w events,
      serialConnects events (new_async w) ->
      let a := play events (new_async w) in
      (forall c, In c (connections a) -> videoLive (sys a) c = true ->
                 JSMap.get (activeStreams (svc (sys a))) (conn_cameraId c) = Some c) /\
      (forall c1 c2,
          In c1 (connections a) -> In c2 (connections a) ->
          conn_cameraId c1 = conn_cameraId c2 ->
          videoLive (sys a) c1 = true -> videoLive (sys a) c2 = true ->
          c1 = c2) /\
      (forall id, In id (connecting (tasks a)) -> isConnected (sys a) id = false)).
Proof.
  split.
  - intros a cameraId options c Hknown Hget.
    assert (Hbegin : connect_begin (JSMap.get (objects a) cameraId) cameraId options (sys a)
                     = (Ok (inl c), sys a)).
    { unfold connect_begin, try_catch, bind, gets, ret. rewrite Hknown. cbn.
      rewrite Hget. reflexivity. }
    split; [apply connect_existing; assumption |]. split; [exact Hbegin |].
    cbn [react]. rewrite Hbegin. cbn [fst snd]. rewrite app_nil_r.
    destruct a; reflexivity.
  - intros w events Hserial a.
    destruct (play_orderly events (new_async w) Hserial (new_async_orderly w))
      as (O1 & O2 & O3 & O4 & O5 & O6).
    fold a in O1, O2, O3, O4, O5, O6.
    split; [exact O1 |]. split.
    + intros c1 c2 Hin1 Hin2 Hid Hlive1 Hlive2.
      pose proof (O1 c1 Hin1 Hlive1) as H1. pose proof (O1 c2 Hin2 Hlive2) as H2.
      rewrite Hid in H1. congruence.
    + intros id Hin. unfold isConnected, JSMap.has. rewrite (O5 id Hin). reflexivity.
Qed.

Lemma C5_serial_connects_witness :
  let a := play connected_once (new_async webcam_world) in
  let a' := play connect_in_turn (new_async webcam_world) in
  a' = a /\
  List.length (connections a') = 1%nat /\
  gum_calls (world (sys a')) = 2%nat /\
  forall c1 c2,
    In c1 (connections a') -> In c2 (connections a') ->
    conn_cameraId c1 = conn_cameraId c2 ->
    videoLive (sys a') c1 = true -> videoLive (sys a') c2 = true ->
    c1 = c2.
Proof.
  destruct C5_connect_is_idempotent_when_connects_do_not_overlap as (Hsame & Hone).
  assert (Hserial : serialConnects connect_in_turn (new_async webcam_world)).
  { vm_compute. tauto. }
  destruct (Hone webcam_world connect_in_turn Hserial) as (_ & Hunique & _).
  intros a a'.
  assert (Heq : a' = a).
  { subst a a'. unfold connect_in_turn. rewrite play_app, !play_cons.
    cbn [play fold_left].
    set (a := play connected_once (new_async webcam_world)).
    destruct (JSMap.get (activeStreams (svc (sys a))) "cam1") as [c |] eqn:Hget;
      [| vm_compute in Hget; discriminate].
    destruct (Hsame a "cam1" default_options c) as (_ & _ & ->);
      [vm_compute; reflexivity | exact Hget |].
    vm_compute. reflexivity. }
  split; [exact Heq |].
  split; [vm_compute; reflexivity |]. split; [vm_compute; reflexivity |].
  exact Hunique.
Defined.

(** C5 as stated fails in two ways.  When connectToCamera is called
    twice for cam1 before getUserMedia has answered the first call, both
    calls find no connection at line 256 and both open a stream: there are
    two Connection objects for cam1, both with a live video track, after
    three getUserMedia calls (one was the probe of the discovery pass); the
    map holds the second, and disconnectCamera leaves the stream of the
    first live.  And for a connected device that a later discovery pass
    does not list, connectToCamera throws 'Camera cam1 not found' and sets
    the status 'failed', though the connection is there and live. *)
Lemma C5_overlapping_connects_make_two_connections :
  (let a := play connect_twice_at_once (new_async webcam_world) in
   map conn_cameraId (connections a) = ["cam1"; "cam1"] /\
   map conn_ref (connections a) = [0; 1]%nat /\
   map stream (connections a) = [1; 2]%nat /\
   map (videoLive (sys a)) (connections a) = [true; true] /\
   gum_calls (world (sys a)) = 3%nat /\
   getActiveStream (sys a) "cam1" = Some 2%nat /\
   allStopped (exec (disconnectCamera "cam1") (sys a)) 1 = false) /\
  (let a := play connect_unlisted (new_async webcam_world) in
   List.length (connections a) = 1%nat /\
   map (videoLive (sys a)) (connections a) = [true] /\
   isConnected (sys a) "cam1" = true /\
   getCameraStatus (sys a) "cam1" = "failed" /\
   result (connectToCamera "cam1" default_options) (sys a)
   = Throw (JsError "Camera cam1 not found")).
Proof. vm_compute. repeat split; reflexivity. Qed.

(** *** Re-discovery: a pass that no other pass overlaps *)




















End CameraAsyncFacts.
